(** * mate: a ticket time tracker (mate.go)

    A shallow embedding of [mate.go] and the properties of its event log,
    its segment computation, its aggregation and its start/stop/resume
    controller.

    Definitions:
    - [GoTime]: the part of Go's [time] package the program uses
      ([Time], [Duration], [Sub], [Format] and [Parse] for the layout
      [TIME_FORMAT]);
    - [Csv]: the reader of [encoding/csv] with its default options;
    - the world the program runs in (environment, database file, clock,
      standard output) and a small result monad;
    - the functions of [mate.go], in the order of the source;
    - the ledger as the program reads it, the vocabulary of the
      specification, and sample ledgers;
    - the rest of the program: [Duration.String], the commands that show
      the ledger ([listEntries], [showReport], [showInfo]),
      [clearEntries] and [main].

    Theorems:
    - durations, timestamps ([Parse] after [Format]) and the CSV reader;
    - the ledger: reading and writing the database file;
    - segments ([computeEntriesDuration]) and aggregation
      ([filterStops], [groupDurations], [computeTotalTime]);
    - the controller ([stopTicket], [restartLastTicket],
      [getLastTicketTitle]), the stop token, and what is read back after
      a write;
    - what the commands print, what a run keeps of the database file,
      [clear], the command line, and the commands one after another. *)

From Stdlib Require Import ZArith Lia List String Ascii Bool.
From stdpp Require Import gmap strings list fin_maps.
Import ListNotations.

Local Open Scope string_scope.
Local Open Scope list_scope.
Local Open Scope Z_scope.

(* ===================================================================== *)
(** * Go's [time] package *)
(* ===================================================================== *)

Module GoTime.

(** A [time.Time] without monotonic reading is a wall-clock instant with
    nanosecond resolution. It is modelled by the number of nanoseconds
    since January 1, year 1, 00:00:00 (the zero [Time]); for the value of
    [time.Now()] this is the reading of the local wall clock, which is
    what [Format] prints. *)
Definition Time := Z.

(** [time.Duration] is an [int64] count of nanoseconds. *)
Definition Duration := Z.

Definition Nanosecond : Duration := 1.
Definition Second : Duration := 1000000000.
Definition Minute : Duration := 60 * Second.
Definition Hour : Duration := 60 * Minute.

Definition minDuration : Duration := - 2 ^ 63.
Definition maxDuration : Duration := 2 ^ 63 - 1.

(** [int64] wrap-around, as in [d1 + d2] and [x += d] on durations. *)
Definition wrap64 (z : Z) : Z := (z + 2 ^ 63) mod 2 ^ 64 - 2 ^ 63.

Definition addDuration (a b : Duration) : Duration := wrap64 (a + b).

(** [t.Sub(u)]: the difference [t - u]; when it does not fit a
    [Duration], the maximum (or minimum) duration is returned. *)
Definition Sub (t u : Time) : Duration :=
  let d := t - u in
  if d <? minDuration then minDuration
  else if maxDuration <? d then maxDuration
  else d.

(** ** The proleptic Gregorian calendar *)

Definition isLeap (year : Z) : bool :=
  (year mod 4 =? 0) && (negb (year mod 100 =? 0) || (year mod 400 =? 0)).

Definition daysIn (month year : Z) : Z :=
  if month =? 2 then (if isLeap year then 29 else 28)
  else if (month =? 4) || (month =? 6) || (month =? 9) || (month =? 11) then 30
  else 31.

(** Days are counted from January 1 of year 1 (day 0); internally the
    count is shifted to March 1 of year 0, the start of a 400-year era. *)
Definition daysPerEra : Z := 146097.
Definition marchShift : Z := 306.

(** Year of era (0..399), month and day of the [doe]-th day of an era. *)
Definition civilOfEraDay (doe : Z) : Z * Z * Z :=
  let yoe := (doe - doe / 1460 + doe / 36524 - doe / 146096) / 365 in
  let doy := doe - (365 * yoe + yoe / 4 - yoe / 100) in
  let mp := (5 * doy + 2) / 153 in
  let d := doy - (153 * mp + 2) / 5 + 1 in
  let m := if mp <? 10 then mp + 3 else mp - 9 in
  (yoe, m, d).

Definition civilFromDays (days : Z) : Z * Z * Z :=
  let z := days + marchShift in
  let era := z / daysPerEra in
  let doe := z mod daysPerEra in
  let '(yoe, m, d) := civilOfEraDay doe in
  let y := yoe + era * 400 in
  ((if m <=? 2 then y + 1 else y), m, d).

Definition eraDayOfCivil (yoe m d : Z) : Z :=
  let mp := if 2 <? m then m - 3 else m + 9 in
  let doy := (153 * mp + 2) / 5 + d - 1 in
  yoe * 365 + yoe / 4 - yoe / 100 + doy.

Definition daysFromCivil (year m d : Z) : Z :=
  let y := if m <=? 2 then year - 1 else year in
  let era := y / 400 in
  let yoe := y mod 400 in
  era * daysPerEra + eraDayOfCivil yoe m d - marchShift.

(** [time.Date(year, month, day, hour, min, sec, nsec, time.UTC)] for
    fields that are in range. *)
Definition Date (year month day hour min sec nsec : Z) : Time :=
  (daysFromCivil year month day * 86400 + hour * 3600 + min * 60 + sec) * Second
  + nsec.

(** ** Decimal digits *)

Definition isDigit (c : ascii) : bool :=
  let n := Z.of_nat (nat_of_ascii c) in (48 <=? n) && (n <=? 57).

Definition digitVal (c : ascii) : Z := Z.of_nat (nat_of_ascii c) - 48.

Definition digitChar (d : Z) : ascii := ascii_of_nat (Z.to_nat (48 + d)).

(** The decimal digits of [u >= 0], most significant first. *)
Fixpoint digitsFuel (fuel : nat) (u : Z) (acc : string) : string :=
  match fuel with
  | O => acc
  | S fuel' =>
      let acc' := String (digitChar (u mod 10)) acc in
      if u / 10 =? 0 then acc' else digitsFuel fuel' (u / 10) acc'
  end.

Definition digits (u : Z) : string :=
  digitsFuel (S (Z.to_nat (Z.log2 u))) u "".

Fixpoint zeros (n : nat) : string :=
  match n with
  | O => ""
  | S n' => String "0" (zeros n')
  end.

(** [appendInt(b, x, width)]: [x] in decimal, zero-padded to [width]. *)
Definition appendInt (x : Z) (width : nat) : string :=
  let ds := digits (Z.abs x) in
  (if x <? 0 then "-" else "")
    +:+ zeros (width - String.length ds) +:+ ds.

(** ** [Format] and [Parse] for the layout ["2006/01/02 15:04:05"] *)

(** [t.Format(TIME_FORMAT)]: year (4 digits), month, day, hour (24h),
    minute and second (2 digits each); nanoseconds are not printed. *)
Definition Format (t : Time) : string :=
  let secs := t / Second in
  let days := secs / 86400 in
  let sod := secs mod 86400 in
  let '(y, m, d) := civilFromDays days in
  appendInt y 4 +:+ "/" +:+ appendInt m 2 +:+ "/" +:+ appendInt d 2 +:+ " "
    +:+ appendInt (sod / 3600) 2 +:+ ":" +:+ appendInt (sod mod 3600 / 60) 2
    +:+ ":" +:+ appendInt (sod mod 60) 2.

(** [getnum(s, fixed)]: a number of one or two digits; exactly two when
    [fixed]. *)
Definition getnum (s : string) (fixed : bool) : option (Z * string) :=
  match s with
  | String c0 s1 =>
      if isDigit c0 then
        match s1 with
        | String c1 s2 =>
            if isDigit c1 then Some (digitVal c0 * 10 + digitVal c1, s2)
            else if fixed then None else Some (digitVal c0, s1)
        | EmptyString => if fixed then None else Some (digitVal c0, s1)
        end
      else None
  | EmptyString => None
  end.

(** The year of the layout ([2006]): exactly four digits. *)
Definition getYear (s : string) : option (Z * string) :=
  match s with
  | String c0 (String c1 (String c2 (String c3 rest))) =>
      if isDigit c0 && isDigit c1 && isDigit c2 && isDigit c3 then
        Some (((digitVal c0 * 10 + digitVal c1) * 10 + digitVal c2) * 10
              + digitVal c3, rest)
      else None
  | _ => None
  end.

(** [skip(value, prefix)] for a one-character literal of the layout. *)
Definition skipChar (c : ascii) (s : string) : option string :=
  match s with
  | String c' s' => if Ascii.eqb c c' then Some s' else None
  | EmptyString => None
  end.

Fixpoint cutspace (s : string) : string :=
  match s with
  | String " " s' => cutspace s'
  | _ => s
  end.

(** [skip(value, " ")]: a space of the layout matches any run of spaces
    of the value. *)
Definition skipSpace (s : string) : option string :=
  match s with
  | String c _ => if Ascii.eqb c " " then Some (cutspace s) else None
  | EmptyString => Some EmptyString
  end.

(** The digits at the head of [s], and what follows them. *)
Fixpoint spanDigits (s : string) : list Z * string :=
  match s with
  | String c s' =>
      if isDigit c then let '(ds, r) := spanDigits s' in (digitVal c :: ds, r)
      else ([], s)
  | EmptyString => ([], s)
  end.

(** The first nine fractional digits, scaled to nanoseconds. *)
Fixpoint nanosOfDigits (n : nat) (ds : list Z) : Z :=
  match n with
  | O => 0
  | S n' =>
      match ds with
      | d :: ds' => d * 10 ^ Z.of_nat n' + nanosOfDigits n' ds'
      | [] => 0
      end
  end.

(** A fractional second in the value that the layout does not have is
    accepted after the seconds: [.] or [,] followed by digits. *)
Definition getFraction (s : string) : Z * string :=
  match s with
  | String c0 (String c1 _ as s1) =>
      if (Ascii.eqb c0 "." || Ascii.eqb c0 ",") && isDigit c1 then
        let '(ds, r) := spanDigits s1 in (nanosOfDigits 9 ds, r)
      else (0, s)
  | _ => (0, s)
  end.

Definition inRange (lo x hi : Z) : bool := (lo <=? x) && (x <=? hi).

(** [time.Parse(TIME_FORMAT, s)]; [None] stands for a parse error. *)
Definition Parse (s : string) : option Time :=
  '(year, s) ← getYear s;
  s ← skipChar "/" s;
  '(month, s) ← getnum s true;
  if negb (inRange 1 month 12) then None else
  s ← skipChar "/" s;
  '(day, s) ← getnum s true;
  s ← skipSpace s;
  '(hour, s) ← getnum s false;
  if negb (inRange 0 hour 23) then None else
  s ← skipChar ":" s;
  '(min, s) ← getnum s true;
  if negb (inRange 0 min 59) then None else
  s ← skipChar ":" s;
  '(sec, s) ← getnum s true;
  if negb (inRange 0 sec 59) then None else
  let '(nsec, s) := getFraction s in
  match s with
  | String _ _ => None
  | EmptyString =>
      if negb (inRange 1 day (daysIn month year)) then None
      else Some (Date year month day hour min sec nsec)
  end.

End GoTime.

Import GoTime.

(* ===================================================================== *)
(** * Go's [encoding/csv] reader *)
(* ===================================================================== *)

Module Csv.

Definition LF : ascii := "010"%char.
Definition CR : ascii := "013"%char.
Definition DQ : ascii := "034"%char.
Definition Comma : ascii := ","%char.

(** The errors of [csv.ParseError] that a reader with the default
    options ([Comma = ','], no comment character, [FieldsPerRecord = 0],
    no [LazyQuotes], no [TrimLeadingSpace]) can report. *)
Inductive ParseErr : Type :=
  | ErrBareQuote    (* a quote in a field that is not quoted *)
  | ErrQuote        (* an extraneous or missing quote in a quoted field *)
  | ErrFieldCount.  (* a record with another number of fields than the first *)

(** Where the reader stands in its input. [fs] are the fields of the
    current record that are complete, [cur] is the text of the field
    being read. *)
Inductive Mode : Type :=
  | RecordStart                                   (* at the start of a line *)
  | FieldStart (fs : list string)                 (* just after a comma *)
  | Unquoted (fs : list string) (cur : string)    (* in a field without quotes *)
  | Quoted (fs : list string) (cur : string)      (* in a quoted field *)
  | QuoteSeen (fs : list string) (cur : string).  (* after a quote in a quoted field *)

(** The records read so far, and either the place in the current record
    or the error that stopped the reader. *)
Inductive Parser : Type :=
  | Parsing (recs : list (list string)) (m : Mode)
  | Failed (recs : list (list string)) (e : ParseErr).

Definition recsOf (p : Parser) : list (list string) :=
  match p with Parsing recs _ | Failed recs _ => recs end.

Definition snoc (s : string) (c : ascii) : string := s +:+ String c "".

(** The end of a record: the first record fixes the number of fields
    ([FieldsPerRecord = 0]), every later one is checked against it. *)
Definition emit (recs : list (list string)) (fs : list string) : Parser :=
  match recs with
  | [] => Parsing [fs] RecordStart
  | first :: _ =>
      if Nat.eqb (length fs) (length first)
      then Parsing (recs ++ [fs]) RecordStart
      else Failed recs ErrFieldCount
  end.

(** One character of a line, after [readLine] has normalised the line
    end. Empty lines between records are skipped; inside quotes a line
    end is part of the field. *)
Definition feed (p : Parser) (c : ascii) : Parser :=
  match p with
  | Failed _ _ => p
  | Parsing recs m =>
      let fieldStart (fs : list string) :=
        if Ascii.eqb c DQ then Parsing recs (Quoted fs "")
        else if Ascii.eqb c Comma then Parsing recs (FieldStart (fs ++ [""]))
        else if Ascii.eqb c LF then emit recs (fs ++ [""])
        else Parsing recs (Unquoted fs (String c "")) in
      match m with
      | RecordStart =>
          if Ascii.eqb c LF then Parsing recs RecordStart else fieldStart []
      | FieldStart fs => fieldStart fs
      | Unquoted fs cur =>
          if Ascii.eqb c DQ then Failed recs ErrBareQuote
          else if Ascii.eqb c Comma then Parsing recs (FieldStart (fs ++ [cur]))
          else if Ascii.eqb c LF then emit recs (fs ++ [cur])
          else Parsing recs (Unquoted fs (snoc cur c))
      | Quoted fs cur =>
          if Ascii.eqb c DQ then Parsing recs (QuoteSeen fs cur)
          else Parsing recs (Quoted fs (snoc cur c))
      | QuoteSeen fs cur =>
          if Ascii.eqb c DQ then Parsing recs (Quoted fs (snoc cur DQ))
          else if Ascii.eqb c Comma then Parsing recs (FieldStart (fs ++ [cur]))
          else if Ascii.eqb c LF then emit recs (fs ++ [cur])
          else Failed recs ErrQuote
      end
  end.

(** One byte of the file. [readLine] turns a carriage return that is
    followed by a line feed into the line feed alone and drops a carriage
    return that ends the file; any other carriage return is data. The
    flag says that a carriage return is held back until the next byte is
    known. *)
Definition step (s : Parser * bool) (c : ascii) : Parser * bool :=
  let '(p, held) := s in
  if held then
    if Ascii.eqb c LF then (feed p LF, false)
    else if Ascii.eqb c CR then (feed p CR, true)
    else (feed (feed p CR) c, false)
  else
    if Ascii.eqb c CR then (p, true) else (feed p c, false).

Fixpoint run (s : Parser * bool) (input : string) : Parser * bool :=
  match input with
  | EmptyString => s
  | String c rest => run (step s c) rest
  end.

(** The end of the file: a field without quotes, or a quoted field whose
    closing quote has been read, ends the last record; an open quoted
    field is an error. A carriage return that is held back is dropped. *)
Definition finish (s : Parser * bool) : Parser :=
  match fst s with
  | Failed recs e => Failed recs e
  | Parsing recs m =>
      match m with
      | RecordStart => Parsing recs RecordStart
      | FieldStart fs => emit recs (fs ++ [""])
      | Unquoted fs cur => emit recs (fs ++ [cur])
      | Quoted fs cur => Failed recs ErrQuote
      | QuoteSeen fs cur => emit recs (fs ++ [cur])
      end
  end.

Definition start : Parser * bool := (Parsing [] RecordStart, false).

Definition parse (input : string) : Parser := finish (run start input).

(** [r.ReadAll()] on a reader over [input]: all records, or the first
    error. *)
Definition ReadAll (input : string) : ParseErr + list (list string) :=
  match parse input with
  | Parsing recs _ => inr recs
  | Failed _ e => inl e
  end.

(** [r.Read()] on a fresh reader over [input]: the first record,
    [io.EOF] when there is none, or the error in the first record. *)
Inductive ReadResult : Type :=
  | ReadRecord (fields : list string)
  | ReadEOF
  | ReadError (e : ParseErr).

Definition Read (input : string) : ReadResult :=
  match parse input with
  | Parsing (first :: _) _ | Failed (first :: _) _ => ReadRecord first
  | Parsing [] _ => ReadEOF
  | Failed [] e => ReadError e
  end.

End Csv.

Definition nl : string := String Csv.LF "".
Definition quote : string := String Csv.DQ "".

(* ===================================================================== *)
(** * The world of the program *)
(* ===================================================================== *)

(** What a run of [mate] sees and changes: the variable [HOME] of its
    environment, the database file at [$HOME/.mate.csv] ([None] when the
    file does not exist), the wall clock (the [n]-th call of [time.Now()]
    returns [clock n]) and what has been printed on the standard output.
    The file system is assumed to work: opening an existing file, reading
    and writing it do not fail. *)
Record World : Type := mkWorld {
  home : string;
  db : option string;
  clock : nat -> Time;
  tick : nat;
  stdout : list string
}.

(** The ways a run stops early, besides [os.Exit]. *)
Inductive Fault : Type :=
  | NoHome                          (* log.Fatal: HOME is not set *)
  | NoFile                          (* log.Fatal: the file cannot be opened *)
  | CsvFault (e : Csv.ParseErr)     (* log.Fatal: the file is not valid CSV *)
  | TimeFault (value : string)      (* log.Fatal: a timestamp does not parse *)
  | IndexPanic.                     (* panic: index out of range *)

Inductive Res (A : Type) : Type :=
  | Ok (a : A) (w : World)          (* the call returns *)
  | Exit (code : Z) (w : World)     (* os.Exit(code) *)
  | Fatal (f : Fault) (w : World).  (* log.Fatal or a panic *)

Arguments Ok {A} a w.
Arguments Exit {A} code w.
Arguments Fatal {A} f w.

Definition M (A : Type) : Type := World -> Res A.

Definition ret {A : Type} (a : A) : M A := fun w => Ok a w.

Definition bind {A B : Type} (m : M A) (k : A -> M B) : M B :=
  fun w =>
    match m w with
    | Ok a w' => k a w'
    | Exit code w' => Exit code w'
    | Fatal f w' => Fatal f w'
    end.

Notation "x <- m ;; k" := (bind m (fun x => k))
  (at level 100, m at next level, right associativity).
Notation "m ;;; k" := (bind m (fun _ => k))
  (at level 100, right associativity).

(** The world a result leaves behind. *)
Definition worldOf {A : Type} (r : Res A) : World :=
  match r with
  | Ok _ w | Exit _ w | Fatal _ w => w
  end.

Definition fatal {A : Type} (f : Fault) : M A := fun w => Fatal f w.

(** [os.Exit(code)] *)
Definition os_Exit {A : Type} (code : Z) : M A := fun w => Exit code w.

(** [fmt.Print] of a string that is already formatted. *)
Definition print (s : string) : M unit :=
  fun w => Ok tt (mkWorld (home w) (db w) (clock w) (tick w) (stdout w ++ [s])).

Definition println (s : string) : M unit := print (s +:+ nl).

(** [time.Now()] *)
Definition time_Now : M Time :=
  fun w => Ok (clock w (tick w))
              (mkWorld (home w) (db w) (clock w) (S (tick w)) (stdout w)).

(** [os.OpenFile] of the database, followed by reading it whole. With
    [O_CREATE] a missing file is created empty. *)
Definition openFile (create : bool) : M string :=
  fun w =>
    match db w with
    | Some content => Ok content w
    | None =>
        if create
        then Ok "" (mkWorld (home w) (Some "") (clock w) (tick w) (stdout w))
        else Fatal NoFile w
    end.

(** [f.WriteString(s)] at the end of the database file. *)
Definition writeAtEnd (s : string) : M unit :=
  fun w =>
    match db w with
    | Some content =>
        Ok tt (mkWorld (home w) (Some (content +:+ s)) (clock w) (tick w) (stdout w))
    | None => Fatal NoFile w
    end.

(* ===================================================================== *)
(** * More of Go's library: [Duration.String], [bufio], [os.Truncate] *)
(* ===================================================================== *)

Definition Microsecond : Duration := 1000 * Nanosecond.
Definition Millisecond : Duration := 1000 * Microsecond.

Definition tab : string := String "009" "".

(** The two bytes of the micro sign (U+00B5) in UTF-8. *)
Definition micro : string := String "194" (String "181" "").

(** The loop of [fmtFrac]: the last [prec] digits of [v] are written in
    front of [buf], the trailing zeros omitted. *)
Fixpoint fmtFracLoop (prec : nat) (v : Z) (printing : bool) (buf : string)
    : string * Z * bool :=
  match prec with
  | O => (buf, v, printing)
  | S prec' =>
      let digit := v mod 10 in
      let printing' := printing || negb (digit =? 0) in
      fmtFracLoop prec' (v / 10) printing'
        (if printing' then String (digitChar digit) buf else buf)
  end.

(** [fmtFrac(buf, v, prec)]: the fraction of [v / 10^prec] in front of
    [buf], without the decimal point when the fraction is zero; returns
    the text and [v / 10^prec]. *)
Definition fmtFrac (buf : string) (v : Z) (prec : nat) : string * Z :=
  let '(buf', v', printing) := fmtFracLoop prec v false buf in
  (if printing then String "." buf' else buf', v').

(** [fmtInt(buf, v)]: [v >= 0] in decimal in front of [buf]. *)
Definition fmtInt (buf : string) (v : Z) : string :=
  digitsFuel (S (Z.to_nat (Z.log2 v))) v buf.

(** [d.String()], what the verb [%v] prints for a [time.Duration]:
    ["72h3m0.5s"]; leading zero units are omitted, a duration of less
    than a second uses a smaller unit, and zero is ["0s"]. *)
Definition Duration_String (d : Duration) : string :=
  let u := Z.abs d in
  let neg := d <? 0 in
  let sign (buf : string) : string := if neg then String "-" buf else buf in
  if u <? Second then
    if u =? 0 then "0s"
    else
      let '(prec, suffix) :=
        if u <? Microsecond then (0%nat, "ns")
        else if u <? Millisecond then (3%nat, micro +:+ "s")
        else (6%nat, "ms") in
      let '(buf, u) := fmtFrac suffix u prec in
      sign (fmtInt buf u)
  else
    let '(buf, u) := fmtFrac "s" u 9 in
    let buf := fmtInt buf (u mod 60) in
    let u := u / 60 in
    if 0 <? u then
      let buf := fmtInt (String "m" buf) (u mod 60) in
      let u := u / 60 in
      if 0 <? u then sign (fmtInt (String "h" buf) u)
      else sign buf
    else sign buf.

(** [reader.ReadString(delim)] on the input that is left: the text up to
    and including the first [delim], or all of it when the input ends
    before; and the input that is left afterwards. The error of the
    second case is dropped by the program. *)
Fixpoint ReadString (delim : ascii) (input : string) : string * string :=
  match input with
  | EmptyString => ("", "")
  | String c rest =>
      if Ascii.eqb c delim then (String c "", rest)
      else let '(line, rest') := ReadString delim rest in (String c line, rest')
  end.

(** The first [size] bytes of a file; a shorter file is extended with
    null bytes. *)
Fixpoint resizeFile (size : nat) (content : string) : string :=
  match size with
  | O => ""
  | S size' =>
      match content with
      | EmptyString => String Ascii.zero (resizeFile size' "")
      | String c rest => String c (resizeFile size' rest)
      end
  end.

(** [os.Truncate] of the database; an error when the file does not
    exist. *)
Definition os_Truncate (size : nat) : M unit :=
  fun w =>
    match db w with
    | Some content =>
        Ok tt (mkWorld (home w) (Some (resizeFile size content)) (clock w) (tick w)
                       (stdout w))
    | None => Fatal NoFile w
    end.

(* ===================================================================== *)
(** * mate.go *)
(* ===================================================================== *)

(** [Format] and [Parse] of [GoTime] are those of this layout. *)
Definition TIME_FORMAT : string := "2006/01/02 15:04:05".
Definition STOP_TOKEN : string := "mate:STOP".
Definition DB_NAME : string := ".mate.csv".
Definition CSV_HEADER : string := "timestamp,title" +:+ nl.
Definition WORK_DAY : Duration := Hour * 7 + Minute * 30.

(** [type Record struct] *)
Record LogRecord : Type := mkRecord {
  timestamp : Time;
  title : string
}.

(** The anonymous [struct { title string; duration time.Duration }]. *)
Record Ticket : Type := mkTicket {
  ticketTitle : string;
  duration : Duration
}.

(** The path of the database; [log.Fatal] when [HOME] is empty. *)
Definition getDbPath : M string :=
  fun w =>
    if String.eqb (home w) "" then Fatal NoHome w
    else Ok (home w +:+ "/" +:+ DB_NAME) w.

(** The reader consumes the whole file to find the first record, so that
    the header of an empty database is written at its end. *)
Definition ensureCSVExists : M unit :=
  _ <- getDbPath ;;
  content <- openFile true ;;
  match Csv.Read content with
  | Csv.ReadRecord _ => ret tt
  | Csv.ReadEOF => writeAtEnd CSV_HEADER
  | Csv.ReadError e => fatal (CsvFault e)
  end.

(** The loop of [getRecords] over the raw records, from index [index]. *)
Fixpoint recordsLoop (index : nat) (rawRecords : list (list string))
    (records : list LogRecord) : M (list LogRecord) :=
  match rawRecords with
  | [] => ret records
  | rawRecord :: rest =>
      if Nat.eqb index 0 then recordsLoop (S index) rest records
      else
        match rawRecord !! 0%nat with
        | None => fatal IndexPanic
        | Some field0 =>
            match Parse field0 with
            | None => fatal (TimeFault field0)
            | Some ts =>
                match rawRecord !! 1%nat with
                | None => fatal IndexPanic
                | Some field1 =>
                    recordsLoop (S index) rest (records ++ [mkRecord ts field1])
                end
            end
        end
  end.

(** The events of the database: every record after the header, with
    its timestamp parsed. *)
Definition getRecords : M (list LogRecord) :=
  ensureCSVExists ;;;
  _ <- getDbPath ;;
  content <- openFile false ;;
  match Csv.ReadAll content with
  | inl e => fatal (CsvFault e)
  | inr rawRecords => recordsLoop 0 rawRecords []
  end.

(** The line [writeTicket] builds: both fields between double quotes,
    the title as it is. *)
Definition literalRecord (now title : string) : string :=
  quote +:+ now +:+ quote +:+ "," +:+ quote +:+ title +:+ quote +:+ nl.

(** Writes a new entry to the CSV. *)
Definition writeTicket (title : string) : M unit :=
  ensureCSVExists ;;;
  t <- time_Now ;;
  let now := Format t in
  _ <- getDbPath ;;
  writeAtEnd (literalRecord now title).

Definition startTicket (title : string) : M unit :=
  writeTicket title ;;;
  print ("STARTING " +:+ title +:+ nl).

Definition notWorkingMessage : string :=
  "Not currently working on a ticket. Run:" +:+ nl +:+ "$ mate start ["
    +:+ quote +:+ "Ticket title" +:+ quote +:+ "]".

(** [working] says that the file is not empty and that the previous
    entry is not already a stop; [last] is the zero [Record] when there
    is no entry. *)
Definition stopTicket : M unit :=
  records <- getRecords ;;
  let '(working, last) :=
    match last records with
    | Some l => (negb (String.eqb (title l) STOP_TOKEN), l)
    | None => (false, mkRecord 0 "")
    end in
  if working then
    writeTicket STOP_TOKEN ;;;
    print ("STOPPING " +:+ title last +:+ nl)
  else
    println notWorkingMessage.

Definition yellForNoRecord : M unit :=
  println ("No entry saved for now. Run:" +:+ nl +:+ "$ mate start "
           +:+ quote +:+ "Ticket title" +:+ quote) ;;;
  os_Exit 1.

Definition yellForNoPreviousTicket : M unit :=
  println "Can not find a previous ticket to restart. Run:" ;;;
  println ("$ mate start " +:+ quote +:+ "Ticket title" +:+ quote) ;;;
  os_Exit 1.

Definition yellForNotStopped (currentTicketTitle : string) : M unit :=
  print ("You are currently working on: " +:+ currentTicketTitle +:+ nl) ;;;
  os_Exit 1.

(** [records[i]]: a panic when [i] is out of range. *)
Definition index (records : list LogRecord) (i : nat) : M LogRecord :=
  match records !! i with
  | Some r => ret r
  | None => fatal IndexPanic
  end.

(** [mate start] without a title: the [switch] on the number of
    records. *)
Definition restartLastTicket : M unit :=
  records <- getRecords ;;
  let numberOfRecords := length records in
  if Nat.eqb numberOfRecords 0 then yellForNoRecord
  else if Nat.eqb numberOfRecords 1 then
    r0 <- index records 0 ;;
    if String.eqb (title r0) STOP_TOKEN then yellForNoPreviousTicket
    else yellForNotStopped (title r0)
  else if Nat.ltb 1 numberOfRecords then
    last <- index records (length records - 1) ;;
    if String.eqb (title last) STOP_TOKEN then
      penultimate <- index records (length records - 2) ;;
      if String.eqb (title penultimate) STOP_TOKEN then yellForNoPreviousTicket
      else startTicket (title penultimate)
    else yellForNotStopped (title last)
  else ret tt.

(** The state of the loop of [computeEntriesDuration]. *)
Record LoopState : Type := mkLoop {
  currentTicketTitle : string;
  startTime : Time;
  tickets : list Ticket
}.

Fixpoint entriesLoop (i : nat) (records : list LogRecord) (st : LoopState)
    : LoopState :=
  match records with
  | [] => st
  | r :: rest =>
      let tickets' :=
        if Nat.eqb i 0 then tickets st
        else tickets st
               ++ [mkTicket (currentTicketTitle st) (Sub (timestamp r) (startTime st))] in
      entriesLoop (S i) rest (mkLoop (title r) (timestamp r) tickets')
  end.

(** [time.Parse(TIME_FORMAT, time.Now().Format(TIME_FORMAT))] with the
    error dropped: the zero [Time] when the text does not parse. *)
Definition reparse (t : Time) : Time :=
  match Parse (Format t) with
  | Some now => now
  | None => 0
  end.

(** Computes the duration of each entry (including stop entries, but
    not if last); keeps tickets in the order of entries. *)
Definition computeEntriesDuration (records : list LogRecord) : M (list Ticket) :=
  if Nat.eqb (length records) 0 then ret []
  else
    let st := entriesLoop 0 records (mkLoop "" 0 []) in
    last <- index records (length records - 1) ;;
    if negb (String.eqb (title last) STOP_TOKEN) then
      t <- time_Now ;;
      let now := reparse t in
      ret (tickets st ++ [mkTicket (title last) (Sub now (startTime st))])
    else ret (tickets st).

(** Removes the stop tickets; keeps the order of tickets. *)
Definition filterStops (tickets : list Ticket) : list Ticket :=
  fold_left
    (fun outTickets t =>
       if negb (String.eqb (ticketTitle t) STOP_TOKEN) then outTickets ++ [t]
       else outTickets)
    tickets [].

(** Computes the durations per ticket (grouping several entries), as a
    map. [groupedTickets[t.title] += t.duration]: a key that is absent
    reads as the zero duration. *)
Definition groupDurations (tickets : list Ticket) : gmap string Duration :=
  fold_left
    (fun groupedTickets t =>
       <[ticketTitle t := addDuration (default 0 (groupedTickets !! ticketTitle t))
                                      (duration t)]> groupedTickets)
    tickets ∅.

(** Computes the total time worked since the beginning of the database. *)
Definition computeTotalTime (tickets : list Ticket) : Duration :=
  fold_left (fun totalTime t => addDuration totalTime (duration t)) tickets 0.

(** Returns the title of the last ticket; the stop token when there is
    no record in the database. *)
Definition getLastTicketTitle : M string :=
  records <- getRecords ;;
  if Nat.eqb (length records) 0 then ret STOP_TOKEN
  else
    r <- index records (length records - 1) ;;
    ret (title r).

(** The line of [Printf("%s\t%v\n", title, duration)]. *)
Definition durationLine (title : string) (d : Duration) : string :=
  title +:+ tab +:+ Duration_String d +:+ nl.

Definition entryLine (t : Ticket) : string :=
  if String.eqb (ticketTitle t) STOP_TOKEN then "---" +:+ nl
  else durationLine (ticketTitle t) (duration t).

Fixpoint listLoop (tickets : list Ticket) : M unit :=
  match tickets with
  | [] => ret tt
  | t :: rest => print (entryLine t) ;;; listLoop rest
  end.

Definition nothingToShow : string := "Nothing to show (yet)".

(** [mate list] *)
Definition listEntries : M unit :=
  records <- getRecords ;;
  tickets <- computeEntriesDuration records ;;
  if Nat.eqb (length tickets) 0 then println nothingToShow
  else listLoop tickets.

Fixpoint reportLoop (entries : list (string * Duration)) : M unit :=
  match entries with
  | [] => ret tt
  | (key, value) :: rest => print (durationLine key value) ;;; reportLoop rest
  end.

Section MapRange.

(** The order in which [range] visits a map is not specified: it is a
    parameter, [mapRange m] being the entries of [m] as one [range] loop
    meets them. *)
Variable mapRange : gmap string Duration -> list (string * Duration).

(** [mate log] *)
Definition showReport : M unit :=
  records <- getRecords ;;
  segments <- computeEntriesDuration records ;;
  let tickets := groupDurations (filterStops segments) in
  if Nat.eqb (size tickets) 0 then println nothingToShow
  else reportLoop (mapRange tickets).

End MapRange.

(** [mate info]. [groupedTickets[status]] reads as the zero duration
    when the key is absent; [WORK_DAY - totalTime] and [dayDiff * -1]
    are computed on [int64]. *)
Definition showInfo : M unit :=
  records <- getRecords ;;
  segments <- computeEntriesDuration records ;;
  let tickets := filterStops segments in
  let totalTime := computeTotalTime tickets in
  let dayDiff := wrap64 (WORK_DAY - totalTime) in
  status <- getLastTicketTitle ;;
  (if String.eqb status STOP_TOKEN then print ("Currently not working" +:+ nl)
   else
     let groupedTickets := groupDurations tickets in
     print ("Working on " +:+ status +:+ " ("
            +:+ Duration_String (default 0 (groupedTickets !! status))
            +:+ ")" +:+ nl)) ;;;
  if 0 <? dayDiff then
    print ("Still " +:+ Duration_String dayDiff +:+ " to work" +:+ nl)
  else
    print ("You're done for today (+" +:+ Duration_String (wrap64 (dayDiff * -1))
           +:+ ")" +:+ nl).

Fixpoint contains (s : list string) (e : string) : bool :=
  match s with
  | [] => false
  | a :: rest => if String.eqb a e then true else contains rest e
  end.

Definition validEntries : list string :=
  ["y" +:+ nl; "Y" +:+ nl; "n" +:+ nl; "N" +:+ nl; nl].

Definition clearPrompt : string := "Empty all entries in the database? [y/N]: ".

(** The loop of [clearEntries], with [remaining = 3 - i] turns left and
    [input] what is left on the standard input. *)
Fixpoint promptLoop (remaining : nat) (userEntry input : string) : M string :=
  match remaining with
  | O => ret userEntry
  | S remaining' =>
      if contains validEntries userEntry then ret userEntry
      else
        print clearPrompt ;;;
        let '(line, rest) := ReadString Csv.LF input in
        promptLoop remaining' line rest
  end.

(** [mate clear], with [input] on the standard input. *)
Definition clearEntries (input : string) : M unit :=
  userEntry <- promptLoop 3 "" input ;;
  if String.eqb userEntry ("y" +:+ nl) || String.eqb userEntry ("Y" +:+ nl) then
    _ <- getDbPath ;;
    os_Truncate (String.length CSV_HEADER) ;;;
    println "Database cleared"
  else println "Command canceled".

Definition showErrorHelp : M unit :=
  println "Please provide a command among:" ;;;
  println "  * start (s)" ;;;
  println "  * stop (x)" ;;;
  println "  * log (l)" ;;;
  println "  * list (ll)" ;;;
  println "  * info (i)" ;;;
  println "  * clear".

(** [os.Args[i]]: a panic when [i] is out of range. *)
Definition arg (args : list string) (i : nat) : M string :=
  match args !! i with
  | Some a => ret a
  | None => fatal IndexPanic
  end.

(** The commands that take no parameter. *)
Definition noParameter (numberOfArgs : nat) (command : string) (run : M unit)
    : M unit :=
  if Nat.eqb numberOfArgs 3 then
    println ("The " +:+ command +:+ " command does not take any parameter") ;;;
    os_Exit 1
  else run.

(** [main], with [args] for [os.Args] (the name of the program first),
    [input] on the standard input and [mapRange] for the order of the
    [range] over a map. *)
Definition main (mapRange : gmap string Duration -> list (string * Duration))
    (args : list string) (input : string) : M unit :=
  let numberOfArgs := length args in
  (if Nat.eqb numberOfArgs 1 then showErrorHelp ;;; os_Exit 1 else ret tt) ;;;
  (if Nat.ltb 3 numberOfArgs then
     println "Too much arguments provided." ;;;
     println "(Use quotes for long titles)" ;;;
     os_Exit 1
   else ret tt) ;;;
  command <- arg args 1 ;;
  if String.eqb command "start" || String.eqb command "s" then
    if Nat.eqb numberOfArgs 3 then
      title <- arg args 2 ;;
      startTicket title
    else restartLastTicket
  else if String.eqb command "stop" || String.eqb command "x" then
    noParameter numberOfArgs "stop" stopTicket
  else if String.eqb command "log" || String.eqb command "l" then
    noParameter numberOfArgs "log" (showReport mapRange)
  else if String.eqb command "list" || String.eqb command "ll" then
    noParameter numberOfArgs "list" listEntries
  else if String.eqb command "info" || String.eqb command "i" then
    noParameter numberOfArgs "info" showInfo
  else if String.eqb command "clear" then
    noParameter numberOfArgs "clear" (clearEntries input)
  else showErrorHelp.

(* ===================================================================== *)
(** * The ledger as the program reads it *)
(* ===================================================================== *)

(** The world with [content] in the database file. *)
Definition setDb (w : World) (content : string) : World :=
  mkWorld (home w) (Some content) (clock w) (tick w) (stdout w).

(** One pass of the loop of [getRecords], without the world: what a raw
    record decodes to. *)
Definition decodeRow (rawRecord : list string) : Fault + LogRecord :=
  match rawRecord !! 0%nat with
  | None => inl IndexPanic
  | Some field0 =>
      match Parse field0 with
      | None => inl (TimeFault field0)
      | Some ts =>
          match rawRecord !! 1%nat with
          | None => inl IndexPanic
          | Some field1 => inr (mkRecord ts field1)
          end
      end
  end.

Fixpoint decodeRows (rawRecords : list (list string)) (records : list LogRecord)
    : Fault + list LogRecord :=
  match rawRecords with
  | [] => inr records
  | rawRecord :: rest =>
      match decodeRow rawRecord with
      | inl f => inl f
      | inr r => decodeRows rest (records ++ [r])
      end
  end.

(** The events of a database file: every record after the header. *)
Definition readLedger (content : string) : Fault + list LogRecord :=
  match Csv.ReadAll content with
  | inl e => inl (CsvFault e)
  | inr rawRecords => decodeRows (tail rawRecords) []
  end.

Definition lift {A : Type} (r : Fault + A) : M A :=
  fun w => match r with inl f => Fatal f w | inr a => Ok a w end.

(** A text with no double quote and no carriage return in it: between
    the quotes of [literalRecord] the reader gives it back as it is. *)
Fixpoint plain (s : string) : bool :=
  match s with
  | EmptyString => true
  | String c rest => negb (Ascii.eqb c Csv.DQ) && negb (Ascii.eqb c Csv.CR) && plain rest
  end.

Fixpoint endsWithNewline (s : string) : bool :=
  match s with
  | EmptyString => false
  | String c rest =>
      match rest with
      | EmptyString => Ascii.eqb c Csv.LF
      | String _ _ => endsWithNewline rest
      end
  end.

(** The shape of the file that the program itself keeps: a header of two
    fields, and a line end after the last record. *)
Definition wellFormed (content : string) : Prop :=
  endsWithNewline content = true
  /\ exists h0 h1, Csv.Read content = Csv.ReadRecord [h0; h1].

(* ===================================================================== *)
(** * The vocabulary of the specification *)
(* ===================================================================== *)

(** The session state derived from the ledger: working when the last
    event is not the stop token. *)
Definition isWorking (records : list LogRecord) : bool :=
  match last records with
  | Some l => negb (String.eqb (title l) STOP_TOKEN)
  | None => false
  end.

(** [computeSegments] in the words of the specification: one segment for
    every adjacent pair of events, then the open segment of the last
    event unless that event is a stop. *)
Fixpoint pairSegments (events : list LogRecord) : list Ticket :=
  match events with
  | e :: rest =>
      match rest with
      | e' :: _ =>
          mkTicket (title e) (Sub (timestamp e') (timestamp e)) :: pairSegments rest
      | [] => []
      end
  | [] => []
  end.

Definition trailingSegment (events : list LogRecord) (now : Time) : list Ticket :=
  match last events with
  | Some l =>
      if String.eqb (title l) STOP_TOKEN then []
      else [mkTicket (title l) (Sub now (timestamp l))]
  | None => []
  end.

Definition computeSegments (events : list LogRecord) (now : Time) : list Ticket :=
  pairSegments events ++ trailingSegment events now.


(** The sum of the durations of a list of segments, as an integer. *)
Definition exactTotal (tickets : list Ticket) : Z :=
  fold_left (fun total t => total + duration t) tickets 0.

(** The three outcomes of [restartLastTicket] that resume nothing, under
    the names the specification gives them. *)
Inductive ResumeError : Type :=
  | NoHistoryError
  | NoPreviousTicketError
  | AlreadyWorkingError (currentTicketTitle : string).

Definition fails (e : ResumeError) : M unit :=
  match e with
  | NoHistoryError => yellForNoRecord
  | NoPreviousTicketError => yellForNoPreviousTicket
  | AlreadyWorkingError currentTicketTitle => yellForNotStopped currentTicketTitle
  end.

(** An instant cut down to a whole number of seconds. *)
Definition truncateToSecond (t : Time) : Time := t / Second * Second.

(** The first day of year 0 and the first day of year 10000, in days
    since January 1 of year 1. *)
Definition firstDay : Z := -366.
Definition endDay : Z := 3652059.

(** The instants [Format] prints with a year of four digits: January 1
    of year 0 up to the end of year 9999. *)
Definition firstInstant : Time := firstDay * 86400 * Second.
Definition endInstant : Time := endDay * 86400 * Second.

(* ===================================================================== *)
(** * Checks that are run once over a finite range *)
(* ===================================================================== *)

(** [P] on every integer of [lo, lo + 2^depth). *)
Fixpoint allRange (depth : nat) (lo : Z) (P : Z -> bool) : bool :=
  match depth with
  | O => P lo
  | S d => allRange d lo P && allRange d (lo + 2 ^ Z.of_nat d) P
  end.

Definition yearOfEra (yoe m : Z) : Z := if m <=? 2 then yoe + 1 else yoe.

(** What holds of every day of an era: its civil date is a real date, it
    is the date of that day only, and the year changes on January 1. *)
Definition eraDayOk (doe : Z) : bool :=
  let '(yoe, m, d) := civilOfEraDay doe in
  inRange 0 yoe 399 && inRange 1 m 12
  && inRange 1 d (daysIn m (yearOfEra yoe m))
  && (eraDayOfCivil yoe m d =? doe)
  && (if doe <? 146037 then yearOfEra yoe m <=? 399
      else (yoe =? 399) && (m <=? 2)).

(** [appendInt x 2] is two digits that read as [x]. *)
Definition twoDigitsOk (x : Z) : bool :=
  match appendInt x 2 with
  | String c1 (String c0 EmptyString) =>
      isDigit c1 && isDigit c0 && (digitVal c1 * 10 + digitVal c0 =? x)
  | _ => false
  end.

(** [appendInt x 4] is four digits that read as [x]. *)
Definition fourDigitsOk (x : Z) : bool :=
  match appendInt x 4 with
  | String c3 (String c2 (String c1 (String c0 EmptyString))) =>
      isDigit c3 && isDigit c2 && isDigit c1 && isDigit c0
      && (((digitVal c3 * 10 + digitVal c2) * 10 + digitVal c1) * 10
          + digitVal c0 =? x)
  | _ => false
  end.

(* ===================================================================== *)
(** * Sample ledgers *)
(* ===================================================================== *)

Definition noon : Time := Date 2024 3 5 12 0 0 0.

Definition eventA : LogRecord := mkRecord (Date 2024 3 5 9 15 0 0) "A".
Definition eventStop : LogRecord := mkRecord (Date 2024 3 5 10 15 0 0) STOP_TOKEN.

(** Ticket A from 9:15, a stop at 10:15 and ticket B from then on. *)
Definition sampleRecords : list LogRecord :=
  [ eventA; eventStop; mkRecord (Date 2024 3 5 10 15 0 0) "B" ].

(** No database yet. *)
Definition freshWorld : World :=
  mkWorld "/home/mate" None (fun _ => noon) 0 [].

(** The database after [mate start A] at 9:15. *)
Definition workingLedger : string :=
  CSV_HEADER +:+ literalRecord "2024/03/05 09:15:00" "A".

Definition workingWorld : World :=
  mkWorld "/home/mate" (Some workingLedger) (fun _ => noon) 0 [].

(** The same database after [mate stop] at 10:15. *)
Definition stoppedLedger : string :=
  workingLedger +:+ literalRecord "2024/03/05 10:15:00" STOP_TOKEN.

Definition stoppedWorld : World :=
  mkWorld "/home/mate" (Some stoppedLedger) (fun _ => noon) 0 [].

(** A title with a comma and a line end in it. *)
Definition commaTitle : string := "fix a, b" +:+ nl +:+ "and c".

(** A title with a double quote in it. *)
Definition quotedTitle : string := "a" +:+ quote +:+ "b".

(** A ledger whose only event is dated January 1 of year 1, and one whose
    only event carries a fraction of a second. *)
Definition ancientWorld : World :=
  mkWorld "/home/mate"
          (Some (CSV_HEADER +:+ literalRecord "0001/01/01 00:00:00" "A"))
          (fun _ => noon) 0 [].

Definition fractionWorld : World :=
  mkWorld "/home/mate"
          (Some (CSV_HEADER +:+ literalRecord "2024/03/05 11:59:58.5" "A"))
          (fun _ => noon) 0 [].

(* ===================================================================== *)
(** * More vocabulary *)
(* ===================================================================== *)

(** ** What a run keeps *)

(** [m] takes every world to a world that is related to it by [R],
    however it ends. *)
Definition keeps {A : Type} (R : World -> World -> Prop) (m : M A) : Prop :=
  forall w, R w (worldOf (m w)).

(** The database file has only been added to: it is the same, or it is
    what it was (nothing, for a file that did not exist) followed by
    [suffix]. *)
Definition grown (w w' : World) : Prop :=
  db w' = db w \/ exists suffix, db w' = Some (default "" (db w) +:+ suffix).

(** The database file does not exist, or it starts with the header. *)
Definition headed (w : World) : Prop :=
  db w = None \/ exists rest, db w = Some (CSV_HEADER +:+ rest).

(** The database file and [HOME] are the same: what printing and reading
    the clock keep. *)
Definition sameDb (w w' : World) : Prop := db w' = db w /\ home w' = home w.

(** ** What is typed on the standard input *)

(** A text without a line end in it. *)
Fixpoint noLF (s : string) : bool :=
  match s with
  | EmptyString => true
  | String c rest => negb (Ascii.eqb c Csv.LF) && noLF rest
  end.

(** The input made of the given lines, each one ended by a line end. *)
Fixpoint typed (lines : list string) : string :=
  match lines with
  | [] => ""
  | l :: rest => l +:+ nl +:+ typed rest
  end.

(** A line that [clearEntries] does not take for an answer. *)
Definition notAnAnswer (l : string) : Prop :=
  noLF l = true /\ contains validEntries (l +:+ nl) = false.

(** ** The command line *)

(** The commands that take no parameter, with their short names. *)
Definition plainCommands : list string :=
  ["stop"; "x"; "log"; "l"; "list"; "ll"; "info"; "i"; "clear"].

(** Every name [main] knows. *)
Definition knownCommands : list string := "start" :: "s" :: plainCommands.

(** The world after [lines] have been printed. *)
Definition printed (w : World) (lines : list string) : World :=
  mkWorld (home w) (db w) (clock w) (tick w) (stdout w ++ lines).

(** The lines of [showErrorHelp]. *)
Definition helpLines : list string :=
  [ "Please provide a command among:" +:+ nl;
    "  * start (s)" +:+ nl;
    "  * stop (x)" +:+ nl;
    "  * log (l)" +:+ nl;
    "  * list (ll)" +:+ nl;
    "  * info (i)" +:+ nl;
    "  * clear" +:+ nl ].

(** ** How a run ends *)

(** [m] never ends in one of the ways [bad]: a fault, or [os.Exit] with
    a code. *)
Definition never {A : Type} (bad : Fault + Z -> Prop) (m : M A) : Prop :=
  forall w,
    match m w with
    | Ok _ _ => True
    | Exit code _ => ~ bad (inr code)
    | Fatal f _ => ~ bad (inl f)
    end.


(** Ending with a panic for an index out of range. *)
Definition indexPanic (x : Fault + Z) : Prop := x = inl IndexPanic.

(** Every record has as many fields as the first one. *)
Definition uniform (recs : list (list string)) : Prop :=
  match recs with
  | [] => True
  | first :: rest => Forall (fun r => length r = length first) rest
  end.

(** A database whose header has a single column, and one row. *)
Definition oneColumnWorld : World :=
  mkWorld "/home/mate"
          (Some ("timestamp" +:+ nl +:+ "2024/03/05 09:15:00" +:+ nl))
          (fun _ => noon) 0 [].

(** The database after [mate start] with the title [quotedTitle]. *)
Definition brokenWorld : World :=
  mkWorld "/home/mate"
          (Some (CSV_HEADER +:+ literalRecord "2024/03/05 09:15:00" quotedTitle))
          (fun _ => noon) 0 [].



(** A title typed with two double quotes in a row: the reader gives it
    back as [quotedTitle]. *)
Definition doubledTitle : string := "a" +:+ quote +:+ quote +:+ "b".

(* ===================================================================== *)
(** * Tactics *)
(* ===================================================================== *)

(** The comparisons of the characters the reader looks for. *)
Ltac csv_chars :=
  change (Ascii.eqb Csv.DQ Csv.LF) with false;
  change (Ascii.eqb Csv.DQ Csv.CR) with false;
  change (Ascii.eqb Csv.DQ Csv.DQ) with true;
  change (Ascii.eqb Csv.CR Csv.LF) with false;
  change (Ascii.eqb Csv.CR Csv.DQ) with false;
  change (Ascii.eqb Csv.CR Csv.Comma) with false;
  change (Ascii.eqb "," Csv.CR) with false;
  change (Ascii.eqb "," Csv.DQ) with false;
  change (Ascii.eqb "," Csv.Comma) with true;
  cbv iota.

(** One or two characters of input, fed to the reader. *)
Ltac csv_feed := cbn [Csv.step Csv.feed]; csv_chars; cbn [Csv.feed]; csv_chars.


(* ===================================================================== *)
(** * The models at work *)
(* ===================================================================== *)

Example Format_example :
  Format (Date 2024 3 5 9 15 0 123456789) = "2024/03/05 09:15:00".
Proof. vm_compute. reflexivity. Qed.

Example Parse_example :
  Parse "2024/03/05 09:15:00" = Some (Date 2024 3 5 9 15 0 0).
Proof. vm_compute. reflexivity. Qed.

Example Parse_leap_day :
  Parse "2023/02/29 09:15:00" = None /\ Parse "2024/02/29 9:15:00.5" = Some (Date 2024 2 29 9 15 0 500000000).
Proof. vm_compute. split; reflexivity. Qed.

Example ReadAll_example :
  Csv.ReadAll ("timestamp,title" +:+ nl +:+ quote +:+ "2024/03/05 09:15:00"
               +:+ quote +:+ "," +:+ quote +:+ "a, b" +:+ quote +:+ nl)
  = inr [["timestamp"; "title"]; ["2024/03/05 09:15:00"; "a, b"]].
Proof. vm_compute. reflexivity. Qed.

Example Read_empty : Csv.Read "" = Csv.ReadEOF.
Proof. reflexivity. Qed.


(* ===================================================================== *)
(** * Durations *)
(* ===================================================================== *)

Lemma wrap64_range z : minDuration <= wrap64 z <= maxDuration.
Proof. unfold wrap64, minDuration, maxDuration. pose proof (Z.mod_pos_bound (z + 2^63) (2^64) ltac:(lia)). lia. Qed.

Lemma wrap64_id z : minDuration <= z <= maxDuration -> wrap64 z = z.
Proof.
  unfold wrap64, minDuration, maxDuration. intros H.
  rewrite Z.mod_small by lia. lia.
Qed.

Lemma wrap64_add_l a b : wrap64 (wrap64 a + b) = wrap64 (a + b).
Proof.
  unfold wrap64. f_equal.
  replace ((a + 2 ^ 63) mod 2 ^ 64 - 2 ^ 63 + b + 2 ^ 63) with ((a + 2 ^ 63) mod 2 ^ 64 + b) by lia.
  rewrite Zplus_mod_idemp_l. f_equal. lia.
Qed.



Lemma Sub_exact t u :
  minDuration <= t - u <= maxDuration -> Sub t u = t - u.
Proof.
  unfold Sub. intros H.
  destruct (Z.ltb_spec (t - u) minDuration); [lia|].
  destruct (Z.ltb_spec maxDuration (t - u)); lia.
Qed.

Lemma Sub_nonneg t u : u <= t -> 0 <= Sub t u.
Proof.
  unfold Sub, minDuration, maxDuration. intros H.
  destruct (Z.ltb_spec (t - u) (- 2 ^ 63)); [lia|].
  destruct (Z.ltb_spec (2 ^ 63 - 1) (t - u)); lia.
Qed.


(* ===================================================================== *)
(** * Timestamps: [Format], then [Parse] *)
(* ===================================================================== *)

(** ** The calendar *)

Lemma allRange_spec depth : forall lo P,
  allRange depth lo P = true ->
  forall x, lo <= x < lo + 2 ^ Z.of_nat depth -> P x = true.
Proof.
  induction depth as [|d IH]; intros lo P H x Hx.
  - cbn in *. replace x with lo by lia. done.
  - cbn [allRange] in H. apply andb_true_iff in H as [H1 H2].
    rewrite Nat2Z.inj_succ, Z.pow_succ_r in Hx by lia.
    destruct (Z.lt_ge_cases x (lo + 2 ^ Z.of_nat d)).
    + apply (IH lo P H1). lia.
    + apply (IH _ P H2). lia.
Qed.

Lemma eraDayOk_all doe : 0 <= doe < daysPerEra -> eraDayOk doe = true.
Proof.
  intros H.
  assert (Hall : allRange 18 0 (fun x => if x <? daysPerEra then eraDayOk x else true) = true)
    by (vm_compute; reflexivity).
  pose proof (allRange_spec 18 0 _ Hall doe) as Hd. cbv beta in Hd.
  destruct (Z.ltb_spec doe daysPerEra); [|lia].
  apply Hd. unfold daysPerEra in *. cbn. lia.
Qed.

Lemma isLeap_period y k : isLeap (y + k * 400) = isLeap y.
Proof.
  unfold isLeap.
  replace ((y + k * 400) mod 4) with (y mod 4)
    by (replace (k * 400) with (k * 100 * 4) by lia; by rewrite Z_mod_plus_full).
  replace ((y + k * 400) mod 100) with (y mod 100)
    by (replace (k * 400) with (k * 4 * 100) by lia; by rewrite Z_mod_plus_full).
  by rewrite Z_mod_plus_full.
Qed.

Lemma daysIn_period m y k : daysIn m (y + k * 400) = daysIn m y.
Proof. unfold daysIn. by rewrite isLeap_period. Qed.

Lemma civilFromDays_spec days :
  firstDay <= days < endDay ->
  exists y m d,
    civilFromDays days = (y, m, d)
    /\ 0 <= y <= 9999 /\ 1 <= m <= 12 /\ 1 <= d <= daysIn m y
    /\ daysFromCivil y m d = days.
Proof.
  unfold firstDay, endDay. intros Hdays. unfold civilFromDays.
  set (z := days + marchShift).
  pose proof (Z.div_mod z daysPerEra ltac:(done)) as Hz.
  pose proof (Z.mod_pos_bound z daysPerEra ltac:(done)) as Hdoe.
  set (era := z / daysPerEra) in *. set (doe := z mod daysPerEra) in *.
  pose proof (eraDayOk_all doe Hdoe) as Hok. unfold eraDayOk in Hok.
  destruct (civilOfEraDay doe) as [[yoe m] d].
  repeat (apply andb_true_iff in Hok as [Hok ?]).
  unfold inRange in *.
  repeat match goal with
         | H : _ && _ = true |- _ => apply andb_true_iff in H as [? ?]
         end.
  assert (Hera : -1 <= era <= 24).
  { unfold marchShift, daysPerEra in *. subst z. lia. }
  assert (Hyear : yearOfEra yoe m + era * 400
                  = (if m <=? 2 then yoe + era * 400 + 1 else yoe + era * 400)).
  { unfold yearOfEra. destruct (m <=? 2); lia. }
  eexists _, m, d. split; [reflexivity|].
  rewrite <- Hyear.
  assert (Hy : 0 <= yearOfEra yoe m + era * 400 <= 9999).
  { unfold yearOfEra in *. unfold marchShift, daysPerEra in *. subst z.
    destruct (Z.ltb_spec doe 146037).
    - assert (0 <= era) by lia. assert (era <= 24) by lia.
      destruct (m <=? 2); lia.
    - apply andb_true_iff in H as [? ?].
      assert (era <= 23) by lia.
      destruct (m <=? 2); lia. }
  split; [done|]. split; [lia|]. split; [rewrite daysIn_period; lia|].
  unfold daysFromCivil.
  assert (Hyoe : (if m <=? 2 then yearOfEra yoe m + era * 400 - 1
                  else yearOfEra yoe m + era * 400) = yoe + era * 400).
  { unfold yearOfEra. destruct (m <=? 2); lia. }
  rewrite Hyoe.
  replace ((yoe + era * 400) / 400) with era
    by (rewrite Z.div_add by lia; rewrite Z.div_small; lia).
  replace ((yoe + era * 400) mod 400) with yoe
    by (rewrite Z_mod_plus_full, Z.mod_small; lia).
  subst z. lia.
Qed.

(** ** Digits *)

Lemma twoDigitsOk_all x : 0 <= x <= 99 -> twoDigitsOk x = true.
Proof.
  intros H.
  assert (Hall : allRange 7 0 (fun x => if x <=? 99 then twoDigitsOk x else true) = true)
    by (vm_compute; reflexivity).
  pose proof (allRange_spec 7 0 _ Hall x) as Hd. cbv beta in Hd.
  destruct (Z.leb_spec x 99); [|lia]. apply Hd. cbn. lia.
Qed.

Lemma fourDigitsOk_all x : 0 <= x <= 9999 -> fourDigitsOk x = true.
Proof.
  intros H.
  assert (Hall : allRange 14 0 (fun x => if x <=? 9999 then fourDigitsOk x else true) = true)
    by (vm_compute; reflexivity).
  pose proof (allRange_spec 14 0 _ Hall x) as Hd. cbv beta in Hd.
  destruct (Z.leb_spec x 9999); [|lia]. apply Hd. cbn. lia.
Qed.

Lemma appendInt_two x :
  0 <= x <= 99 ->
  exists c1 c0,
    appendInt x 2 = String c1 (String c0 "")
    /\ isDigit c1 = true /\ isDigit c0 = true
    /\ digitVal c1 * 10 + digitVal c0 = x.
Proof.
  intros H. pose proof (twoDigitsOk_all x H) as Hok. unfold twoDigitsOk in Hok.
  destruct (appendInt x 2) as [|c1 [|c0 [|? ?]]]; try done.
  apply andb_true_iff in Hok as [Hok Hv]. apply andb_true_iff in Hok as [H1 H0].
  exists c1, c0. repeat split; try done. lia.
Qed.

Lemma appendInt_four x :
  0 <= x <= 9999 ->
  exists c3 c2 c1 c0,
    appendInt x 4 = String c3 (String c2 (String c1 (String c0 "")))
    /\ isDigit c3 = true /\ isDigit c2 = true
    /\ isDigit c1 = true /\ isDigit c0 = true
    /\ ((digitVal c3 * 10 + digitVal c2) * 10 + digitVal c1) * 10 + digitVal c0 = x.
Proof.
  intros H. pose proof (fourDigitsOk_all x H) as Hok. unfold fourDigitsOk in Hok.
  destruct (appendInt x 4) as [|c3 [|c2 [|c1 [|c0 [|? ?]]]]]; try done.
  apply andb_true_iff in Hok as [Hok Hv]. apply andb_true_iff in Hok as [Hok H0].
  apply andb_true_iff in Hok as [Hok H1]. apply andb_true_iff in Hok as [H3 H2].
  exists c3, c2, c1, c0. repeat split; try done. lia.
Qed.

Lemma cutspace_digit c s : isDigit c = true -> cutspace (String c s) = String c s.
Proof.
  intros H. destruct c as [b0 b1 b2 b3 b4 b5 b6 b7].
  destruct b0, b1, b2, b3, b4, b5, b6, b7; try reflexivity; discriminate H.
Qed.

Lemma getnum_two c1 c0 s fixed :
  isDigit c1 = true -> isDigit c0 = true ->
  getnum (String c1 (String c0 s)) fixed = Some (digitVal c1 * 10 + digitVal c0, s).
Proof. intros H1 H0. unfold getnum. by rewrite H1, H0. Qed.

(** A text of the layout, digit by digit. *)
Lemma Parse_digits y3 y2 y1 y0 m1 m0 d1 d0 h1 h0 i1 i0 s1 s0
    year month day hour min sec :
  isDigit y3 = true -> isDigit y2 = true -> isDigit y1 = true -> isDigit y0 = true ->
  isDigit m1 = true -> isDigit m0 = true -> isDigit d1 = true -> isDigit d0 = true ->
  isDigit h1 = true -> isDigit h0 = true -> isDigit i1 = true -> isDigit i0 = true ->
  isDigit s1 = true -> isDigit s0 = true ->
  ((digitVal y3 * 10 + digitVal y2) * 10 + digitVal y1) * 10 + digitVal y0 = year ->
  digitVal m1 * 10 + digitVal m0 = month ->
  digitVal d1 * 10 + digitVal d0 = day ->
  digitVal h1 * 10 + digitVal h0 = hour ->
  digitVal i1 * 10 + digitVal i0 = min ->
  digitVal s1 * 10 + digitVal s0 = sec ->
  1 <= month <= 12 -> 1 <= day <= daysIn month year ->
  0 <= hour <= 23 -> 0 <= min <= 59 -> 0 <= sec <= 59 ->
  Parse (String y3 (String y2 (String y1 (String y0 (String "/"
        (String m1 (String m0 (String "/" (String d1 (String d0 (String " "
        (String h1 (String h0 (String ":" (String i1 (String i0 (String ":"
        (String s1 (String s0 "")))))))))))))))))))
  = Some (Date year month day hour min sec 0).
Proof.
  intros Hy3 Hy2 Hy1 Hy0 Hm1 Hm0 Hd1 Hd0 Hh1 Hh0 Hi1 Hi0 Hs1 Hs0
         Eyear Emonth Eday Ehour Emin Esec Rmonth Rday Rhour Rmin Rsec.
  unfold Parse, getYear. rewrite Hy3, Hy2, Hy1, Hy0, Eyear. cbn [andb mbind option_bind].
  cbn [skipChar Ascii.eqb Bool.eqb]. cbn [mbind option_bind].
  rewrite (getnum_two m1 m0) by done. rewrite Emonth. cbn [mbind option_bind].
  assert (Hr : forall lo x hi, lo <= x <= hi -> negb (inRange lo x hi) = false).
  { intros lo x hi ?. unfold inRange.
    destruct (Z.leb_spec lo x), (Z.leb_spec x hi); (done || lia). }
  rewrite (Hr 1 month 12) by done.
  cbn [skipChar Ascii.eqb Bool.eqb]. cbn [mbind option_bind].
  rewrite (getnum_two d1 d0) by done. rewrite Eday. cbn [mbind option_bind].
  unfold skipSpace. cbn [Ascii.eqb Bool.eqb].
  change (cutspace (String " " ?s)) with (cutspace s).
  rewrite (cutspace_digit h1) by done. cbn [mbind option_bind].
  rewrite (getnum_two h1 h0) by done. rewrite Ehour. cbn [mbind option_bind].
  rewrite (Hr 0 hour 23) by done.
  cbn [skipChar Ascii.eqb Bool.eqb]. cbn [mbind option_bind].
  rewrite (getnum_two i1 i0) by done. rewrite Emin. cbn [mbind option_bind].
  rewrite (Hr 0 min 59) by done.
  cbn [skipChar Ascii.eqb Bool.eqb]. cbn [mbind option_bind].
  rewrite (getnum_two s1 s0) by done. rewrite Esec. cbn [mbind option_bind].
  rewrite (Hr 0 sec 59) by done.
  cbn [getFraction]. by rewrite (Hr 1 day (daysIn month year)).
Qed.

(** ** The round trip *)

Lemma Parse_Format t :
  firstInstant <= t < endInstant ->
  Parse (Format t) = Some (truncateToSecond t).
Proof.
  unfold firstInstant, endInstant, truncateToSecond. intros Ht.
  unfold Format.
  set (secs := t / Second).
  assert (Hsecs : firstDay * 86400 <= secs < endDay * 86400).
  { subst secs. unfold Second in *. split.
    - apply Z.div_le_lower_bound; lia.
    - apply Z.div_lt_upper_bound; lia. }
  set (days := secs / 86400). set (sod := secs mod 86400).
  assert (Hdays : firstDay <= days < endDay).
  { subst days. split.
    - apply Z.div_le_lower_bound; lia.
    - apply Z.div_lt_upper_bound; lia. }
  assert (Hsod : 0 <= sod < 86400) by (subst sod; apply Z.mod_pos_bound; lia).
  assert (Esecs : secs = 86400 * days + sod) by (subst days sod; apply Z.div_mod; lia).
  destruct (civilFromDays_spec days Hdays) as (y & m & d & -> & Hy & Hm & Hd & Hback).
  assert (Hm99 : 0 <= m <= 99) by lia.
  assert (Hd99 : 0 <= d <= 99).
  { assert (daysIn m y <= 31); [|lia].
    unfold daysIn. repeat match goal with |- context [if ?b then _ else _] => destruct b end; lia. }
  set (hour := sod / 3600). set (min := sod mod 3600 / 60). set (sec := sod mod 60).
  assert (Hhour : 0 <= hour <= 23).
  { subst hour. split; [apply Z.div_pos; lia|].
    assert (sod / 3600 < 24) by (apply Z.div_lt_upper_bound; lia). lia. }
  assert (Hmin : 0 <= min <= 59).
  { subst min. pose proof (Z.mod_pos_bound sod 3600 ltac:(lia)). split; [apply Z.div_pos; lia|].
    assert (sod mod 3600 / 60 < 60) by (apply Z.div_lt_upper_bound; lia). lia. }
  assert (Hsec : 0 <= sec <= 59).
  { subst sec. pose proof (Z.mod_pos_bound sod 60 ltac:(lia)). lia. }
  destruct (appendInt_four y Hy) as (y3 & y2 & y1 & y0 & -> & ? & ? & ? & ? & ?).
  destruct (appendInt_two m Hm99) as (m1 & m0 & -> & ? & ? & ?).
  destruct (appendInt_two d Hd99) as (d1 & d0 & -> & ? & ? & ?).
  destruct (appendInt_two hour ltac:(lia)) as (h1 & h0 & -> & ? & ? & ?).
  destruct (appendInt_two min ltac:(lia)) as (i1 & i0 & -> & ? & ? & ?).
  destruct (appendInt_two sec ltac:(lia)) as (s1 & s0 & -> & ? & ? & ?).
  cbv [String.append].
  rewrite (Parse_digits y3 y2 y1 y0 m1 m0 d1 d0 h1 h0 i1 i0 s1 s0 y m d hour min sec)
    by (done || lia).
  f_equal. unfold Date. rewrite Hback, Z.add_0_r. f_equal.
  rewrite Esecs. subst hour min sec.
  clear. Z.div_mod_to_equations. lia.
Qed.

Lemma reparse_truncates t :
  firstInstant <= t < endInstant -> reparse t = truncateToSecond t.
Proof. intros H. unfold reparse. by rewrite Parse_Format. Qed.

Lemma truncateToSecond_bounds t :
  truncateToSecond t mod Second = 0
  /\ truncateToSecond t <= t < truncateToSecond t + Second.
Proof.
  unfold truncateToSecond, Second. split.
  - apply Z_mod_mult.
  - pose proof (Z.div_mod t 1000000000 ltac:(lia)).
    pose proof (Z.mod_pos_bound t 1000000000 ltac:(lia)). lia.
Qed.


(* ===================================================================== *)
(** * The CSV reader *)
(* ===================================================================== *)

Module CsvFacts.
Import Csv.

Lemma run_app s a b : run s (a +:+ b) = run (run s a) b.
Proof. revert s. induction a as [|c a IH]; intros s; [done|]. cbn. apply IH. Qed.


(** The records that have been read stay: the reader only adds to them. *)
Lemma emit_prefix recs fs : exists more, recsOf (emit recs fs) = recs ++ more.
Proof.
  unfold emit. destruct recs as [|first rest].
  - by exists [fs].
  - destruct (Nat.eqb _ _); cbn; [by exists [fs] | exists []; by rewrite app_nil_r].
Qed.

Lemma feed_prefix p c : exists more, recsOf (feed p c) = recsOf p ++ more.
Proof.
  destruct p as [recs m|recs e]; [|exists []; by rewrite app_nil_r].
  cbn [recsOf].
  assert (Hnil : exists more : list (list string), recs = recs ++ more)
    by (exists []; by rewrite app_nil_r).
  destruct m; cbn [feed];
    repeat (match goal with
            | |- context [if ?b then _ else _] => destruct b
            end); cbn [recsOf]; try apply Hnil; apply emit_prefix.
Qed.

Lemma step_prefix s c : exists more, recsOf (fst (step s c)) = recsOf (fst s) ++ more.
Proof.
  destruct s as [p h]. unfold step. cbn [fst].
  destruct h, (Ascii.eqb c LF), (Ascii.eqb c CR); cbn [fst];
    try apply feed_prefix; try (exists []; by rewrite app_nil_r).
  all: destruct (feed_prefix p CR) as [m1 H1];
       destruct (feed_prefix (feed p CR) c) as [m2 H2];
       exists (m1 ++ m2); by rewrite H2, H1, app_assoc.
Qed.

Lemma run_prefix input : forall s,
  exists more, recsOf (fst (run s input)) = recsOf (fst s) ++ more.
Proof.
  induction input as [|c rest IH]; intros s.
  - exists []. by rewrite app_nil_r.
  - cbn [run]. destruct (IH (step s c)) as [m2 H2].
    destruct (step_prefix s c) as [m1 H1].
    exists (m1 ++ m2). by rewrite H2, H1, app_assoc.
Qed.

Lemma finish_prefix s : exists more, recsOf (finish s) = recsOf (fst s) ++ more.
Proof.
  unfold finish. destruct (fst s) as [recs m|recs e]; cbn [recsOf].
  - destruct m; try apply emit_prefix; exists []; by rewrite app_nil_r.
  - exists []; by rewrite app_nil_r.
Qed.

Lemma Read_recsOf input :
  Read input = match recsOf (parse input) with
               | first :: _ => ReadRecord first
               | [] => match parse input with
                       | Failed _ e => ReadError e
                       | Parsing _ _ => ReadEOF
                       end
               end.
Proof. unfold Read. by destruct (parse input) as [[|? ?] ?|[|? ?] ?]. Qed.

(** A first record that has been read is the answer of [Read], whatever
    follows it in the file. *)
Lemma Read_stable a b first more :
  recsOf (fst (run start a)) = first :: more ->
  Read (a +:+ b) = ReadRecord first.
Proof.
  intros Ha. rewrite Read_recsOf. unfold parse. rewrite run_app.
  destruct (run_prefix b (run start a)) as [m1 H1].
  destruct (finish_prefix (run (run start a) b)) as [m2 H2].
  by rewrite H2, H1, Ha.
Qed.

Lemma Read_of_parse c rows m :
  Csv.parse c = Csv.Parsing rows m ->
  Csv.Read c = match rows with first :: _ => Csv.ReadRecord first | [] => Csv.ReadEOF end.
Proof. unfold Csv.Read. intros ->. by destruct rows. Qed.

End CsvFacts.

Module CsvLine.
Import Csv CsvFacts.

Lemma append_cons a (s t : string) : String a s +:+ t = String a (s +:+ t).
Proof. reflexivity. Qed.

Lemma append_snoc cur c s : snoc cur c +:+ s = cur +:+ String c s.
Proof.
  unfold snoc. induction cur as [|a cur IH]; [done|].
  rewrite !append_cons. by rewrite IH.
Qed.

Lemma append_empty_r (s : string) : s +:+ "" = s.
Proof. induction s as [|a s IH]; [done|]. rewrite append_cons. by rewrite IH. Qed.

Lemma run_quoted_plain s : forall recs fs cur,
  plain s = true ->
  run (Parsing recs (Quoted fs cur), false) s
  = (Parsing recs (Quoted fs (cur +:+ s)), false).
Proof.
  induction s as [|c s IH]; intros recs fs cur Hs.
  - by rewrite append_empty_r.
  - cbn [plain] in Hs. apply andb_true_iff in Hs as [Hc Hs].
    apply andb_true_iff in Hc as [Hdq Hcr].
    apply negb_true_iff in Hdq, Hcr.
    cbn [run step feed]. rewrite Hcr, Hdq. rewrite IH by done.
    by rewrite append_snoc.
Qed.

(** A quoted field without quote and carriage return in it, up to its
    closing quote. *)
Lemma run_quoted_field s rest recs fs cur :
  plain s = true ->
  run (Parsing recs (Quoted fs cur), false) (s +:+ quote +:+ rest)
  = run (Parsing recs (QuoteSeen fs (cur +:+ s)), false) rest.
Proof.
  intros Hs. rewrite run_app, run_quoted_plain by done. done.
Qed.

Lemma run_line_fields s t recs fs cur :
  plain s = true -> plain t = true ->
  run (Parsing recs (Quoted fs cur), false)
      (s +:+ quote +:+ "," +:+ quote +:+ t +:+ quote +:+ nl)
  = (emit recs ((fs ++ [cur +:+ s]) ++ [t]), false).
Proof.
  intros Hs Ht. rewrite run_quoted_field by done.
  change (run ?s ("," +:+ ?r)) with (run (step s ",") r). csv_feed.
  change (run ?s (quote +:+ ?r)) with (run (step s DQ) r). csv_feed.
  rewrite run_quoted_field by done.
  change (run ?s nl) with (step s LF). reflexivity.
Qed.

Lemma literalRecord_cons now title :
  literalRecord now title
  = String DQ (now +:+ quote +:+ "," +:+ quote +:+ title +:+ quote +:+ nl).
Proof. reflexivity. Qed.

(** The line of [writeTicket], read from the start of a record. *)
Lemma run_literalRecord now title recs :
  plain now = true -> plain title = true ->
  run (Parsing recs RecordStart, false) (literalRecord now title)
  = (emit recs [now; title], false).
Proof.
  intros Hn Ht.
  change (literalRecord now title)
    with (String DQ (now +:+ quote +:+ "," +:+ quote +:+ title +:+ quote +:+ nl)).
  cbn [run]. csv_feed. by rewrite run_line_fields.
Qed.

End CsvLine.

Module CsvEnd.
Import Csv CsvFacts CsvLine.

(** How a reader that succeeds stands at the end of its input. *)
Lemma emit_Parsing recs fs rows m :
  emit recs fs = Parsing rows m ->
  m = RecordStart /\ rows = recs ++ [fs]
  /\ (forall first rest, recs = first :: rest -> length fs = length first).
Proof.
  unfold emit. destruct recs as [|first rest].
  - intros [= <- <-]. done.
  - destruct (Nat.eqb_spec (length fs) (length first)); [|done].
    intros [= <- <-]. split; [done|]. split; [done|]. by intros ? ? [= <- <-].
Qed.

Lemma finish_emit recs fs h : finish (emit recs fs, h) = emit recs fs.
Proof.
  unfold emit. destruct recs as [|first rest]; [done|].
  by destruct (Nat.eqb _ _).
Qed.



Lemma Read_EOF_run c :
  Read c = ReadEOF -> exists h, run start c = (Parsing [] RecordStart, h).
Proof.
  unfold Read, parse, finish. destruct (run start c) as [p h]. cbn [fst].
  destruct p as [recs m|recs e].
  - destruct m; cbn.
    + destruct recs; [|done]. intros _. by exists h.
    + destruct (emit recs (fs ++ [""])) as [[|? ?] ?|[|? ?] ?] eqn:E; try done.
      apply emit_Parsing in E as (_ & E & _). by destruct recs.
    + destruct (emit recs (fs ++ [cur])) as [[|? ?] ?|[|? ?] ?] eqn:E; try done.
      apply emit_Parsing in E as (_ & E & _). by destruct recs.
    + by destruct recs.
    + destruct (emit recs (fs ++ [cur])) as [[|? ?] ?|[|? ?] ?] eqn:E; try done.
      apply emit_Parsing in E as (_ & E & _). by destruct recs.
  - by destruct recs.
Qed.

(** An empty database gets its header, and the header is then the (only)
    record of the file. *)
Lemma parse_header_after_EOF c :
  Read c = ReadEOF ->
  exists first, parse (c +:+ CSV_HEADER) = Parsing [first] RecordStart.
Proof.
  intros H. apply Read_EOF_run in H as [h H].
  unfold parse. rewrite run_app, H.
  destruct h; eexists; vm_compute; reflexivity.
Qed.


End CsvEnd.

Module CsvAppend.
Import Csv CsvFacts CsvLine CsvEnd.


Lemma endsWithNewline_split s :
  endsWithNewline s = true -> exists s', s = s' +:+ nl.
Proof.
  induction s as [|c rest IH]; [done|]. cbn [endsWithNewline].
  destruct rest as [|c' rest'].
  - intros H. apply Ascii.eqb_eq in H as ->. by exists "".
  - intros H. destruct (IH H) as [s' ->]. by exists (String c s').
Qed.

Lemma endsWithNewline_app a b :
  endsWithNewline b = true -> endsWithNewline (a +:+ b) = true.
Proof.
  intros Hb. induction a as [|c a IH]; [done|].
  rewrite CsvLine.append_cons. cbn [endsWithNewline].
  destruct (a +:+ b) eqn:E; [|done].
  destruct a; [|done]. change ("" +:+ b) with b in E. by rewrite E in Hb.
Qed.

Lemma literalRecord_endsWithNewline now title :
  endsWithNewline (literalRecord now title) = true.
Proof.
  unfold literalRecord. repeat apply endsWithNewline_app. reflexivity.
Qed.

Lemma run_to_line_end c rows m :
  endsWithNewline c = true -> Csv.parse c = Csv.Parsing rows m ->
  Csv.run Csv.start c = (Csv.Parsing rows Csv.RecordStart, false).
Proof.
  intros Hnl Hp. apply endsWithNewline_split in Hnl as [c' ->].
  unfold Csv.parse in Hp. rewrite CsvFacts.run_app in *.
  destruct (Csv.run Csv.start c') as [p h].
  change (Csv.run (p, h) nl) with (Csv.step (p, h) Csv.LF) in *.
  assert (Hstep : Csv.step (p, h) Csv.LF = (Csv.feed p Csv.LF, false)).
  { unfold Csv.step. destruct h; reflexivity. }
  rewrite Hstep in *. unfold Csv.finish in Hp. cbn [fst] in Hp.
  destruct p as [recs m0|recs e]; [|done].
  destruct m0 as [|fs|fs cur|fs cur|fs cur]; cbn [Csv.feed] in *;
    change (Ascii.eqb Csv.LF Csv.LF) with true in *;
    change (Ascii.eqb Csv.LF Csv.DQ) with false in *;
    change (Ascii.eqb Csv.LF Csv.Comma) with false in *; cbv iota in *.
  - by injection Hp as -> _.
  - destruct (Csv.emit recs (fs ++ [""])) as [rows' m'|] eqn:E; [|done].
    apply CsvEnd.emit_Parsing in E as (-> & _). by injection Hp as -> _.
  - destruct (Csv.emit recs (fs ++ [cur])) as [rows' m'|] eqn:E; [|done].
    apply CsvEnd.emit_Parsing in E as (-> & _). by injection Hp as -> _.
  - done.
  - destruct (Csv.emit recs (fs ++ [cur])) as [rows' m'|] eqn:E; [|done].
    apply CsvEnd.emit_Parsing in E as (-> & _). by injection Hp as -> _.
Qed.

Lemma parse_wellFormed_line c rows m h0 h1 now title :
  endsWithNewline c = true -> Csv.parse c = Csv.Parsing rows m ->
  Csv.Read c = Csv.ReadRecord [h0; h1] ->
  plain now = true -> plain title = true ->
  Csv.parse (c +:+ literalRecord now title)
  = Csv.Parsing (rows ++ [[now; title]]) Csv.RecordStart.
Proof.
  intros Hnl Hp HR Hn Ht. unfold Csv.parse.
  rewrite CsvFacts.run_app, (run_to_line_end c rows m Hnl Hp).
  rewrite CsvLine.run_literalRecord, CsvEnd.finish_emit by done.
  rewrite (Read_of_parse _ _ _ Hp) in HR.
  destruct rows as [|first rest]; [done|]. injection HR as ->. done.
Qed.

End CsvAppend.

(** ** The text of a timestamp *)

Lemma plain_app a b : plain (a +:+ b) = plain a && plain b.
Proof.
  induction a as [|c a IH]; [done|].
  rewrite CsvLine.append_cons. cbn [plain]. rewrite IH. by rewrite andb_assoc.
Qed.

Lemma digitChar_plain u : plain (String (digitChar (u mod 10)) "") = true.
Proof.
  pose proof (Z.mod_pos_bound u 10 ltac:(lia)) as H.
  assert (Hd : u mod 10 = 0 \/ u mod 10 = 1 \/ u mod 10 = 2 \/ u mod 10 = 3
               \/ u mod 10 = 4 \/ u mod 10 = 5 \/ u mod 10 = 6 \/ u mod 10 = 7
               \/ u mod 10 = 8 \/ u mod 10 = 9) by lia.
  destruct Hd as [-> | [-> | [-> | [-> | [-> | [-> | [-> | [-> | [-> | ->]]]]]]]]];
    reflexivity.
Qed.

Lemma digitsFuel_plain fuel : forall u acc,
  plain acc = true -> plain (digitsFuel fuel u acc) = true.
Proof.
  induction fuel as [|fuel IH]; intros u acc Hacc; [done|].
  cbn [digitsFuel].
  assert (H : plain (String (digitChar (u mod 10)) acc) = true).
  { change (String (digitChar (u mod 10)) acc)
      with (String (digitChar (u mod 10)) "" +:+ acc).
    by rewrite plain_app, digitChar_plain, Hacc. }
  destruct (u / 10 =? 0); [done|]. by apply IH.
Qed.

Lemma zeros_plain n : plain (zeros n) = true.
Proof. induction n as [|n IH]; [done|]. cbn [zeros plain]. by rewrite IH. Qed.

Lemma appendInt_plain x width : plain (appendInt x width) = true.
Proof.
  unfold appendInt, digits. rewrite !plain_app, zeros_plain, digitsFuel_plain by done.
  by destruct (x <? 0).
Qed.

Lemma Format_plain t : plain (Format t) = true.
Proof.
  unfold Format. destruct (civilFromDays _) as [[y m] d].
  rewrite !plain_app, !appendInt_plain. reflexivity.
Qed.

Lemma STOP_TOKEN_plain : plain STOP_TOKEN = true.
Proof. reflexivity. Qed.


(* ===================================================================== *)
(** * The ledger *)
(* ===================================================================== *)

(** ** Lists and worlds *)

Lemma last_cons_Some {A} (x : A) (l : list A) : exists y, last (x :: l) = Some y.
Proof.
  revert x. induction l as [|a l IH]; intros x; [by exists x|].
  rewrite last_cons_cons. apply IH.
Qed.

Lemma last_two {A} (before : list A) p l :
  last (before ++ [p; l]) = Some l
  /\ (before ++ [p; l]) !! (length (before ++ [p; l]) - 2)%nat = Some p.
Proof.
  split.
  - change [p; l] with ([p] ++ [l]). by rewrite app_assoc, last_snoc.
  - rewrite length_app. cbn [length].
    replace (length before + 2 - 2)%nat with (length before + 0)%nat by lia.
    by rewrite lookup_app_r, Nat.add_0_r, Nat.sub_diag by lia.
Qed.

Lemma index_last (records : list LogRecord) l w :
  last records = Some l -> index records (length records - 1) w = Ok l w.
Proof.
  intros Hl. unfold index. rewrite last_lookup in Hl.
  replace (length records - 1)%nat with (Nat.pred (length records)) by lia.
  by rewrite Hl.
Qed.

Lemma world_eta w c : db w = Some c -> setDb w c = w.
Proof. destruct w; cbn; intros ->; done. Qed.

Lemma lift_Ok {A} (r : Fault + A) w a w' : lift r w = Ok a w' -> r = inr a /\ w' = w.
Proof. unfold lift. destruct r; [done|]. by intros [= -> ->]. Qed.

(** ** Reading *)

Lemma recordsLoop_S i rows acc w :
  recordsLoop (S i) rows acc w = lift (decodeRows rows acc) w.
Proof.
  revert i acc. induction rows as [|row rows IH]; intros i acc; [done|].
  cbn [recordsLoop Nat.eqb decodeRows]. unfold decodeRow.
  destruct (row !! 0%nat) as [f0|]; [|done].
  destruct (Parse f0) as [ts|]; [|done].
  destruct (row !! 1%nat) as [f1|]; [|done].
  apply IH.
Qed.

Lemma recordsLoop_0 rows w :
  recordsLoop 0 rows [] w = lift (decodeRows (tail rows) []) w.
Proof. destruct rows as [|row rows]; [done|]. cbn [recordsLoop Nat.eqb tail]. apply recordsLoop_S. Qed.

Lemma decodeRows_app a b : forall acc,
  decodeRows (a ++ b) acc
  = match decodeRows a acc with
    | inl f => inl f
    | inr rs => decodeRows b rs
    end.
Proof.
  induction a as [|row a IH]; intros acc; [done|].
  cbn [app decodeRows]. destruct (decodeRow row); [done|]. apply IH.
Qed.


Lemma ensureCSVExists_unfold w :
  String.eqb (home w) "" = false ->
  ensureCSVExists w
  = let c := default "" (db w) in
    match Csv.Read c with
    | Csv.ReadRecord _ => Ok tt (setDb w c)
    | Csv.ReadEOF => Ok tt (setDb w (c +:+ CSV_HEADER))
    | Csv.ReadError e => Fatal (CsvFault e) (setDb w c)
    end.
Proof.
  intros Hh. unfold ensureCSVExists, bind, getDbPath, openFile. rewrite Hh.
  cbv zeta. destruct (db w) as [c|] eqn:Hdb; unfold default; cbn [from_option id].
  - rewrite (world_eta w c Hdb).
    destruct (Csv.Read c); [done| |done].
    unfold writeAtEnd. by rewrite Hdb.
  - destruct (Csv.Read ""); done.
Qed.

Lemma getRecords_unfold w :
  String.eqb (home w) "" = false ->
  getRecords w
  = let c := default "" (db w) in
    match Csv.Read c with
    | Csv.ReadRecord _ => lift (readLedger c) (setDb w c)
    | Csv.ReadEOF => lift (readLedger (c +:+ CSV_HEADER)) (setDb w (c +:+ CSV_HEADER))
    | Csv.ReadError e => Fatal (CsvFault e) (setDb w c)
    end.
Proof.
  intros Hh. unfold getRecords. unfold bind at 1.
  rewrite ensureCSVExists_unfold by done. cbv zeta.
  assert (Hread : forall c, 
    (_ <- getDbPath ;;
     content <- openFile false ;;
     match Csv.ReadAll content with
     | inl e => fatal (CsvFault e)
     | inr rawRecords => recordsLoop 0 rawRecords []
     end) (setDb w c) = lift (readLedger c) (setDb w c)).
  { intros c. unfold bind, getDbPath, openFile. cbv beta.
    change (home (setDb w c)) with (home w). rewrite Hh.
    change (db (setDb w c)) with (Some c). cbv iota beta.
    unfold readLedger. destruct (Csv.ReadAll c); [reflexivity|]. apply recordsLoop_0. }
  destruct (Csv.Read (default "" (db w))); [apply Hread|apply Hread|reflexivity].
Qed.

Lemma getRecords_NoHome w :
  String.eqb (home w) "" = true -> getRecords w = Fatal NoHome w.
Proof. intros Hh. unfold getRecords, bind, ensureCSVExists, bind, getDbPath. by rewrite Hh. Qed.

Lemma getRecords_not_Exit w code w' : getRecords w <> Exit code w'.
Proof.
  destruct (String.eqb (home w) "") eqn:Hh.
  - by rewrite getRecords_NoHome.
  - rewrite getRecords_unfold by done. cbv zeta.
    destruct (Csv.Read _); [| |done].
    + unfold lift. by destruct (readLedger _).
    + unfold lift. by destruct (readLedger _).
Qed.

Lemma readLedger_header c first :
  Csv.parse c = Csv.Parsing [first] Csv.RecordStart -> readLedger c = inr [].
Proof. unfold readLedger, Csv.ReadAll. by intros ->. Qed.

(** A successful read: the file exists afterwards, it starts with a
    record (the header), and reading it again gives the same events. *)
Lemma getRecords_Ok w records w1 :
  getRecords w = Ok records w1 ->
  String.eqb (home w) "" = false
  /\ exists c1 first,
       w1 = setDb w c1
       /\ Csv.Read c1 = Csv.ReadRecord first
       /\ readLedger c1 = inr records
       /\ (db w = Some c1 \/ records = []).
Proof.
  intros H.
  destruct (String.eqb (home w) "") eqn:Hh; [by rewrite getRecords_NoHome in H|].
  split; [done|]. rewrite getRecords_unfold in H by done. cbv zeta in H.
  destruct (Csv.Read (default "" (db w))) as [first| |e] eqn:HR; [| |done].
  - apply lift_Ok in H as [H ->]. exists (default "" (db w)), first.
    repeat split; [done|done|].
    destruct (db w) as [c|] eqn:Hdb; [by left|].
    by vm_compute in HR.
  - apply lift_Ok in H as [H ->].
    destruct (CsvEnd.parse_header_after_EOF _ HR) as [first Hp].
    exists (default "" (db w) +:+ CSV_HEADER), first.
    repeat split; [by rewrite (CsvFacts.Read_of_parse _ _ _ Hp)|done|].
    right. rewrite (readLedger_header _ _ Hp) in H. congruence.
Qed.

Lemma getRecords_initialised w c first :
  String.eqb (home w) "" = false -> db w = Some c ->
  Csv.Read c = Csv.ReadRecord first ->
  getRecords w = lift (readLedger c) w.
Proof.
  intros Hh Hdb HR. rewrite getRecords_unfold by done. cbv zeta.
  rewrite Hdb. unfold default; cbn [from_option id]. rewrite HR.
  by rewrite (world_eta w c Hdb).
Qed.

(** Reading does not depend on the clock or on what has been printed. *)
Lemma getRecords_again w records w1 w' :
  getRecords w = Ok records w1 ->
  home w' = home w1 -> db w' = db w1 ->
  getRecords w' = Ok records w'.
Proof.
  intros H Hh Hdb. apply getRecords_Ok in H as (Hhome & c1 & first & -> & HR & HL & _).
  cbn [setDb home db] in *.
  rewrite (getRecords_initialised w' c1 first); [by rewrite HL|congruence|done|done].
Qed.


(** ** Writing *)

Lemma writeTicket_initialised w c first title :
  String.eqb (home w) "" = false -> db w = Some c ->
  Csv.Read c = Csv.ReadRecord first ->
  writeTicket title w
  = Ok tt (mkWorld (home w)
                   (Some (c +:+ literalRecord (Format (clock w (tick w))) title))
                   (clock w) (S (tick w)) (stdout w)).
Proof.
  intros Hh Hdb HR. unfold writeTicket. unfold bind at 1.
  rewrite ensureCSVExists_unfold by done. cbv zeta. rewrite Hdb.
  unfold default; cbn [from_option id]. rewrite HR, (world_eta w c Hdb).
  unfold bind, time_Now, getDbPath, writeAtEnd. cbn [home db clock tick stdout].
  rewrite Hh. cbn [home db clock tick stdout]. by rewrite Hdb.
Qed.

Lemma startTicket_initialised w c first title :
  String.eqb (home w) "" = false -> db w = Some c ->
  Csv.Read c = Csv.ReadRecord first ->
  startTicket title w
  = Ok tt (mkWorld (home w)
                   (Some (c +:+ literalRecord (Format (clock w (tick w))) title))
                   (clock w) (S (tick w))
                   (stdout w ++ ["STARTING " +:+ title +:+ nl])).
Proof.
  intros Hh Hdb HR. unfold startTicket, bind.
  by rewrite (writeTicket_initialised w c first).
Qed.


(** A database that does not exist yet is well formed once it has been
    read for the first time. *)
Lemma fresh_ledger_wellFormed : wellFormed CSV_HEADER /\ readLedger CSV_HEADER = inr [].
Proof.
  split; [split; [reflexivity|]|reflexivity].
  exists "timestamp", "title". reflexivity.
Qed.


(* ===================================================================== *)
(** * Segments *)
(* ===================================================================== *)

Lemma entriesLoop_succ records : forall i cur start acc,
  entriesLoop (S i) records (mkLoop cur start acc)
  = match last records with
    | Some l =>
        mkLoop (title l) (timestamp l) (acc ++ pairSegments (mkRecord start cur :: records))
    | None => mkLoop cur start acc
    end.
Proof.
  induction records as [|r rest IH]; intros i cur start acc; [done|].
  cbn [entriesLoop Nat.eqb tickets currentTicketTitle startTime].
  rewrite IH. destruct r as [ts ti]. cbn [title timestamp].
  destruct rest as [|r' rest'].
  - cbn. done.
  - rewrite last_cons_cons. destruct (last_cons_Some r' rest') as [l ->].
    cbn [pairSegments title timestamp]. by rewrite <- app_assoc.
Qed.

Lemma entriesLoop_zero r rest :
  entriesLoop 0 (r :: rest) (mkLoop "" 0 [])
  = match last (r :: rest) with
    | Some l => mkLoop (title l) (timestamp l) (pairSegments (r :: rest))
    | None => mkLoop "" 0 []
    end.
Proof.
  cbn [entriesLoop Nat.eqb tickets]. rewrite entriesLoop_succ.
  destruct r as [ts ti]. destruct rest as [|r' rest']; [done|].
  rewrite last_cons_cons. by destruct (last_cons_Some r' rest') as [l ->].
Qed.

Lemma computeEntriesDuration_spec records w :
  computeEntriesDuration records w
  = Ok (computeSegments records (reparse (clock w (tick w))))
       (match trailingSegment records 0 with
        | [] => w
        | _ => mkWorld (home w) (db w) (clock w) (S (tick w)) (stdout w)
        end).
Proof.
  unfold computeEntriesDuration, computeSegments, trailingSegment.
  destruct records as [|r rest]; [done|].
  change (Nat.eqb (length (r :: rest)) 0) with false. cbv iota.
  rewrite entriesLoop_zero.
  destruct (last (r :: rest)) as [l|] eqn:Hl.
  - unfold bind. rewrite (index_last _ l w Hl).
    cbn [tickets startTime]. destruct (String.eqb (title l) STOP_TOKEN); cbn.
    + by rewrite app_nil_r.
    + done.
  - destruct (last_cons_Some r rest) as [l Hl']. congruence.
Qed.

Lemma pairSegments_length events :
  length (pairSegments events) = (length events - 1)%nat.
Proof.
  induction events as [|e rest IH]; [done|].
  destruct rest as [|e' rest']; [done|].
  cbn [pairSegments length] in *. lia.
Qed.

Lemma pairSegments_lookup events : forall i e e',
  events !! i = Some e -> events !! S i = Some e' ->
  pairSegments events !! i
  = Some (mkTicket (title e) (Sub (timestamp e') (timestamp e))).
Proof.
  induction events as [|a rest IH]; intros i e e' H1 H2; [done|].
  destruct rest as [|b rest']; [done|].
  destruct i as [|i].
  - by simplify_eq/=.
  - cbn [pairSegments]. rewrite lookup_cons_ne_0 by lia. cbn [Nat.pred].
    apply IH; done.
Qed.





(** C7. For every sequence of events whose timestamps do not decrease,
    every segment that [computeEntriesDuration] derives from an adjacent
    pair of events (the segments at the indices [i] with [i + 1] below
    the number of events) has a duration greater than or equal to zero. *)
Theorem pair_segments_nonnegative (records : list LogRecord) (w : World) :
  (forall i e e', records !! i = Some e -> records !! S i = Some e' ->
     timestamp e <= timestamp e') ->
  exists segs w',
    computeEntriesDuration records w = Ok segs w'
    /\ forall i seg, (S i < length records)%nat -> segs !! i = Some seg ->
         0 <= duration seg.
Proof.
  intros Hsorted. eexists _, _. split; [apply computeEntriesDuration_spec|].
  intros i seg Hi Hseg. unfold computeSegments in Hseg.
  destruct (lookup_lt_is_Some_2 records i ltac:(lia)) as [e He].
  destruct (lookup_lt_is_Some_2 records (S i) ltac:(lia)) as [e' He'].
  rewrite lookup_app_l in Hseg by (rewrite pairSegments_length; lia).
  rewrite (pairSegments_lookup _ _ _ _ He He') in Hseg. simplify_eq/=.
  apply Sub_nonneg. eauto.
Qed.

(** The sample events are in order. *)
Lemma pair_segments_nonnegative_witness :
  exists segs w',
    computeEntriesDuration sampleRecords workingWorld = Ok segs w'
    /\ forall i seg, (S i < length sampleRecords)%nat -> segs !! i = Some seg ->
         0 <= duration seg.
Proof.
  apply (pair_segments_nonnegative sampleRecords workingWorld).
  intros i e e' H1 H2.
  destruct i as [|[|[|i]]]; simplify_eq/=; vm_compute; discriminate.
Defined.

(** C9, as amended. For an input that is not empty and whose last event
    is not a stop, and a clock that shows a year from 0000 to 9999: the
    instant the function compares with is the reading of the clock cut
    down to whole seconds (what printing it in the layout of the log and
    parsing it again gives), and the last segment has the duration
    [Sub] of that instant and the last timestamp. When the last timestamp
    is itself a whole number of seconds (every timestamp [writeTicket]
    writes is one) and the difference fits a [time.Duration], this
    duration is a whole number of seconds, and it is less than the time
    from the last timestamp to the reading of the clock by zero or more
    and strictly less than one second. *)
Theorem trailing_duration_whole_seconds
    (records : list LogRecord) (w : World) (l : LogRecord) :
  last records = Some l -> title l <> STOP_TOKEN ->
  firstInstant <= clock w (tick w) < endInstant ->
  let t := clock w (tick w) in
  let d := Sub (truncateToSecond t) (timestamp l) in
  exists segs w',
    computeEntriesDuration records w = Ok segs w'
    /\ reparse t = truncateToSecond t
    /\ last segs = Some (mkTicket (title l) d)
    /\ (timestamp l mod Second = 0 ->
        minDuration <= truncateToSecond t - timestamp l <= maxDuration ->
        d mod Second = 0 /\ 0 <= (t - timestamp l) - d < Second).
Proof.
  intros Hl Ht Hclock t d.
  eexists _, _. split; [apply computeEntriesDuration_spec|].
  split; [by apply reparse_truncates|]. split.
  - unfold computeSegments, trailingSegment. rewrite Hl.
    apply String.eqb_neq in Ht. rewrite Ht.
    rewrite last_snoc. fold t. by rewrite reparse_truncates.
  - intros Hwhole Hfit. subst d. rewrite Sub_exact by done.
    destruct (truncateToSecond_bounds t) as [Hmod Hb].
    split; [|lia].
    unfold Second in *. clear -Hmod Hwhole. Z.div_mod_to_equations. lia.
Qed.

(** At noon, with ticket A started at 9:15. *)
Lemma trailing_duration_whole_seconds_witness :
  exists segs w',
    computeEntriesDuration [eventA] workingWorld = Ok segs w'
    /\ reparse noon = truncateToSecond noon
    /\ last segs = Some (mkTicket "A" (Sub (truncateToSecond noon) (timestamp eventA)))
    /\ (timestamp eventA mod Second = 0 ->
        minDuration <= truncateToSecond noon - timestamp eventA <= maxDuration ->
        Sub (truncateToSecond noon) (timestamp eventA) mod Second = 0
        /\ 0 <= (noon - timestamp eventA)
                - Sub (truncateToSecond noon) (timestamp eventA) < Second).
Proof.
  apply (trailing_duration_whole_seconds [eventA] workingWorld eventA).
  - reflexivity.
  - discriminate.
  - vm_compute. split; [discriminate|reflexivity].
Defined.

(** C9 as it is stated fails on two ledgers that [getRecords] reads
    without an error. An event dated January 1 of year 1 is more than 292
    years old: [Sub] returns the maximum duration, which is no whole
    number of seconds and is short of the time that has gone by, by much
    more than a second. An event written with a fraction of a second,
    which [time.Parse] accepts after the seconds, gives a duration with
    half a second in it. *)
Lemma trailing_duration_not_whole_seconds :
  (getRecords ancientWorld = Ok [mkRecord 0 "A"] ancientWorld
   /\ (exists w', computeEntriesDuration [mkRecord 0 "A"] ancientWorld
                  = Ok [mkTicket "A" maxDuration] w')
   /\ maxDuration mod Second = 854775807
   /\ Second <= (noon - 0) - maxDuration)
  /\ (getRecords fractionWorld = Ok [mkRecord (noon - 1500000000) "A"] fractionWorld
      /\ (exists w', computeEntriesDuration [mkRecord (noon - 1500000000) "A"] fractionWorld
                     = Ok [mkTicket "A" 1500000000] w')
      /\ 1500000000 mod Second = 500000000).
Proof.
  split; [split; [|split; [|split]]|split; [|split]].
  - vm_compute. reflexivity.
  - eexists. vm_compute. reflexivity.
  - reflexivity.
  - vm_compute. discriminate.
  - vm_compute. reflexivity.
  - eexists. vm_compute. reflexivity.
  - reflexivity.
Qed.


(* ===================================================================== *)
(** * Aggregation *)
(* ===================================================================== *)

Lemma filterStops_filter ts :
  filterStops ts = List.filter (fun t => negb (String.eqb (ticketTitle t) STOP_TOKEN)) ts.
Proof.
  unfold filterStops.
  enough (H : forall acc, fold_left
    (fun outTickets t => if negb (String.eqb (ticketTitle t) STOP_TOKEN) then outTickets ++ [t] else outTickets) ts acc
     = acc ++ List.filter (fun t => negb (String.eqb (ticketTitle t) STOP_TOKEN)) ts) by apply (H []).
  induction ts as [|t ts IH]; intros acc; simpl.
  - by rewrite app_nil_r.
  - rewrite IH. destruct (negb _); [by rewrite <- app_assoc | done].
Qed.

Lemma computeTotalTime_wrap ts : computeTotalTime ts = wrap64 (exactTotal ts).
Proof.
  unfold computeTotalTime, exactTotal.
  enough (H : forall a,
    fold_left (fun totalTime t => addDuration totalTime (duration t)) ts (wrap64 a)
    = wrap64 (a + fold_left (fun total t => total + duration t) ts 0)).
  { specialize (H 0). by rewrite Z.add_0_l in H. }
  induction ts as [|t ts IH] using rev_ind; intros a.
  - cbn. by rewrite Z.add_0_r.
  - rewrite !fold_left_app. cbn [fold_left]. rewrite IH.
    unfold addDuration. rewrite wrap64_add_l. f_equal. lia.
Qed.

(** Without overflow the total is the sum of the durations. *)
Lemma computeTotalTime_exact ts :
  minDuration <= exactTotal ts <= maxDuration ->
  computeTotalTime ts = exactTotal ts.
Proof. intros H. rewrite computeTotalTime_wrap. by apply wrap64_id. Qed.

Lemma computeTotalTime_range ts : minDuration <= computeTotalTime ts <= maxDuration.
Proof. rewrite computeTotalTime_wrap. apply wrap64_range. Qed.







(* ===================================================================== *)
(** * The controller *)
(* ===================================================================== *)

(** ** stop *)

Lemma stopTicket_unfold w records w1 :
  getRecords w = Ok records w1 ->
  stopTicket w
  = if isWorking records then
      (writeTicket STOP_TOKEN ;;;
       print ("STOPPING " +:+ match last records with
                              | Some l => title l
                              | None => ""
                              end +:+ nl)) w1
    else println notWorkingMessage w1.
Proof.
  intros H. unfold stopTicket, isWorking. unfold bind at 1. rewrite H.
  destruct (last records) as [l|]; [|done]. by destruct (negb _).
Qed.

Lemma stopTicket_idle w records w1 :
  getRecords w = Ok records w1 -> isWorking records = false ->
  stopTicket w
  = Ok tt (mkWorld (home w1) (db w1) (clock w1) (tick w1)
                   (stdout w1 ++ [notWorkingMessage +:+ nl])).
Proof. intros H Hw. rewrite (stopTicket_unfold _ _ _ H), Hw. done. Qed.

Lemma stopTicket_working w records w1 prev :
  getRecords w = Ok records w1 ->
  last records = Some prev -> title prev <> STOP_TOKEN ->
  exists c,
    db w = Some c /\ w1 = w
    /\ stopTicket w
       = Ok tt (mkWorld (home w)
                  (Some (c +:+ literalRecord (Format (clock w (tick w))) STOP_TOKEN))
                  (clock w) (S (tick w))
                  (stdout w ++ ["STOPPING " +:+ title prev +:+ nl])).
Proof.
  intros H Hl Ht. rewrite (stopTicket_unfold _ _ _ H). unfold isWorking.
  rewrite Hl. apply String.eqb_neq in Ht. rewrite Ht. cbn [negb].
  apply getRecords_Ok in H as (Hh & c1 & first & -> & HR & HL & [Hdb| ->]);
    [|done].
  exists c1. rewrite (world_eta w c1 Hdb). split; [done|]. split; [done|].
  unfold bind. by rewrite (writeTicket_initialised w c1 first).
Qed.





(** ** resume *)

Lemma fails_Exit e w :
  exists out, fails e w = Exit 1 (mkWorld (home w) (db w) (clock w) (tick w) (stdout w ++ out)).
Proof.
  destruct e; cbn [fails].
  - eexists [_]. reflexivity.
  - eexists [_; _]. unfold yellForNoPreviousTicket, bind, println, print, os_Exit.
    cbn [home db clock tick stdout]. by rewrite <- app_assoc.
  - eexists [_]. reflexivity.
Qed.

Lemma restartLastTicket_unfold w records w1 :
  getRecords w = Ok records w1 ->
  restartLastTicket w
  = match records with
    | [] => fails NoHistoryError w1
    | [r0] =>
        if String.eqb (title r0) STOP_TOKEN then fails NoPreviousTicketError w1
        else fails (AlreadyWorkingError (title r0)) w1
    | _ =>
        match last records, records !! (length records - 2)%nat with
        | Some l, Some penultimate =>
            if String.eqb (title l) STOP_TOKEN then
              if String.eqb (title penultimate) STOP_TOKEN
              then fails NoPreviousTicketError w1
              else startTicket (title penultimate) w1
            else fails (AlreadyWorkingError (title l)) w1
        | _, _ => Fatal IndexPanic w1
        end
    end.
Proof.
  intros H. unfold restartLastTicket. unfold bind at 1. rewrite H.
  destruct records as [|r0 [|r1 rest]]; [reflexivity| |].
  { change (Nat.eqb (length [r0]) 0) with false.
    change (Nat.eqb (length [r0]) 1) with true. cbv iota.
    unfold bind, index. change ([r0] !! 0%nat) with (Some r0). cbv iota beta.
    unfold ret. by destruct (String.eqb (title r0) STOP_TOKEN). }
  change (Nat.eqb (length (r0 :: r1 :: rest)) 0) with false.
  change (Nat.eqb (length (r0 :: r1 :: rest)) 1) with false.
  change (Nat.ltb 1 (length (r0 :: r1 :: rest))) with true. cbv iota.
  destruct (last_cons_Some r0 (r1 :: rest)) as [l Hl]. rewrite Hl.
  unfold bind at 1. rewrite (index_last _ l w1 Hl).
  destruct (lookup_lt_is_Some_2 (r0 :: r1 :: rest) (length (r0 :: r1 :: rest) - 2))
    as [p Hp]; [cbn; lia|].
  rewrite Hp. destruct (String.eqb (title l) STOP_TOKEN); [|reflexivity].
  unfold bind, index. rewrite Hp. unfold ret.
  by destruct (String.eqb (title p) STOP_TOKEN).
Qed.

Lemma restartLastTicket_stops w :
  match getRecords w with
  | Ok _ _ => True
  | Exit code w1 => False
  | Fatal f w1 => restartLastTicket w = Fatal f w1
  end.
Proof.
  destruct (getRecords w) as [records w1|code w1|f w1] eqn:H; [done| |].
  - by apply getRecords_not_Exit in H.
  - unfold restartLastTicket. unfold bind at 1. by rewrite H.
Qed.

(** C10. Whenever [restartLastTicket] ends with [os.Exit], it ended in
    one of its three failures ([NoHistoryError], [NoPreviousTicketError],
    [AlreadyWorkingError]), with the exit code 1, and it has appended
    nothing: the file is the one the first read left, and the events of
    the ledger after the call are the events before it. *)
Theorem restartLastTicket_failure_keeps_ledger (w : World) (code : Z) (w' : World) :
  restartLastTicket w = Exit code w' ->
  exists records w1 e,
    getRecords w = Ok records w1
    /\ restartLastTicket w = fails e w1
    /\ code = 1
    /\ db w' = db w1
    /\ getRecords w' = Ok records w'.
Proof.
  intros HE. pose proof (restartLastTicket_stops w) as HS.
  destruct (getRecords w) as [records w1|? ?|f w1] eqn:H; [|done|congruence].
  clear HS. exists records, w1.
  cut (exists e, restartLastTicket w = fails e w1 /\ code = 1
                 /\ db w' = db w1 /\ getRecords w' = Ok records w').
  { intros (e & He). exists e. by split. }
  assert (Hfail : forall e, restartLastTicket w = fails e w1 ->
            exists e, restartLastTicket w = fails e w1 /\ code = 1
                      /\ db w' = db w1 /\ getRecords w' = Ok records w').
  { intros e He. exists e. split; [done|].
    destruct (fails_Exit e w1) as [out Hout]. rewrite He, Hout in HE.
    injection HE as <- <-. split; [done|]. split; [done|].
    by apply (getRecords_again w records w1). }
  pose proof (restartLastTicket_unfold _ _ _ H) as HU.
  destruct records as [|r0 [|r1 rest]].
  - eapply Hfail, HU.
  - destruct (String.eqb (title r0) STOP_TOKEN); eapply Hfail, HU.
  - destruct (last (r0 :: r1 :: rest)) as [l|]; [|congruence].
    destruct ((r0 :: r1 :: rest) !! _) as [p|]; [|congruence].
    destruct (String.eqb (title l) STOP_TOKEN); [|eapply Hfail, HU].
    destruct (String.eqb (title p) STOP_TOKEN); [eapply Hfail, HU|].
    apply getRecords_Ok in H as (Hh & c1 & first & -> & HR & _).
    rewrite (startTicket_initialised (setDb w c1) c1 first) in HU by done.
    congruence.
Qed.

(** Resuming while ticket A is open. *)
Lemma restartLastTicket_failure_keeps_ledger_witness :
  restartLastTicket workingWorld
  = Exit 1 (mkWorld "/home/mate" (Some workingLedger) (fun _ => noon) 0
                    ["You are currently working on: A" +:+ nl])
  /\ exists records w1 e,
       getRecords workingWorld = Ok records w1
       /\ restartLastTicket workingWorld = fails e w1
       /\ 1 = 1
       /\ Some workingLedger = db w1
       /\ getRecords (mkWorld "/home/mate" (Some workingLedger) (fun _ => noon) 0
                              ["You are currently working on: A" +:+ nl])
          = Ok records
               (mkWorld "/home/mate" (Some workingLedger) (fun _ => noon) 0
                        ["You are currently working on: A" +:+ nl]).
Proof.
  assert (H : restartLastTicket workingWorld
    = Exit 1 (mkWorld "/home/mate" (Some workingLedger) (fun _ => noon) 0
                      ["You are currently working on: A" +:+ nl]))
    by (vm_compute; reflexivity).
  split; [exact H|].
  exact (restartLastTicket_failure_keeps_ledger _ _ _ H).
Defined.

(** ** status *)

Lemma getLastTicketTitle_unfold w records w1 :
  getRecords w = Ok records w1 ->
  getLastTicketTitle w
  = Ok (match last records with
        | Some r => title r
        | None => STOP_TOKEN
        end) w1.
Proof.
  intros H. unfold getLastTicketTitle. unfold bind at 1. rewrite H.
  destruct records as [|r0 rest]; [done|].
  change (Nat.eqb (length (r0 :: rest)) 0) with false. cbv iota.
  destruct (last_cons_Some r0 rest) as [l Hl]. rewrite Hl.
  unfold bind. by rewrite (index_last _ l w1 Hl).
Qed.

(** C8. [getLastTicketTitle] returns the stop token when the ledger is
    empty, and the title of the last event of the ledger otherwise. *)
Theorem getLastTicketTitle_spec (w : World) (records : list LogRecord) (w1 : World) :
  getRecords w = Ok records w1 ->
  (records = [] -> getLastTicketTitle w = Ok STOP_TOKEN w1)
  /\ (forall r, last records = Some r -> getLastTicketTitle w = Ok (title r) w1).
Proof.
  intros H. rewrite (getLastTicketTitle_unfold _ _ _ H). split.
  - by intros ->.
  - by intros r ->.
Qed.

(** The status after a stop, and while ticket A is open. *)
Lemma getLastTicketTitle_spec_witness :
  getRecords stoppedWorld = Ok [eventA; eventStop] stoppedWorld
  /\ getLastTicketTitle stoppedWorld = Ok STOP_TOKEN stoppedWorld
  /\ getRecords workingWorld = Ok [eventA] workingWorld
  /\ getLastTicketTitle workingWorld = Ok "A" workingWorld.
Proof.
  assert (H1 : getRecords stoppedWorld = Ok [eventA; eventStop] stoppedWorld)
    by (vm_compute; reflexivity).
  assert (H2 : getRecords workingWorld = Ok [eventA] workingWorld)
    by (vm_compute; reflexivity).
  split; [exact H1|]. split.
  - exact (proj2 (getLastTicketTitle_spec _ _ _ H1) eventStop eq_refl).
  - split; [exact H2|].
    exact (proj2 (getLastTicketTitle_spec _ _ _ H2) eventA eq_refl).
Defined.

(** ** The stop token *)

(** C4, as amended. The reserved title is the text mate:STOP. It is what
    [stopTicket] writes as the title of the record that ends a session,
    and what the inspections of the last event ([getLastTicketTitle],
    [stopTicket]), the filter of the segments ([filterStops]) and the
    open segment of [computeEntriesDuration] compare titles with. *)
Theorem STOP_TOKEN_literal :
  STOP_TOKEN = "mate:STOP"
  /\ (forall w records w1 prev,
        getRecords w = Ok records w1 ->
        last records = Some prev -> title prev <> "mate:STOP" ->
        exists c w2,
          db w = Some c
          /\ stopTicket w = Ok tt w2
          /\ db w2 = Some (c +:+ quote +:+ Format (clock w (tick w)) +:+ quote
                             +:+ "," +:+ quote +:+ "mate:STOP" +:+ quote +:+ nl))
  /\ (forall w records w1 prev,
        getRecords w = Ok records w1 ->
        last records = Some prev -> title prev = "mate:STOP" ->
        getLastTicketTitle w = Ok "mate:STOP" w1
        /\ exists w2, stopTicket w = Ok tt w2 /\ db w2 = db w1)
  /\ (forall tickets,
        filterStops tickets
        = List.filter (fun t => negb (String.eqb (ticketTitle t) "mate:STOP")) tickets)
  /\ (forall events now l,
        last events = Some l ->
        (title l = "mate:STOP" -> trailingSegment events now = [])
        /\ (title l <> "mate:STOP" ->
              trailingSegment events now = [mkTicket (title l) (Sub now (timestamp l))])).
Proof.
  split; [reflexivity|]. split; [|split; [|split]].
  - intros w records w1 prev H Hl Ht.
    destruct (stopTicket_working _ _ _ _ H Hl Ht) as (c & Hdb & -> & Hstop).
    exists c. eexists. split; [done|]. split; [exact Hstop|].
    reflexivity.
  - intros w records w1 prev H Hl Ht. split.
    + by rewrite (getLastTicketTitle_unfold _ _ _ H), Hl, Ht.
    + eexists. split.
      * apply (stopTicket_idle _ _ _ H). unfold isWorking. by rewrite Hl, Ht.
      * done.
  - apply filterStops_filter.
  - intros events now l Hl. unfold trailingSegment. rewrite Hl. split.
    + intros Ht. by rewrite Ht.
    + intros Ht. apply String.eqb_neq in Ht.
      change "mate:STOP" with STOP_TOKEN in Ht. by rewrite Ht.
Qed.

(** C4 as it is stated fails: the stop token is not the text STOP. A
    segment with the title STOP is kept by [filterStops], and a ledger
    whose last event has the title STOP is working. *)
Lemma STOP_TOKEN_is_not_STOP :
  String.eqb STOP_TOKEN "STOP" = false
  /\ filterStops [mkTicket "STOP" Minute] = [mkTicket "STOP" Minute]
  /\ isWorking [mkRecord noon "STOP"] = true.
Proof. repeat split. Qed.

(** ** What is written and read back *)

(** C5 fails on a title with a double quote in it. [startTicket] writes
    the title between double quotes as it is; the reader then finds a
    quote in the middle of a quoted field, [ReadAll] returns an error and
    [getRecords] ends the program with [log.Fatal]: the title does not
    come back, and no later command can read the ledger. *)
Theorem quoted_title_breaks_the_ledger :
  plain quotedTitle = false
  /\ exists w1,
       startTicket quotedTitle freshWorld = Ok tt w1
       /\ db w1 = Some (CSV_HEADER +:+ literalRecord "2024/03/05 12:00:00" quotedTitle)
       /\ getRecords w1 = Fatal (CsvFault Csv.ErrQuote) w1.
Proof.
  split; [reflexivity|].
  eexists. split; [vm_compute; reflexivity|].
  split; vm_compute; reflexivity.
Qed.

Lemma run_quotedTitle now recs :
  plain now = true ->
  fst (Csv.run (Csv.Parsing recs Csv.RecordStart, false) (literalRecord now quotedTitle))
  = Csv.Failed recs Csv.ErrQuote.
Proof.
  intros Hn. rewrite CsvLine.literalRecord_cons. cbn [Csv.run]. csv_feed.
  rewrite CsvLine.run_quoted_field by done.
  set (rest := "," +:+ quote +:+ quotedTitle +:+ quote +:+ nl).
  vm_compute in rest. subst rest.
  cbv - [String.append]. reflexivity.
Qed.

(** With a double quote in the title, [start] leaves a file that no
    command reads any more, whatever the ledger held and whenever the
    call is made. *)
Lemma quoted_title_breaks_any_ledger w c records :
  String.eqb (home w) "" = false -> db w = Some c -> wellFormed c ->
  readLedger c = inr records ->
  exists w2,
    startTicket quotedTitle w = Ok tt w2
    /\ getRecords w2 = Fatal (CsvFault Csv.ErrQuote) w2.
Proof.
  intros Hh Hdb [Hnl (h0 & h1 & HR)] HL.
  eexists. split; [by apply (startTicket_initialised w c [h0; h1])|].
  set (now := Format (clock w (tick w))).
  assert (Hp : exists rows m, Csv.parse c = Csv.Parsing rows m).
  { unfold readLedger, Csv.ReadAll in HL.
    destruct (Csv.parse c) as [rows m|]; [|done]. by exists rows, m. }
  destruct Hp as (rows & m & Hp).
  pose proof (CsvAppend.run_to_line_end c rows m Hnl Hp) as Hrun.
  assert (Hfail : Csv.parse (c +:+ literalRecord now quotedTitle)
                  = Csv.Failed rows Csv.ErrQuote).
  { unfold Csv.parse, Csv.finish.
    by rewrite CsvFacts.run_app, Hrun, (run_quotedTitle now rows (Format_plain _)). }
  rewrite (getRecords_initialised _ (c +:+ literalRecord now quotedTitle) [h0; h1]);
    [|done|done|].
  - unfold readLedger, Csv.ReadAll. by rewrite Hfail.
  - rewrite (CsvFacts.Read_of_parse _ _ _ Hp) in HR.
    unfold Csv.Read. rewrite Hfail. destruct rows as [|first rest]; [done|].
    by injection HR as ->.
Qed.

(** After a start and a stop of ticket A. *)
Lemma quoted_title_breaks_any_ledger_witness :
  exists w2,
    startTicket quotedTitle stoppedWorld = Ok tt w2
    /\ getRecords w2 = Fatal (CsvFault Csv.ErrQuote) w2.
Proof.
  apply (quoted_title_breaks_any_ledger stoppedWorld stoppedLedger [eventA; eventStop]).
  - reflexivity.
  - reflexivity.
  - split; [reflexivity|]. exists "timestamp", "title". reflexivity.
  - vm_compute. reflexivity.
Defined.

(** What [start] writes can be read back when the title has no double
    quote and no carriage return in it: the title comes back as the last
    event, at the time of the call cut down to the second. *)
Lemma startTicket_then_getRecords w c records title :
  String.eqb (home w) "" = false -> db w = Some c -> wellFormed c ->
  readLedger c = inr records -> plain title = true ->
  firstInstant <= clock w (tick w) < endInstant ->
  exists w2,
    startTicket title w = Ok tt w2
    /\ (exists c2, db w2 = Some c2 /\ wellFormed c2)
    /\ getRecords w2
       = Ok (records ++ [mkRecord (truncateToSecond (clock w (tick w))) title]) w2.
Proof.
  intros Hh Hdb [Hnl (h0 & h1 & HR)] HL Ht Hclock.
  eexists. split; [by apply (startTicket_initialised w c [h0; h1])|].
  set (now := Format (clock w (tick w))).
  assert (Hp : exists rows m, Csv.parse c = Csv.Parsing rows m
                              /\ decodeRows (tail rows) [] = inr records).
  { unfold readLedger, Csv.ReadAll in HL.
    destruct (Csv.parse c) as [rows m|]; [|done]. by exists rows, m. }
  destruct Hp as (rows & m & Hp & Hd).
  pose proof (CsvAppend.parse_wellFormed_line c rows m h0 h1 now title Hnl Hp HR
                (Format_plain _) Ht) as Hp2.
  assert (HR2 : Csv.Read (c +:+ literalRecord now title) = Csv.ReadRecord [h0; h1]).
  { rewrite (CsvFacts.Read_of_parse _ _ _ Hp2). rewrite (CsvFacts.Read_of_parse _ _ _ Hp) in HR.
    destruct rows; [done|]. done. }
  split.
  - eexists. split; [reflexivity|]. split.
    + apply CsvAppend.endsWithNewline_app, CsvAppend.literalRecord_endsWithNewline.
    + by exists h0, h1.
  - rewrite (getRecords_initialised _ (c +:+ literalRecord now title) [h0; h1]);
      [|done|done|done].
    unfold readLedger, Csv.ReadAll. rewrite Hp2.
    rewrite (CsvFacts.Read_of_parse _ _ _ Hp) in HR.
    destruct rows as [|first rest]; [done|]. cbn [app tail].
    rewrite decodeRows_app. cbn [tail] in Hd. rewrite Hd.
    cbn [decodeRows]. unfold decodeRow. cbn [lookup list_lookup].
    subst now. rewrite Parse_Format by done. done.
Qed.

(** A title with a comma and a line end in it, started on a database
    that holds its header only. *)
Lemma startTicket_then_getRecords_witness :
  exists w2,
    startTicket commaTitle (setDb freshWorld CSV_HEADER) = Ok tt w2
    /\ (exists c2, db w2 = Some c2 /\ wellFormed c2)
    /\ getRecords w2 = Ok ([] ++ [mkRecord (truncateToSecond noon) commaTitle]) w2.
Proof.
  apply (startTicket_then_getRecords (setDb freshWorld CSV_HEADER) CSV_HEADER []).
  - reflexivity.
  - reflexivity.
  - apply fresh_ledger_wellFormed.
  - apply fresh_ledger_wellFormed.
  - reflexivity.
  - vm_compute. split; [discriminate|reflexivity].
Defined.

(* ===================================================================== *)
(** * The commands that show the ledger *)
(* ===================================================================== *)

Lemma bind_Ok {A B} (m : M A) (k : A -> M B) w a w1 :
  m w = Ok a w1 -> bind m k w = k a w1.
Proof. intros H. unfold bind. by rewrite H. Qed.

Lemma world_stdout_nil w :
  mkWorld (home w) (db w) (clock w) (tick w) (stdout w ++ []) = w.
Proof. destruct w. cbn. by rewrite app_nil_r. Qed.

Lemma listLoop_run ts : forall w,
  listLoop ts w
  = Ok tt (mkWorld (home w) (db w) (clock w) (tick w) (stdout w ++ map entryLine ts)).
Proof.
  induction ts as [|t ts IH]; intros w.
  - cbn. by rewrite world_stdout_nil.
  - cbn [listLoop map]. unfold bind, print. rewrite IH.
    cbn [home db clock tick stdout]. by rewrite <- app_assoc.
Qed.


(** The world after the segments have been computed: the clock has been
    read once if the session is working. *)
Lemma computeEntriesDuration_world records w :
  exists w2,
    computeEntriesDuration records w
    = Ok (computeSegments records (reparse (clock w (tick w)))) w2
    /\ home w2 = home w /\ db w2 = db w /\ clock w2 = clock w
    /\ stdout w2 = stdout w.
Proof.
  rewrite computeEntriesDuration_spec. eexists. split; [reflexivity|].
  by destruct (trailingSegment records 0).
Qed.



(** ** Grouping *)

Lemma exactTotal_cons t ts : exactTotal (t :: ts) = duration t + exactTotal ts.
Proof.
  unfold exactTotal. cbn [fold_left].
  enough (H : forall a b,
    fold_left (fun total t => total + duration t) ts (a + b)
    = a + fold_left (fun total t => total + duration t) ts b).
  { rewrite <- (Z.add_0_r (0 + duration t)), H. lia. }
  induction ts as [|t' ts IH]; intros a b; cbn [fold_left]; [done|].
  by rewrite <- Z.add_assoc, IH.
Qed.

Lemma filter_title_none k ts :
  existsb (fun t => String.eqb (ticketTitle t) k) ts = false ->
  List.filter (fun t => String.eqb (ticketTitle t) k) ts = [].
Proof.
  induction ts as [|t ts IH]; [done|]. cbn [existsb List.filter].
  destruct (String.eqb (ticketTitle t) k); [done|]. apply IH.
Qed.

Lemma groupDurations_fold ts k : forall m : gmap string Duration,
  (forall v, m !! k = Some v -> v = wrap64 v) ->
  fold_left
    (fun groupedTickets t =>
       <[ticketTitle t := addDuration (default 0 (groupedTickets !! ticketTitle t))
                                      (duration t)]> groupedTickets) ts m !! k
  = if existsb (fun t => String.eqb (ticketTitle t) k) ts
    then Some (wrap64 (default 0 (m !! k)
                       + exactTotal (List.filter (fun t => String.eqb (ticketTitle t) k) ts)))
    else m !! k.
Proof.
  induction ts as [|t ts IH]; intros m Hm; [done|].
  cbn [fold_left existsb List.filter]. rewrite IH.
  - destruct (String.eqb (ticketTitle t) k) eqn:Hk.
    + apply String.eqb_eq in Hk. subst k. rewrite lookup_insert_eq.
      cbn [orb default from_option id]. rewrite exactTotal_cons.
      unfold addDuration.
      destruct (existsb _ ts) eqn:He.
      * rewrite wrap64_add_l. f_equal. f_equal. lia.
      * rewrite (filter_title_none _ _ He). f_equal. f_equal.
        change (exactTotal []) with 0. lia.
    + apply String.eqb_neq in Hk. rewrite lookup_insert_ne by done.
      cbn [orb]. done.
  - intros v. destruct (String.eqb (ticketTitle t) k) eqn:Hk.
    + apply String.eqb_eq in Hk. subst k. rewrite lookup_insert_eq.
      intros [= <-]. unfold addDuration. symmetry. apply wrap64_id, wrap64_range.
    + apply String.eqb_neq in Hk. rewrite lookup_insert_ne by done. apply Hm.
Qed.

Lemma groupDurations_at (tickets : list Ticket) (k : string) :
  groupDurations tickets !! k
  = if existsb (fun t => String.eqb (ticketTitle t) k) tickets
    then Some (wrap64 (exactTotal
                 (List.filter (fun t => String.eqb (ticketTitle t) k) tickets)))
    else None.
Proof.
  unfold groupDurations. rewrite groupDurations_fold by done.
  by rewrite lookup_empty.
Qed.

(** X4. What [groupDurations] holds for a title: nothing when no segment
    has the title, and otherwise the sum of the durations of the segments
    that have it, in the arithmetic of [time.Duration]: the sum itself
    when it fits an [int64]. *)
Theorem groupDurations_lookup (tickets : list Ticket) (k : string) :
  let total :=
    exactTotal (List.filter (fun t => String.eqb (ticketTitle t) k) tickets) in
  ((forall t, In t tickets -> ticketTitle t <> k) ->
     groupDurations tickets !! k = None)
  /\ ((exists t, In t tickets /\ ticketTitle t = k) ->
        groupDurations tickets !! k = Some (wrap64 total)
        /\ (minDuration <= total <= maxDuration ->
              groupDurations tickets !! k = Some total)).
Proof.
  intros total. split.
  - intros Hno. rewrite groupDurations_at.
    destruct (existsb _ tickets) eqn:He; [|done].
    apply existsb_exists in He as (t & Hin & Ht).
    apply String.eqb_eq in Ht. by apply Hno in Hin.
  - intros (t & Hin & Ht).
    assert (He : existsb (fun t => String.eqb (ticketTitle t) k) tickets = true).
    { apply existsb_exists. exists t. split; [done|]. by apply String.eqb_eq. }
    rewrite groupDurations_at, He. split; [done|].
    intros Hfit. subst total. by rewrite wrap64_id.
Qed.

Lemma filterStops_existsb ts k :
  existsb (fun t => String.eqb (ticketTitle t) k) (filterStops ts)
  = negb (String.eqb k STOP_TOKEN)
    && existsb (fun t => String.eqb (ticketTitle t) k) ts.
Proof.
  rewrite filterStops_filter.
  induction ts as [|t ts IH]; [by rewrite andb_false_r|].
  cbn [List.filter existsb].
  destruct (String.eqb (ticketTitle t) STOP_TOKEN) eqn:Hs; cbn [negb existsb].
  - rewrite IH. apply String.eqb_eq in Hs.
    destruct (String.eqb (ticketTitle t) k) eqn:Hk; [|done].
    apply String.eqb_eq in Hk. rewrite <- Hk, Hs, String.eqb_refl. done.
  - rewrite IH. destruct (String.eqb (ticketTitle t) k) eqn:Hk; [|done].
    apply String.eqb_eq in Hk. rewrite <- Hk, Hs. done.
Qed.

(** X5. The grouping that [mate log] shows never has the stop token as a
    key, has every other title of a segment as a key, and is empty exactly
    when every segment is a stop. *)
Theorem report_keys (segments : list Ticket) :
  let grouped := groupDurations (filterStops segments) in
  grouped !! STOP_TOKEN = None
  /\ (forall k, is_Some (grouped !! k)
        <-> k <> STOP_TOKEN /\ exists t, In t segments /\ ticketTitle t = k)
  /\ (grouped = ∅ <-> forall t, In t segments -> ticketTitle t = STOP_TOKEN).
Proof.
  intros grouped.
  assert (Hkey : forall k, is_Some (grouped !! k)
            <-> k <> STOP_TOKEN /\ exists t, In t segments /\ ticketTitle t = k).
  { intros k. subst grouped. rewrite groupDurations_at, filterStops_existsb.
    destruct (String.eqb k STOP_TOKEN) eqn:Hs; cbn [negb andb].
    - apply String.eqb_eq in Hs. split; [by intros [? ?]|]. by intros [? _].
    - apply String.eqb_neq in Hs.
      destruct (existsb _ segments) eqn:He.
      + split; [|by eexists]. intros _. split; [done|].
        apply existsb_exists in He as (t & Hin & Ht).
        apply String.eqb_eq in Ht. by exists t.
      + split; [by intros [? ?]|]. intros [_ (t & Hin & Ht)].
        assert (existsb (fun t => String.eqb (ticketTitle t) k) segments = true).
        { apply existsb_exists. exists t. split; [done|]. by apply String.eqb_eq. }
        congruence. }
  split; [|split; [exact Hkey|]].
  - destruct (grouped !! STOP_TOKEN) eqn:Hg; [|done].
    destruct (proj1 (Hkey STOP_TOKEN)); [by eexists|done].
  - split.
    + intros He t Hin.
      destruct (String.eqb (ticketTitle t) STOP_TOKEN) eqn:Hs;
        [by apply String.eqb_eq|].
      apply String.eqb_neq in Hs.
      destruct (proj2 (Hkey (ticketTitle t))) as [v Hv]; [by eauto|].
      rewrite He, lookup_empty in Hv. done.
    + intros Hall. apply map_empty. intros k.
      destruct (grouped !! k) eqn:Hg; [|done].
      destruct (proj1 (Hkey k)) as [Hk (t & Hin & Ht)]; [by eexists|].
      rewrite <- Ht in Hk. by apply Hall in Hin.
Qed.

(** ** log *)

Lemma reportLoop_run entries : forall w,
  reportLoop entries w
  = Ok tt (mkWorld (home w) (db w) (clock w) (tick w)
                   (stdout w ++ map (fun kv => durationLine kv.1 kv.2) entries)).
Proof.
  induction entries as [|[k v] entries IH]; intros w.
  - cbn. by rewrite world_stdout_nil.
  - cbn [reportLoop map]. unfold bind, print. rewrite IH.
    cbn [home db clock tick stdout fst snd]. by rewrite <- app_assoc.
Qed.



(** ** info *)

Lemma trailing_title_present records now l :
  last records = Some l -> title l <> STOP_TOKEN ->
  existsb (fun t => String.eqb (ticketTitle t) (title l)) (computeSegments records now)
  = true.
Proof.
  intros Hl Ht. apply existsb_exists.
  exists (mkTicket (title l) (Sub now (timestamp l))). split.
  - unfold computeSegments, trailingSegment. rewrite Hl.
    apply String.eqb_neq in Ht. rewrite Ht. apply in_or_app. right. by left.
  - apply String.eqb_refl.
Qed.

(** X7. [mate info] on a ledger that reads as [records], when the total
    of the segments that are not stops is not negative and fits a
    [time.Duration]. It prints two lines. The first says that the user is
    not working when the ledger is empty or ends with a stop; otherwise
    it names the title of the last event, with the time of all the
    segments of that title, the open one included, and not of the current
    session only. The second compares the total, which covers the whole
    ledger, with the working day of seven hours and a half: what is left
    of the day when the total is less, and what exceeds it otherwise,
    zero included. The database is left as reading it left it. *)
Theorem showInfo_prints (w : World) (records : list LogRecord) (w1 : World) :
  getRecords w = Ok records w1 ->
  let tickets :=
    filterStops (computeSegments records (reparse (clock w (tick w)))) in
  let total := exactTotal tickets in
  0 <= total <= maxDuration ->
  exists w2 statusLine,
    showInfo w = Ok tt w2
    /\ db w2 = db w1
    /\ stdout w2
       = stdout w
         ++ [statusLine;
             if total <? WORK_DAY
             then "Still " +:+ Duration_String (WORK_DAY - total) +:+ " to work" +:+ nl
             else "You're done for today (+" +:+ Duration_String (total - WORK_DAY)
                  +:+ ")" +:+ nl]
    /\ (isWorking records = false -> statusLine = "Currently not working" +:+ nl)
    /\ (forall l, last records = Some l -> title l <> STOP_TOKEN ->
          statusLine
          = "Working on " +:+ title l +:+ " ("
            +:+ Duration_String
                  (wrap64 (exactTotal
                     (List.filter (fun t => String.eqb (ticketTitle t) (title l)) tickets)))
            +:+ ")" +:+ nl).
Proof.
  intros H tickets total Htotal. unfold showInfo. rewrite (bind_Ok _ _ _ _ _ H).
  pose proof (getRecords_Ok _ _ _ H) as (_ & c1 & first & Hw1 & _).
  destruct (computeEntriesDuration_world records w1)
    as (w2 & HC & Hh & Hdb & Hc & Hout).
  assert (Hnow : clock w1 (tick w1) = clock w (tick w)) by (by rewrite Hw1).
  rewrite Hnow in HC. rewrite (bind_Ok _ _ _ _ _ HC). cbv zeta. fold tickets.
  pose proof (getRecords_again w records w1 w2 H Hh Hdb) as H2.
  rewrite (bind_Ok _ _ _ _ _ (getLastTicketTitle_unfold _ _ _ H2)).
  rewrite computeTotalTime_exact by (fold total; unfold minDuration; lia).
  fold total.
  assert (HW : WORK_DAY = 27000000000000) by reflexivity.
  assert (Hmax : maxDuration = 9223372036854775807) by reflexivity.
  assert (Hd1 : wrap64 (WORK_DAY - total) = WORK_DAY - total).
  { apply wrap64_id. unfold minDuration. rewrite Hmax in *. lia. }
  rewrite Hd1.
  assert (Hd2 : wrap64 ((WORK_DAY - total) * -1) = total - WORK_DAY).
  { rewrite wrap64_id; [lia|]. unfold minDuration. rewrite Hmax in *. lia. }
  rewrite Hd2.
  assert (Hcmp : (0 <? WORK_DAY - total) = (total <? WORK_DAY)).
  { destruct (Z.ltb_spec 0 (WORK_DAY - total)), (Z.ltb_spec total WORK_DAY);
      (done || lia). }
  rewrite Hcmp.
  assert (Hw2 : stdout w2 = stdout w) by (by rewrite Hout, Hw1).
  set (status := match last records with Some r => title r | None => STOP_TOKEN end).
  set (statusLine :=
    if String.eqb status STOP_TOKEN then "Currently not working" +:+ nl
    else "Working on " +:+ status +:+ " ("
         +:+ Duration_String (default 0 (groupDurations tickets !! status))
         +:+ ")" +:+ nl).
  set (dayLine :=
    if total <? WORK_DAY
    then "Still " +:+ Duration_String (WORK_DAY - total) +:+ " to work" +:+ nl
    else "You're done for today (+" +:+ Duration_String (total - WORK_DAY)
         +:+ ")" +:+ nl).
  exists (mkWorld (home w2) (db w2) (clock w2) (tick w2)
                  (stdout w2 ++ [statusLine; dayLine])), statusLine.
  split; [|split; [|split; [|split]]].
  - unfold bind, print. subst statusLine dayLine. cbn [home db clock tick stdout].
    destruct (String.eqb status STOP_TOKEN), (total <? WORK_DAY);
      cbn [home db clock tick stdout]; by rewrite <- app_assoc.
  - done.
  - cbn [stdout]. by rewrite Hw2.
  - unfold isWorking. subst statusLine status. destruct (last records) as [l|].
    + intros Hs. apply negb_false_iff in Hs. by rewrite Hs.
    + done.
  - intros l Hl Ht. subst statusLine status. rewrite Hl.
    pose proof Ht as Ht'. apply String.eqb_neq in Ht'. rewrite Ht'.
    subst tickets. rewrite groupDurations_at, filterStops_existsb, Ht'.
    rewrite (trailing_title_present _ _ _ Hl Ht). done.
Qed.

(** Ticket A since 9:15, at noon: 2h45m done, 4h45m left. *)
Lemma showInfo_prints_witness :
  exists w2,
    showInfo workingWorld = Ok tt w2
    /\ db w2 = db workingWorld
    /\ stdout w2 = ["Working on A (2h45m0s)" +:+ nl; "Still 4h45m0s to work" +:+ nl].
Proof.
  assert (H : getRecords workingWorld = Ok [eventA] workingWorld)
    by (vm_compute; reflexivity).
  destruct (showInfo_prints workingWorld [eventA] workingWorld H)
    as (w2 & statusLine & Hrun & Hdb & Hout & _ & Hstatus).
  { vm_compute. split; discriminate. }
  exists w2. split; [done|]. split; [done|].
  rewrite Hout, (Hstatus eventA eq_refl ltac:(discriminate)).
  vm_compute. reflexivity.
Defined.

(* ===================================================================== *)
(** * What a run keeps *)
(* ===================================================================== *)

Section Frame.

Context (R : World -> World -> Prop).
Hypothesis R_refl : forall w, R w w.
Hypothesis R_trans : forall a b c, R a b -> R b c -> R a c.
Hypothesis R_print : forall s, keeps R (print s).
Hypothesis R_time_Now : keeps R time_Now.
Hypothesis R_writeAtEnd : forall s, keeps R (writeAtEnd s).
Hypothesis R_ensureCSVExists : keeps R ensureCSVExists.

Lemma keeps_ret {A} (a : A) : keeps R (ret a).
Proof. intros w. apply R_refl. Qed.

Lemma keeps_fatal {A} f : keeps R (@fatal A f).
Proof. intros w. apply R_refl. Qed.

Lemma keeps_os_Exit {A} code : keeps R (@os_Exit A code).
Proof. intros w. apply R_refl. Qed.

Lemma keeps_bind {A B} (m : M A) (k : A -> M B) :
  keeps R m -> (forall a, keeps R (k a)) -> keeps R (bind m k).
Proof.
  intros Hm Hk w. unfold bind. specialize (Hm w).
  destruct (m w) as [a w1|code w1|f w1]; [|done|done].
  eapply R_trans; [exact Hm|apply Hk].
Qed.

Lemma keeps_getDbPath : keeps R getDbPath.
Proof. intros w. unfold getDbPath. destruct (String.eqb _ _); apply R_refl. Qed.

Lemma keeps_openFile_false : keeps R (openFile false).
Proof. intros w. unfold openFile. destruct (db w); apply R_refl. Qed.

Ltac frame :=
  repeat first
    [ apply keeps_ret | apply keeps_fatal | apply keeps_os_Exit
    | apply keeps_getDbPath | apply keeps_openFile_false
    | apply R_print | apply R_time_Now | apply R_writeAtEnd
    | apply R_ensureCSVExists
    | assumption
    | apply keeps_bind; [|intros ?]
    | match goal with
      | |- keeps _ (if ?b then _ else _) => destruct b
      | |- keeps _ (match ?x with _ => _ end) => destruct x
      end ].

Lemma keeps_println s : keeps R (println s).
Proof. unfold println. frame. Qed.

Lemma keeps_recordsLoop rows : forall i acc, keeps R (recordsLoop i rows acc).
Proof.
  induction rows as [|row rows IH]; intros i acc; cbn [recordsLoop]; frame;
    apply IH.
Qed.

Lemma keeps_getRecords : keeps R getRecords.
Proof.
  unfold getRecords. do 3 (apply keeps_bind; [frame|intros ?]).
  destruct (Csv.ReadAll _); [frame|apply keeps_recordsLoop].
Qed.

Lemma keeps_writeTicket title : keeps R (writeTicket title).
Proof. unfold writeTicket. frame. Qed.

Lemma keeps_startTicket title : keeps R (startTicket title).
Proof. unfold startTicket. apply keeps_bind; [apply keeps_writeTicket|]. intros _. frame. Qed.

Lemma keeps_stopTicket : keeps R stopTicket.
Proof.
  unfold stopTicket. apply keeps_bind; [apply keeps_getRecords|]. intros records.
  destruct (match last records with Some l => _ | None => _ end) as [working l].
  destruct working; [|apply keeps_println].
  apply keeps_bind; [apply keeps_writeTicket|]. intros _. frame.
Qed.

Lemma keeps_index records i : keeps R (index records i).
Proof. unfold index. frame. Qed.

Lemma keeps_restartLastTicket : keeps R restartLastTicket.
Proof.
  unfold restartLastTicket, yellForNoRecord, yellForNoPreviousTicket,
    yellForNotStopped.
  apply keeps_bind; [apply keeps_getRecords|]. intros records. cbv zeta.
  assert (Hexit : forall s, keeps R (println s ;;; @os_Exit unit 1)).
  { intros s. apply keeps_bind; [apply keeps_println|]. intros _. frame. }
  assert (Hexit2 : forall s s', keeps R (println s ;;; println s' ;;; @os_Exit unit 1)).
  { intros s s'. apply keeps_bind; [apply keeps_println|]. intros _. apply Hexit. }
  assert (Hexit3 : forall s, keeps R (print s ;;; @os_Exit unit 1)) by (intros s; frame).
  destruct (Nat.eqb (length records) 0); [apply Hexit|].
  destruct (Nat.eqb (length records) 1).
  { apply keeps_bind; [apply keeps_index|]. intros r0.
    destruct (String.eqb (title r0) STOP_TOKEN); [apply Hexit2|apply Hexit3]. }
  destruct (Nat.ltb 1 (length records)); [|frame].
  apply keeps_bind; [apply keeps_index|]. intros l.
  destruct (String.eqb (title l) STOP_TOKEN); [|apply Hexit3].
  apply keeps_bind; [apply keeps_index|]. intros p.
  destruct (String.eqb (title p) STOP_TOKEN); [apply Hexit2|apply keeps_startTicket].
Qed.

Lemma keeps_computeEntriesDuration records : keeps R (computeEntriesDuration records).
Proof.
  unfold computeEntriesDuration.
  destruct (Nat.eqb (length records) 0); [frame|]. cbv zeta.
  apply keeps_bind; [apply keeps_index|]. intros l.
  destruct (negb _); frame.
Qed.

Lemma keeps_getLastTicketTitle : keeps R getLastTicketTitle.
Proof.
  unfold getLastTicketTitle. apply keeps_bind; [apply keeps_getRecords|].
  intros records. destruct (Nat.eqb (length records) 0); [frame|].
  apply keeps_bind; [apply keeps_index|]. intros r. frame.
Qed.

Lemma keeps_listLoop tickets : keeps R (listLoop tickets).
Proof.
  induction tickets as [|t ts IH]; cbn [listLoop]; [frame|].
  apply keeps_bind; [frame|]. intros _. apply IH.
Qed.

Lemma keeps_listEntries : keeps R listEntries.
Proof.
  unfold listEntries. apply keeps_bind; [apply keeps_getRecords|]. intros records.
  apply keeps_bind; [apply keeps_computeEntriesDuration|]. intros tickets.
  destruct (Nat.eqb (length tickets) 0); [apply keeps_println|apply keeps_listLoop].
Qed.

Lemma keeps_reportLoop entries : keeps R (reportLoop entries).
Proof.
  induction entries as [|[k v] entries IH]; cbn [reportLoop]; [frame|].
  apply keeps_bind; [frame|]. intros _. apply IH.
Qed.

Lemma keeps_showReport mapRange : keeps R (showReport mapRange).
Proof.
  unfold showReport. apply keeps_bind; [apply keeps_getRecords|]. intros records.
  apply keeps_bind; [apply keeps_computeEntriesDuration|]. intros segments.
  cbv zeta. destruct (Nat.eqb _ 0); [apply keeps_println|apply keeps_reportLoop].
Qed.

Lemma keeps_showInfo : keeps R showInfo.
Proof.
  unfold showInfo. apply keeps_bind; [apply keeps_getRecords|]. intros records.
  apply keeps_bind; [apply keeps_computeEntriesDuration|]. intros segments.
  cbv zeta. apply keeps_bind; [apply keeps_getLastTicketTitle|]. intros status.
  apply keeps_bind; [destruct (String.eqb status STOP_TOKEN); frame|]. intros _.
  destruct (0 <? _); frame.
Qed.

Lemma keeps_showErrorHelp : keeps R showErrorHelp.
Proof.
  unfold showErrorHelp.
  repeat (apply keeps_bind; [apply keeps_println|intros _]). apply keeps_println.
Qed.

Lemma keeps_promptLoop remaining : forall userEntry input,
  keeps R (promptLoop remaining userEntry input).
Proof.
  induction remaining as [|n IH]; intros userEntry input; cbn [promptLoop]; [frame|].
  destruct (contains validEntries userEntry); [frame|].
  apply keeps_bind; [frame|]. intros _.
  destruct (ReadString Csv.LF input) as [line rest]. apply IH.
Qed.

Lemma keeps_clearEntries input :
  keeps R (os_Truncate (String.length CSV_HEADER)) -> keeps R (clearEntries input).
Proof.
  intros Htruncate. unfold clearEntries.
  apply keeps_bind; [apply keeps_promptLoop|]. intros userEntry.
  destruct (_ || _); [|apply keeps_println].
  apply keeps_bind; [frame|]. intros _.
  apply keeps_bind; [exact Htruncate|]. intros _. apply keeps_println.
Qed.

Lemma keeps_arg args i : keeps R (arg args i).
Proof. unfold arg. frame. Qed.

Lemma keeps_noParameter numberOfArgs command run :
  keeps R run -> keeps R (noParameter numberOfArgs command run).
Proof.
  intros Hrun. unfold noParameter. destruct (Nat.eqb numberOfArgs 3); [|done].
  apply keeps_bind; [apply keeps_println|]. intros _. frame.
Qed.

(** Every command but [clear] is made of the steps above. *)
Lemma keeps_main mapRange args input :
  (args !! 1%nat = Some "clear" -> keeps R (clearEntries input)) ->
  keeps R (main mapRange args input).
Proof.
  intros Hclear. unfold main. cbv zeta.
  apply keeps_bind.
  { destruct (Nat.eqb _ 1); [|frame].
    apply keeps_bind; [apply keeps_showErrorHelp|]. intros _. frame. }
  intros _. apply keeps_bind.
  { destruct (Nat.ltb 3 _); [|frame].
    repeat (apply keeps_bind; [apply keeps_println|intros _]). frame. }
  intros _. unfold bind at 1, arg at 1. intros w.
  destruct (args !! 1%nat) as [command|] eqn:Hcommand; [|apply R_refl].
  unfold ret. revert w. change (keeps R
    (if String.eqb command "start" || String.eqb command "s" then
       if Nat.eqb (length args) 3 then title <- arg args 2 ;; startTicket title
       else restartLastTicket
     else if String.eqb command "stop" || String.eqb command "x" then
       noParameter (length args) "stop" stopTicket
     else if String.eqb command "log" || String.eqb command "l" then
       noParameter (length args) "log" (showReport mapRange)
     else if String.eqb command "list" || String.eqb command "ll" then
       noParameter (length args) "list" listEntries
     else if String.eqb command "info" || String.eqb command "i" then
       noParameter (length args) "info" showInfo
     else if String.eqb command "clear" then
       noParameter (length args) "clear" (clearEntries input)
     else showErrorHelp)).
  destruct (_ || _).
  { destruct (Nat.eqb _ 3); [|apply keeps_restartLastTicket].
    apply keeps_bind; [apply keeps_arg|]. intros title. apply keeps_startTicket. }
  destruct (_ || _); [apply keeps_noParameter, keeps_stopTicket|].
  destruct (_ || _); [apply keeps_noParameter, keeps_showReport|].
  destruct (_ || _); [apply keeps_noParameter, keeps_listEntries|].
  destruct (_ || _); [apply keeps_noParameter, keeps_showInfo|].
  destruct (String.eqb command "clear") eqn:Hc; [|apply keeps_showErrorHelp].
  apply String.eqb_eq in Hc. subst command.
  apply keeps_noParameter, Hclear. done.
Qed.

End Frame.

(** ** The database file only grows *)

Lemma append_assoc (a b c : string) : (a +:+ b) +:+ c = a +:+ (b +:+ c).
Proof.
  induction a as [|x a IH]; [done|].
  rewrite !CsvLine.append_cons. by rewrite IH.
Qed.

Lemma grown_refl w : grown w w.
Proof. by left. Qed.

Lemma grown_trans a b c : grown a b -> grown b c -> grown a c.
Proof.
  unfold grown. intros [Hab|[s1 Hab]] [Hbc|[s2 Hbc]].
  - left. congruence.
  - right. exists s2. by rewrite Hbc, Hab.
  - right. exists s1. by rewrite Hbc, Hab.
  - right. exists (s1 +:+ s2). rewrite Hbc, Hab. cbn. by rewrite append_assoc.
Qed.

Lemma grown_print s : keeps grown (print s).
Proof. intros w. by left. Qed.

Lemma grown_time_Now : keeps grown time_Now.
Proof. intros w. by left. Qed.

Lemma grown_writeAtEnd s : keeps grown (writeAtEnd s).
Proof.
  intros w. unfold writeAtEnd. destruct (db w) as [c|] eqn:Hdb; [|by left].
  right. exists s. cbn. by rewrite Hdb.
Qed.

Lemma grown_ensureCSVExists : keeps grown ensureCSVExists.
Proof.
  unfold ensureCSVExists.
  apply (keeps_bind grown grown_trans); [apply (keeps_getDbPath grown grown_refl)|].
  intros _. apply (keeps_bind grown grown_trans).
  - intros w. unfold openFile. destruct (db w) as [c|] eqn:Hdb; [by left|].
    right. exists "". cbn. by rewrite Hdb.
  - intros content. destruct (Csv.Read content).
    + apply (keeps_ret grown grown_refl).
    + apply grown_writeAtEnd.
    + apply (keeps_fatal grown grown_refl).
Qed.

Lemma sameDb_refl w : sameDb w w.
Proof. done. Qed.

Lemma sameDb_trans a b c : sameDb a b -> sameDb b c -> sameDb a c.
Proof. unfold sameDb. intros [? ?] [? ?]. split; congruence. Qed.

Lemma sameDb_print s : keeps sameDb (print s).
Proof. done. Qed.

Lemma sameDb_time_Now : keeps sameDb time_Now.
Proof. done. Qed.

Lemma sameDb_promptLoop remaining userEntry input :
  keeps sameDb (promptLoop remaining userEntry input).
Proof. apply keeps_promptLoop; [exact sameDb_refl|exact sameDb_trans|exact sameDb_print]. Qed.

Lemma promptLoop_Ok remaining : forall userEntry input w,
  exists entry w1, promptLoop remaining userEntry input w = Ok entry w1.
Proof.
  induction remaining as [|n IH]; intros userEntry input w; cbn [promptLoop];
    [by eexists _, _|].
  destruct (contains validEntries userEntry); [by eexists _, _|].
  unfold bind, print. destruct (ReadString Csv.LF input) as [line rest]. apply IH.
Qed.

(** What [clearEntries] does to the file: nothing, or it cuts it to the
    length of the header. *)
Lemma clearEntries_db input w :
  db (worldOf (clearEntries input w)) = db w
  \/ exists c, db w = Some c
               /\ db (worldOf (clearEntries input w))
                  = Some (resizeFile (String.length CSV_HEADER) c).
Proof.
  unfold clearEntries.
  destruct (promptLoop_Ok 3 "" input w) as (entry & w1 & Hp).
  pose proof (sameDb_promptLoop 3 "" input w) as [Hdb Hh]. rewrite Hp in Hdb, Hh.
  cbn [worldOf] in Hdb, Hh. rewrite (bind_Ok _ _ _ _ _ Hp).
  destruct (_ || _); [|left; exact Hdb].
  unfold bind, getDbPath. destruct (String.eqb (home w1) ""); [left; exact Hdb|].
  unfold os_Truncate. destruct (db w1) as [c|] eqn:Hc; [|left; cbn; congruence].
  right. exists c. split; [congruence|]. done.
Qed.

Lemma main_clear mapRange program rest input w :
  main mapRange (program :: "clear" :: rest) input w
  = match rest with
    | [] => clearEntries input w
    | [_] =>
        (println "The clear command does not take any parameter" ;;; os_Exit 1) w
    | _ =>
        (println "Too much arguments provided." ;;;
         println "(Use quotes for long titles)" ;;; os_Exit 1) w
    end.
Proof. destruct rest as [|x [|y rest]]; reflexivity. Qed.

(** X8. What a run of [mate] does to the database file, whatever the
    arguments, the input and the way the run ends: it leaves the file as
    it is, or it adds to its end (a file that does not exist is created),
    or, for the command [clear] alone, it cuts the file to the length of
    the header. Nothing else rewrites or removes what the file holds. *)
Theorem main_database
    (mapRange : gmap string Duration -> list (string * Duration))
    (args : list string) (input : string) (w : World) :
  let w' := worldOf (main mapRange args input w) in
  db w' = db w
  \/ (exists suffix, db w' = Some (default "" (db w) +:+ suffix))
  \/ (exists program c,
        args = [program; "clear"] /\ db w = Some c
        /\ db w' = Some (resizeFile (String.length CSV_HEADER) c)).
Proof.
  intros w'. subst w'.
  assert (Hgrown : grown w (worldOf (main mapRange args input w))
                   -> db (worldOf (main mapRange args input w)) = db w
                      \/ (exists suffix, db (worldOf (main mapRange args input w))
                                         = Some (default "" (db w) +:+ suffix))
                      \/ (exists program c,
                            args = [program; "clear"] /\ db w = Some c
                            /\ db (worldOf (main mapRange args input w))
                               = Some (resizeFile (String.length CSV_HEADER) c))).
  { intros [H|H]; [by left|right; by left]. }
  destruct (decide (args !! 1%nat = Some "clear")) as [Hclear|Hother].
  - destruct args as [|program [|command rest]]; [done|done|].
    cbn in Hclear. injection Hclear as ->. rewrite main_clear in *.
    destruct rest as [|x [|y rest]].
    + destruct (clearEntries_db input w) as [H|(c & Hc & H)]; [by left|].
      right. right. by exists program, c.
    + by left.
    + by left.
  - apply Hgrown.
    apply (keeps_main grown grown_refl grown_trans grown_print grown_time_Now
             grown_writeAtEnd grown_ensureCSVExists).
    intros Hc. done.
Qed.

(** ** The header stays in place *)

Lemma resizeFile_prefix (a b : string) :
  resizeFile (String.length a) (a +:+ b) = a.
Proof.
  induction a as [|x a IH]; [done|].
  rewrite CsvLine.append_cons. cbn [String.length resizeFile]. by rewrite IH.
Qed.

Lemma headed_setDb w c : headed (setDb w (CSV_HEADER +:+ c)).
Proof. right. by exists c. Qed.

Lemma headed_ensureCSVExists w : headed w -> headed (worldOf (ensureCSVExists w)).
Proof.
  intros Hw.
  destruct (String.eqb (home w) "") eqn:Hh.
  { unfold ensureCSVExists, bind, getDbPath. by rewrite Hh. }
  rewrite ensureCSVExists_unfold by done. cbv zeta.
  destruct Hw as [Hdb|[rest Hdb]]; rewrite Hdb; unfold default; cbn [from_option id].
  - change (Csv.Read "") with Csv.ReadEOF. cbv iota. cbn [worldOf].
    right. exists "". reflexivity.
  - destruct (Csv.Read _); cbn [worldOf].
    + apply headed_setDb.
    + rewrite append_assoc. apply headed_setDb.
    + apply headed_setDb.
Qed.

Lemma headed_same w w' : db w' = db w -> headed w -> headed w'.
Proof. unfold headed. by intros ->. Qed.

Lemma headed_writeAtEnd s w : headed w -> headed (worldOf (writeAtEnd s w)).
Proof.
  intros Hw. unfold writeAtEnd. destruct Hw as [Hdb|[rest Hdb]]; rewrite Hdb.
  - by left.
  - right. exists (rest +:+ s). cbn. by rewrite append_assoc.
Qed.

Lemma headed_os_Truncate w :
  headed w -> headed (worldOf (os_Truncate (String.length CSV_HEADER) w)).
Proof.
  intros Hw. unfold os_Truncate. destruct Hw as [Hdb|[rest Hdb]]; rewrite Hdb.
  - by left.
  - right. exists "". cbn [worldOf db]. rewrite resizeFile_prefix.
    by rewrite CsvLine.append_empty_r.
Qed.

(** X9. A database file that does not exist or that starts with the
    header is still so after a run of [mate], whatever the arguments, the
    input and the way the run ends: the header is written first in a new
    file, every write is at the end, and [clear] keeps the length of the
    header. *)
Theorem main_keeps_header
    (mapRange : gmap string Duration -> list (string * Duration))
    (args : list string) (input : string) (w : World) :
  headed w -> headed (worldOf (main mapRange args input w)).
Proof.
  revert w.
  assert (Hrefl : forall w, headed w -> headed w) by done.
  assert (Htrans : forall a b c : World,
            (headed a -> headed b) -> (headed b -> headed c) -> headed a -> headed c)
    by auto.
  assert (Hprint : forall s, keeps (fun w w' => headed w -> headed w') (print s))
    by (intros s w; exact id).
  apply (keeps_main (fun w w' => headed w -> headed w') Hrefl Htrans Hprint).
  - intros w. exact id.
  - intros s w. apply headed_writeAtEnd.
  - intros w. apply headed_ensureCSVExists.
  - intros _. apply (keeps_clearEntries _ Hrefl Htrans Hprint).
    intros w. apply headed_os_Truncate.
Qed.

(** A database with ticket A in it, then cleared. *)
Lemma main_keeps_header_witness :
  headed workingWorld
  /\ headed (worldOf (main map_to_list ["mate"; "clear"] ("y" +:+ nl) workingWorld)).
Proof.
  assert (H : headed workingWorld).
  { right. exists (literalRecord "2024/03/05 09:15:00" "A"). reflexivity. }
  split; [exact H|].
  exact (main_keeps_header map_to_list ["mate"; "clear"] ("y" +:+ nl) workingWorld H).
Defined.

(** ** The commands that show the ledger write no event *)

Lemma getRecords_db w : db (worldOf (getRecords w)) = db (worldOf (ensureCSVExists w)).
Proof.
  destruct (String.eqb (home w) "") eqn:Hh.
  { rewrite getRecords_NoHome by done.
    unfold ensureCSVExists, bind, getDbPath. by rewrite Hh. }
  rewrite getRecords_unfold, ensureCSVExists_unfold by done. cbv zeta.
  destruct (Csv.Read _); [| |done]; unfold lift; by destruct (readLedger _).
Qed.

Lemma viewing_db {A} (k : list LogRecord -> M A) w :
  (forall records w1, getRecords w = Ok records w1 -> sameDb w1 (worldOf (k records w1))) ->
  db (worldOf (bind getRecords k w)) = db (worldOf (ensureCSVExists w)).
Proof.
  intros Hk. rewrite <- getRecords_db. unfold bind.
  destruct (getRecords w) as [records w1|code w1|f w1] eqn:H; [|done|done].
  apply (Hk records w1 eq_refl).
Qed.

Lemma sameDb_computeEntriesDuration records : keeps sameDb (computeEntriesDuration records).
Proof.
  apply keeps_computeEntriesDuration;
    [exact sameDb_refl|exact sameDb_trans|exact sameDb_time_Now].
Qed.

Lemma sameDb_then {A B} (m : M A) (k : A -> M B) w :
  keeps sameDb m ->
  (forall a w1, m w = Ok a w1 -> sameDb w1 (worldOf (k a w1))) ->
  sameDb w (worldOf (bind m k w)).
Proof.
  intros Hm Hk. unfold bind. specialize (Hm w).
  destruct (m w) as [a w1|code w1|f w1] eqn:H; [|done|done].
  eapply sameDb_trans; [exact Hm|by apply Hk].
Qed.

(** X10. The commands [list], [log] and [info] write no event: however
    they end, they leave the database file as [ensureCSVExists] leaves it,
    which is as it was when it holds a record, and with the header added
    when it holds none. *)
Theorem viewing_writes_no_event
    (mapRange : gmap string Duration -> list (string * Duration)) (w : World) :
  let w0 := worldOf (ensureCSVExists w) in
  db (worldOf (listEntries w)) = db w0
  /\ db (worldOf (showReport mapRange w)) = db w0
  /\ db (worldOf (showInfo w)) = db w0
  /\ (forall c first, db w = Some c -> Csv.Read c = Csv.ReadRecord first ->
        db w0 = Some c)
  /\ (String.eqb (home w) "" = false -> Csv.Read (default "" (db w)) = Csv.ReadEOF ->
        db w0 = Some (default "" (db w) +:+ CSV_HEADER)).
Proof.
  intros w0. subst w0. split; [|split; [|split; [|split]]].
  - apply viewing_db. intros records w1 _.
    apply sameDb_then; [apply sameDb_computeEntriesDuration|]. intros tickets w2 _.
    destruct (Nat.eqb _ 0); [done|].
    apply keeps_listLoop; [exact sameDb_refl|exact sameDb_trans|exact sameDb_print].
  - apply viewing_db. intros records w1 _.
    apply sameDb_then; [apply sameDb_computeEntriesDuration|]. intros tickets w2 _.
    cbv zeta. destruct (Nat.eqb _ 0); [done|].
    apply keeps_reportLoop; [exact sameDb_refl|exact sameDb_trans|exact sameDb_print].
  - apply viewing_db. intros records w1 H.
    apply sameDb_then; [apply sameDb_computeEntriesDuration|]. intros tickets w2 HC.
    cbv zeta.
    pose proof (sameDb_computeEntriesDuration records w1) as [Hdb Hh].
    rewrite HC in Hdb, Hh. cbn [worldOf] in Hdb, Hh.
    pose proof (getRecords_again w records w1 w2 H Hh Hdb) as H2.
    rewrite (bind_Ok _ _ _ _ _ (getLastTicketTitle_unfold _ _ _ H2)).
    unfold bind, print.
    by destruct (String.eqb _ STOP_TOKEN), (0 <? _).
  - intros c first Hdb HR.
    destruct (String.eqb (home w) "") eqn:Hh.
    { unfold ensureCSVExists, bind, getDbPath. by rewrite Hh. }
    rewrite ensureCSVExists_unfold by done. cbv zeta. rewrite Hdb.
    unfold default; cbn [from_option id]. by rewrite HR.
  - intros Hh HR. rewrite ensureCSVExists_unfold by done. cbv zeta. by rewrite HR.
Qed.

(* ===================================================================== *)
(** * clear *)
(* ===================================================================== *)

Lemma ReadString_line l rest :
  noLF l = true -> ReadString Csv.LF (l +:+ nl +:+ rest) = (l +:+ nl, rest).
Proof.
  induction l as [|c l IH]; intros Hl.
  - reflexivity.
  - cbn [noLF] in Hl. apply andb_prop in Hl as [Hc Hl].
    rewrite !CsvLine.append_cons. cbn [ReadString].
    apply negb_true_iff in Hc. rewrite Hc, (IH Hl). done.
Qed.

Lemma world_stdout_app w a b :
  mkWorld (home w) (db w) (clock w) (tick w) ((stdout w ++ a) ++ b)
  = mkWorld (home w) (db w) (clock w) (tick w) (stdout w ++ a ++ b).
Proof. by rewrite <- app_assoc. Qed.

(** The loop asks again after a line that is no answer. *)
Lemma promptLoop_junk n junk : forall userEntry input w,
  Forall notAnAnswer junk -> (length junk <= n)%nat ->
  contains validEntries userEntry = false ->
  exists last,
    promptLoop n userEntry (typed junk +:+ input) w
    = promptLoop (n - length junk) last input
        (mkWorld (home w) (db w) (clock w) (tick w)
                 (stdout w ++ replicate (length junk) clearPrompt))
    /\ contains validEntries last = false.
Proof.
  revert n. induction junk as [|l junk IH]; intros n userEntry input w Hj Hn Hu.
  - exists userEntry. cbn [typed length replicate]. rewrite Nat.sub_0_r.
    by rewrite world_stdout_nil.
  - destruct n as [|n]; [cbn in Hn; lia|].
    apply Forall_cons in Hj as [[Hl Hinvalid] Hj].
    cbn [promptLoop typed length]. rewrite Hu. unfold bind at 1, print at 1.
    rewrite !append_assoc, (ReadString_line l _ Hl).
    destruct (IH n (l +:+ nl) input
                (mkWorld (home w) (db w) (clock w) (tick w) (stdout w ++ [clearPrompt]))
                Hj ltac:(cbn in Hn; lia) Hinvalid) as (last & Hrun & Hlast).
    exists last. split; [|done]. rewrite Hrun. cbn [home db clock tick stdout].
    cbn [Nat.sub replicate]. by rewrite <- app_assoc.
Qed.

(** An answer ends the loop. *)
Lemma promptLoop_answer n last answer rest w :
  contains validEntries last = false ->
  noLF answer = true -> contains validEntries (answer +:+ nl) = true ->
  promptLoop (S n) last (answer +:+ nl +:+ rest) w
  = Ok (answer +:+ nl)
       (mkWorld (home w) (db w) (clock w) (tick w) (stdout w ++ [clearPrompt])).
Proof.
  intros Hlast Hl Hvalid. cbn [promptLoop]. rewrite Hlast.
  unfold bind, print. rewrite (ReadString_line answer rest Hl).
  destruct n as [|n]; cbn [promptLoop]; [done|]. by rewrite Hvalid.
Qed.

Lemma promptLoop_typed junk answer rest w :
  Forall notAnAnswer junk -> (length junk <= 2)%nat ->
  noLF answer = true -> contains validEntries (answer +:+ nl) = true ->
  promptLoop 3 "" (typed junk +:+ answer +:+ nl +:+ rest) w
  = Ok (answer +:+ nl)
       (mkWorld (home w) (db w) (clock w) (tick w)
                (stdout w ++ replicate (S (length junk)) clearPrompt)).
Proof.
  intros Hj Hn Hl Hvalid.
  destruct (promptLoop_junk 3 junk "" (answer +:+ nl +:+ rest) w Hj ltac:(lia) eq_refl)
    as (last & -> & Hlast).
  destruct (3 - length junk)%nat as [|n] eqn:Hk; [lia|].
  rewrite (promptLoop_answer n last answer rest _ Hlast Hl Hvalid).
  cbn [home db clock tick stdout]. rewrite <- app_assoc.
  change (clearPrompt :: replicate (length junk) clearPrompt)
    with (replicate (S (length junk)) clearPrompt).
  by rewrite replicate_S_end.
Qed.

Lemma clearEntries_after_loop input w entry w1 :
  promptLoop 3 "" input w = Ok entry w1 ->
  clearEntries input w
  = if String.eqb entry ("y" +:+ nl) || String.eqb entry ("Y" +:+ nl) then
      (_ <- getDbPath ;;
       os_Truncate (String.length CSV_HEADER) ;;;
       println "Database cleared") w1
    else println "Command canceled" w1.
Proof.
  intros H. unfold clearEntries. rewrite (bind_Ok _ _ _ _ _ H).
  by destruct (_ || _).
Qed.

Lemma getRecords_header w :
  String.eqb (home w) "" = false -> db w = Some CSV_HEADER ->
  getRecords w = Ok [] w.
Proof.
  intros Hh Hdb.
  by rewrite (getRecords_initialised w CSV_HEADER ["timestamp"; "title"] Hh Hdb eq_refl).
Qed.

(** X11. [mate clear], confirmed: after at most two lines that are no
    answer, the line [y] or [Y] empties a database that starts with the
    header. The file is then the header alone, the ledger reads as empty,
    the question has been asked once for every line read, and whatever
    follows the answer on the input is not read. *)
Theorem clear_confirmed
    (junk : list string) (answer rest events : string) (w : World) :
  Forall notAnAnswer junk -> (length junk <= 2)%nat ->
  answer = "y" \/ answer = "Y" ->
  String.eqb (home w) "" = false ->
  db w = Some (CSV_HEADER +:+ events) ->
  exists w2,
    clearEntries (typed junk +:+ answer +:+ nl +:+ rest) w = Ok tt w2
    /\ db w2 = Some CSV_HEADER
    /\ stdout w2
       = stdout w ++ replicate (S (length junk)) clearPrompt
                  ++ ["Database cleared" +:+ nl]
    /\ getRecords w2 = Ok [] w2.
Proof.
  intros Hj Hn Ha Hh Hdb.
  assert (Hp := promptLoop_typed junk answer rest w Hj Hn).
  rewrite (clearEntries_after_loop _ _ _ _
             (Hp ltac:(by destruct Ha as [-> | ->]) ltac:(by destruct Ha as [-> | ->]))).
  assert (String.eqb (answer +:+ nl) ("y" +:+ nl)
          || String.eqb (answer +:+ nl) ("Y" +:+ nl) = true) as ->
    by (by destruct Ha as [-> | ->]).
  unfold bind, getDbPath, os_Truncate, println, print.
  cbn [home db clock tick stdout]. rewrite Hh, Hdb. cbv iota.
  cbn [home db clock tick stdout]. rewrite resizeFile_prefix.
  eexists. split; [reflexivity|]. cbn [db stdout].
  split; [done|]. split; [by rewrite <- app_assoc|].
  by apply getRecords_header.
Qed.

(** Ticket A in the database; the user types [yes], then [y]. *)
Lemma clear_confirmed_witness :
  exists w2,
    clearEntries ("yes" +:+ nl +:+ "y" +:+ nl) workingWorld = Ok tt w2
    /\ db w2 = Some CSV_HEADER
    /\ stdout w2 = [clearPrompt; clearPrompt; "Database cleared" +:+ nl]
    /\ getRecords w2 = Ok [] w2.
Proof.
  apply (clear_confirmed ["yes"] "y" "" (literalRecord "2024/03/05 09:15:00" "A")
           workingWorld).
  - constructor; [by split|constructor].
  - cbn. lia.
  - by left.
  - reflexivity.
  - reflexivity.
Defined.

Lemma promptLoop_exhausted junk rest w :
  Forall notAnAnswer junk -> length junk = 3%nat ->
  exists last,
    promptLoop 3 "" (typed junk +:+ rest) w
    = Ok last (mkWorld (home w) (db w) (clock w) (tick w)
                       (stdout w ++ replicate 3 clearPrompt))
    /\ contains validEntries last = false.
Proof.
  intros Hj Hn.
  destruct (promptLoop_junk 3 junk "" rest w Hj ltac:(lia) eq_refl)
    as (last & -> & Hlast).
  rewrite Hn. exists last. by split.
Qed.

Lemma not_valid_not_yes entry :
  contains validEntries entry = false ->
  String.eqb entry ("y" +:+ nl) || String.eqb entry ("Y" +:+ nl) = false.
Proof.
  unfold validEntries. cbn [contains]. rewrite !(String.eqb_sym _ entry).
  destruct (String.eqb entry ("y" +:+ nl)); [done|].
  destruct (String.eqb entry ("Y" +:+ nl)); done.
Qed.

(** X12. [mate clear], not confirmed. After at most two lines that are
    no answer, the line [n], [N] or an empty line cancels the command;
    three lines that are no answer cancel it too, and what follows them
    is not read, were it a [y]; and so does an input that is at its end.
    The question is asked once for every line read, three times at most,
    and the world is left as it was but for what has been printed:
    neither [HOME] nor the database file is looked at. *)
Theorem clear_cancelled (junk : list string) (answer rest : string) (w : World) :
  let cancelled (asked : nat) :=
    Ok tt (mkWorld (home w) (db w) (clock w) (tick w)
                   (stdout w ++ replicate asked clearPrompt
                             ++ ["Command canceled" +:+ nl])) in
  Forall notAnAnswer junk ->
  ((length junk <= 2)%nat -> answer = "n" \/ answer = "N" \/ answer = "" ->
     clearEntries (typed junk +:+ answer +:+ nl +:+ rest) w
     = cancelled (S (length junk)))
  /\ (length junk = 3%nat -> clearEntries (typed junk +:+ rest) w = cancelled 3%nat)
  /\ clearEntries "" w = cancelled 3%nat.
Proof.
  intros cancelled Hj. subst cancelled. split; [|split].
  - intros Hn Ha.
    assert (Hp := promptLoop_typed junk answer rest w Hj Hn).
    rewrite (clearEntries_after_loop _ _ _ _
               (Hp ltac:(by destruct Ha as [-> | [-> | ->]])
                   ltac:(by destruct Ha as [-> | [-> | ->]]))).
    assert (String.eqb (answer +:+ nl) ("y" +:+ nl)
            || String.eqb (answer +:+ nl) ("Y" +:+ nl) = false) as ->
      by (by destruct Ha as [-> | [-> | ->]]).
    unfold println, print. cbn [home db clock tick stdout]. by rewrite <- app_assoc.
  - intros Hn. destruct (promptLoop_exhausted junk rest w Hj Hn) as (last & Hp & Hlast).
    rewrite (clearEntries_after_loop _ _ _ _ Hp), (not_valid_not_yes _ Hlast).
    unfold println, print. cbn [home db clock tick stdout]. by rewrite <- app_assoc.
  - assert (Hp : promptLoop 3 "" "" w
                 = Ok "" (mkWorld (home w) (db w) (clock w) (tick w)
                            (((stdout w ++ [clearPrompt]) ++ [clearPrompt])
                             ++ [clearPrompt]))) by reflexivity.
    rewrite (clearEntries_after_loop _ _ _ _ Hp).
    change (String.eqb "" ("y" +:+ nl) || String.eqb "" ("Y" +:+ nl)) with false.
    unfold println, print. cbn [home db clock tick stdout replicate].
    by rewrite <- !app_assoc.
Qed.

(** The user types [maybe], [perhaps] and [later]; the [y] that follows
    comes too late. *)
Lemma clear_cancelled_witness :
  clearEntries ("maybe" +:+ nl +:+ "perhaps" +:+ nl +:+ "later" +:+ nl +:+ "y" +:+ nl)
               workingWorld
  = Ok tt (mkWorld "/home/mate" (Some workingLedger) (fun _ => noon) 0
                   [clearPrompt; clearPrompt; clearPrompt; "Command canceled" +:+ nl]).
Proof.
  apply (proj1 (proj2 (clear_cancelled ["maybe"; "perhaps"; "later"] "" ("y" +:+ nl)
                         workingWorld
                         ltac:(repeat (constructor; [by split|]); constructor)))).
  reflexivity.
Defined.

Lemma promptLoop_first answer rest w :
  answer = "y" \/ answer = "Y" ->
  promptLoop 3 "" (answer +:+ nl +:+ rest) w
  = Ok (answer +:+ nl)
       (mkWorld (home w) (db w) (clock w) (tick w) (stdout w ++ [clearPrompt])).
Proof.
  intros Ha.
  exact (promptLoop_answer 2 "" answer rest w eq_refl
           ltac:(by destruct Ha as [-> | ->]) ltac:(by destruct Ha as [-> | ->])).
Qed.

Lemma clearEntries_yes answer rest w :
  answer = "y" \/ answer = "Y" ->
  clearEntries (answer +:+ nl +:+ rest) w
  = (_ <- getDbPath ;;
     os_Truncate (String.length CSV_HEADER) ;;;
     println "Database cleared")
      (mkWorld (home w) (db w) (clock w) (tick w) (stdout w ++ [clearPrompt])).
Proof.
  intros Ha. rewrite (clearEntries_after_loop _ _ _ _ (promptLoop_first _ rest w Ha)).
  by destruct Ha as [-> | ->].
Qed.

(** X13. [mate clear], confirmed, where there is nothing to clear. A
    database file that does not exist is not created, as every other
    command would do: [os.Truncate] fails and the program ends with
    [log.Fatal]. So does it when [HOME] is not set, which is only looked
    at once the answer is [y] or [Y]. *)
Theorem clear_without_database (answer rest : string) (w : World) :
  answer = "y" \/ answer = "Y" ->
  let asked :=
    mkWorld (home w) (db w) (clock w) (tick w) (stdout w ++ [clearPrompt]) in
  (String.eqb (home w) "" = true ->
     clearEntries (answer +:+ nl +:+ rest) w = Fatal NoHome asked)
  /\ (String.eqb (home w) "" = false -> db w = None ->
        clearEntries (answer +:+ nl +:+ rest) w = Fatal NoFile asked
        /\ db (worldOf (getRecords w)) = Some CSV_HEADER).
Proof.
  intros Ha asked. rewrite (clearEntries_yes _ _ _ Ha). fold asked. split.
  - intros Hh. unfold bind, getDbPath. subst asked. cbn [home]. by rewrite Hh.
  - intros Hh Hdb. split.
    + unfold bind, getDbPath, os_Truncate. subst asked. cbn [home db].
      by rewrite Hh, Hdb.
    + rewrite getRecords_unfold by done. rewrite Hdb. reflexivity.
Qed.

(** A new installation. *)
Lemma clear_without_database_witness :
  clearEntries ("y" +:+ nl) freshWorld
  = Fatal NoFile (mkWorld "/home/mate" None (fun _ => noon) 0 [clearPrompt])
  /\ db (worldOf (getRecords freshWorld)) = Some CSV_HEADER.
Proof.
  exact (proj2 (clear_without_database "y" "" freshWorld (or_introl eq_refl))
           eq_refl eq_refl).
Defined.

Lemma resizeFile_length n : forall c, String.length (resizeFile n c) = n.
Proof.
  induction n as [|n IH]; intros c; [done|].
  destruct c as [|x c]; cbn [resizeFile String.length]; by rewrite IH.
Qed.

Lemma resizeFile_exact c : resizeFile (String.length c) c = c.
Proof. rewrite <- (CsvLine.append_empty_r c) at 2. apply resizeFile_prefix. Qed.

(** X14. [mate clear], confirmed, on any database file: the file is cut
    to the sixteen bytes of the header, the first sixteen bytes of what it
    held, with null bytes after them if it was shorter. It is the header
    only if the file started with it. A second [clear] changes nothing
    more. *)
Theorem clear_twice (answer answer' rest rest' c : string) (w : World) :
  answer = "y" \/ answer = "Y" -> answer' = "y" \/ answer' = "Y" ->
  String.eqb (home w) "" = false -> db w = Some c ->
  exists w1 w2,
    clearEntries (answer +:+ nl +:+ rest) w = Ok tt w1
    /\ db w1 = Some (resizeFile 16 c)
    /\ String.length (resizeFile 16 c) = 16%nat
    /\ clearEntries (answer' +:+ nl +:+ rest') w1 = Ok tt w2
    /\ db w2 = db w1.
Proof.
  intros Ha Ha' Hh Hdb.
  rewrite (clearEntries_yes _ _ _ Ha).
  unfold bind at 1 2, getDbPath at 1, os_Truncate at 1, println at 1, print at 1.
  cbn [home db clock tick stdout]. rewrite Hh, Hdb. cbv iota.
  cbn [home db clock tick stdout].
  eexists _, _. split; [reflexivity|]. cbn [db].
  split; [reflexivity|]. split; [apply resizeFile_length|].
  rewrite (clearEntries_yes _ _ _ Ha').
  unfold bind, getDbPath, os_Truncate, println, print.
  cbn [home db clock tick stdout]. rewrite Hh.
  split; [reflexivity|]. cbn [db]. f_equal.
  change (String.length CSV_HEADER) with 16%nat.
  rewrite <- (resizeFile_length 16 c) at 1. apply resizeFile_exact.
Qed.

(** A file of three letters, cleared twice. *)
Lemma clear_twice_witness :
  exists w1 w2,
    clearEntries ("y" +:+ nl) (setDb freshWorld "abc") = Ok tt w1
    /\ db w1 = Some (resizeFile 16 "abc")
    /\ String.length (resizeFile 16 "abc") = 16%nat
    /\ clearEntries ("Y" +:+ nl) w1 = Ok tt w2
    /\ db w2 = db w1.
Proof.
  apply (clear_twice "y" "Y" "" "" "abc" (setDb freshWorld "abc")).
  - by left.
  - by right.
  - reflexivity.
  - reflexivity.
Defined.

(* ===================================================================== *)
(** * The command line *)
(* ===================================================================== *)

Lemma printed_printed w a b : printed (printed w a) b = printed w (a ++ b).
Proof. unfold printed. cbn [home db clock tick stdout]. by rewrite <- app_assoc. Qed.

Lemma println_printed s w : println s w = Ok tt (printed w [s +:+ nl]).
Proof. reflexivity. Qed.

Lemma showErrorHelp_run w : showErrorHelp w = Ok tt (printed w helpLines).
Proof.
  unfold showErrorHelp, bind. rewrite !println_printed, !printed_printed.
  reflexivity.
Qed.

Lemma main_no_command mapRange program input w :
  main mapRange [program] input w = Exit 1 (printed w helpLines).
Proof.
  unfold main. cbv zeta. change (Nat.eqb (length [program]) 1) with true. cbv iota.
  unfold bind at 1 2. by rewrite showErrorHelp_run.
Qed.

Lemma main_too_many mapRange a b c d rest input w :
  main mapRange (a :: b :: c :: d :: rest) input w
  = Exit 1 (printed w ["Too much arguments provided." +:+ nl;
                       "(Use quotes for long titles)" +:+ nl]).
Proof.
  unfold main. cbv zeta.
  change (Nat.eqb (length (a :: b :: c :: d :: rest)) 1) with false.
  change (Nat.ltb 3 (length (a :: b :: c :: d :: rest))) with true. cbv iota.
  unfold bind, ret, os_Exit. rewrite !println_printed, !printed_printed.
  reflexivity.
Qed.

(** X15. The usage errors of [mate]: no command, more than two
    arguments after the name of the program, or a parameter given to a
    command that takes none ([stop], [log], [list], [info], [clear] and
    their short names). The run prints a message and ends with
    [os.Exit(1)]; it has not looked at [HOME], at the clock, at the input
    or at the database file, which is not even created. *)
Theorem main_usage_errors
    (mapRange : gmap string Duration -> list (string * Duration))
    (args : list string) (input : string) (w : World) :
  length args = 1%nat \/ (3 < length args)%nat
  \/ (exists program command parameter,
        args = [program; command; parameter] /\ In command plainCommands) ->
  exists lines,
    main mapRange args input w = Exit 1 (printed w lines) /\ lines <> [].
Proof.
  intros [H1 | [Hmany | (program & command & parameter & -> & Hin)]].
  - destruct args as [|program [|? ?]]; try done.
    exists helpLines. by rewrite main_no_command.
  - destruct args as [|a [|b [|c [|d rest]]]]; try (cbn in Hmany; lia).
    eexists. by rewrite main_too_many.
  - exists ["The " +:+ (if String.eqb command "x" then "stop"
                       else if String.eqb command "l" then "log"
                       else if String.eqb command "ll" then "list"
                       else if String.eqb command "i" then "info"
                       else command)
            +:+ " command does not take any parameter" +:+ nl].
    split; [|done].
    unfold plainCommands in Hin. cbn [In] in Hin.
    repeat (destruct Hin as [<- | Hin]; [reflexivity|]). done.
Qed.

(** [mate stop now] *)
Lemma main_usage_errors_witness :
  exists lines,
    main map_to_list ["mate"; "stop"; "now"] "" workingWorld
    = Exit 1 (printed workingWorld lines) /\ lines <> [].
Proof.
  apply (main_usage_errors map_to_list ["mate"; "stop"; "now"] "" workingWorld).
  right. right. exists "mate", "stop", "now". split; [reflexivity|].
  left. reflexivity.
Defined.

Lemma eqb_not_In (command : string) (names : list string) :
  ~ In command names -> forallb (fun name => negb (String.eqb command name)) names = true.
Proof.
  induction names as [|name names IH]; intros Hn; [done|]. cbn [forallb].
  rewrite IH by (intros Hin; apply Hn; by right).
  destruct (String.eqb command name) eqn:He; [|done].
  apply String.eqb_eq in He. destruct Hn. by left.
Qed.

(** X16. A command that [mate] does not know, alone or with one
    parameter: the run prints the same help as for no command at all,
    but it returns from [main], which ends the program with the status 0
    where no command ends it with [os.Exit(1)]. The database file is not
    looked at. *)
Theorem main_unknown_command
    (mapRange : gmap string Duration -> list (string * Duration))
    (program command : string) (parameters : list string) (input : string)
    (w : World) :
  ~ In command knownCommands -> (length parameters <= 1)%nat ->
  main mapRange (program :: command :: parameters) input w
  = Ok tt (printed w helpLines)
  /\ main mapRange [program] input w = Exit 1 (printed w helpLines).
Proof.
  intros Hunknown Hlen. split; [|apply main_no_command].
  apply eqb_not_In in Hunknown. unfold knownCommands, plainCommands in Hunknown.
  cbn [forallb] in Hunknown.
  repeat (apply andb_prop in Hunknown as [?%negb_true_iff Hunknown]).
  rewrite <- showErrorHelp_run.
  destruct parameters as [|parameter [|? ?]]; [| |cbn in Hlen; lia].
  - unfold main. cbv zeta. change (Nat.eqb (length [program; command]) 1) with false.
    change (Nat.ltb 3 (length [program; command])) with false. cbv iota.
    unfold bind, arg. cbn [lookup list_lookup]. unfold ret. cbv iota beta.
    repeat match goal with H : String.eqb command _ = false |- _ => rewrite H; clear H end.
    reflexivity.
  - unfold main. cbv zeta.
    change (Nat.eqb (length [program; command; parameter]) 1) with false.
    change (Nat.ltb 3 (length [program; command; parameter])) with false. cbv iota.
    unfold bind, arg. cbn [lookup list_lookup]. unfold ret. cbv iota beta.
    repeat match goal with H : String.eqb command _ = false |- _ => rewrite H; clear H end.
    reflexivity.
Qed.

(** [mate status] *)
Lemma main_unknown_command_witness :
  main map_to_list ["mate"; "status"] "" workingWorld
  = Ok tt (printed workingWorld helpLines)
  /\ main map_to_list ["mate"] "" workingWorld
     = Exit 1 (printed workingWorld helpLines).
Proof.
  apply (main_unknown_command map_to_list "mate" "status" [] "" workingWorld).
  - unfold knownCommands, plainCommands. cbn [In].
    intros H. repeat (destruct H as [H | H]; [discriminate H|]). exact H.
  - cbn. lia.
Defined.

(* ===================================================================== *)
(** * The database in use *)
(* ===================================================================== *)



Lemma readLedger_line c records now title ts :
  wellFormed c -> readLedger c = inr records ->
  plain now = true -> plain title = true -> Parse now = Some ts ->
  wellFormed (c +:+ literalRecord now title)
  /\ readLedger (c +:+ literalRecord now title) = inr (records ++ [mkRecord ts title]).
Proof.
  intros [Hnl (h0 & h1 & HR)] HL Hn Ht Hts.
  assert (Hp : exists rows m, Csv.parse c = Csv.Parsing rows m
                              /\ decodeRows (tail rows) [] = inr records).
  { unfold readLedger, Csv.ReadAll in HL.
    destruct (Csv.parse c) as [rows m|]; [|done]. by exists rows, m. }
  destruct Hp as (rows & m & Hp & Hd).
  pose proof (CsvAppend.parse_wellFormed_line c rows m h0 h1 now title Hnl Hp HR Hn Ht)
    as Hp2.
  rewrite (CsvFacts.Read_of_parse _ _ _ Hp) in HR.
  destruct rows as [|first rest]; [done|]. injection HR as ->.
  split; [split|].
  - apply CsvAppend.endsWithNewline_app, CsvAppend.literalRecord_endsWithNewline.
  - exists h0, h1. by rewrite (CsvFacts.Read_of_parse _ _ _ Hp2).
  - unfold readLedger, Csv.ReadAll. rewrite Hp2. cbn [app tail].
    rewrite decodeRows_app. cbn [tail] in Hd. rewrite Hd.
    cbn [decodeRows]. unfold decodeRow. cbn [lookup list_lookup]. by rewrite Hts.
Qed.

Lemma getRecords_wellFormed w c :
  String.eqb (home w) "" = false -> db w = Some c -> wellFormed c ->
  getRecords w = lift (readLedger c) w.
Proof.
  intros Hh Hdb [_ (h0 & h1 & HR)]. by apply (getRecords_initialised w c [h0; h1]).
Qed.

(** One more line in a database that is well formed. *)
Lemma writeTicket_then_read w c records title :
  String.eqb (home w) "" = false -> db w = Some c -> wellFormed c ->
  readLedger c = inr records -> plain title = true ->
  firstInstant <= clock w (tick w) < endInstant ->
  let line := literalRecord (Format (clock w (tick w))) title in
  let w2 := mkWorld (home w) (Some (c +:+ line)) (clock w) (S (tick w)) (stdout w) in
  writeTicket title w = Ok tt w2
  /\ wellFormed (c +:+ line)
  /\ readLedger (c +:+ line)
     = inr (records ++ [mkRecord (truncateToSecond (clock w (tick w))) title])
  /\ forall out, getRecords (printed w2 out)
     = Ok (records ++ [mkRecord (truncateToSecond (clock w (tick w))) title])
          (printed w2 out).
Proof.
  intros Hh Hdb Hwf HL Ht Hclock line w2.
  destruct (readLedger_line c records (Format (clock w (tick w))) title
              (truncateToSecond (clock w (tick w))) Hwf HL (Format_plain _) Ht
              (Parse_Format _ Hclock)) as [Hwf2 HL2].
  destruct Hwf as [_ (h0 & h1 & HR)].
  split; [by apply (writeTicket_initialised w c [h0; h1])|].
  split; [done|]. split; [done|]. intros out.
  rewrite (getRecords_wellFormed (printed w2 out) (c +:+ line)); [|done|done|done].
  fold line in HL2. by rewrite HL2.
Qed.

Lemma last_split {A} (records : list A) l :
  last records = Some l -> exists before, records = before ++ [l].
Proof.
  intros H. induction records as [|r rest _] using rev_ind; [done|].
  rewrite last_snoc in H. injection H as ->. by exists rest.
Qed.

Lemma pairSegments_snoc records l e :
  last records = Some l ->
  pairSegments (records ++ [e])
  = pairSegments records ++ [mkTicket (title l) (Sub (timestamp e) (timestamp l))].
Proof.
  induction records as [|r rest IH]; intros Hl; [done|].
  destruct rest as [|r' rest'].
  - cbn in Hl. injection Hl as ->. reflexivity.
  - rewrite last_cons_cons in Hl. specialize (IH Hl).
    change ((r :: r' :: rest') ++ [e]) with (r :: (r' :: rest') ++ [e]).
    change ((r' :: rest') ++ [e]) with (r' :: rest' ++ [e]) in *.
    cbn [pairSegments] in *. by rewrite IH.
Qed.

(** X18. Starting a ticket while the ledger has a last event, a stop or
    a ticket that is still open: [start] writes no stop of its own. The
    new event is the only one added, and in the segments computed
    afterwards the segment of the previous last event ends at the time of
    the start; the new ticket has the open segment, unless its title is
    the stop token. *)
Theorem start_closes_the_last_segment
    (w : World) (c : string) (records : list LogRecord) (l : LogRecord)
    (newTitle : string) :
  String.eqb (home w) "" = false -> db w = Some c -> wellFormed c ->
  readLedger c = inr records -> last records = Some l ->
  plain newTitle = true ->
  firstInstant <= clock w (tick w) < endInstant ->
  let started := truncateToSecond (clock w (tick w)) in
  exists w2 w3,
    startTicket newTitle w = Ok tt w2
    /\ getRecords w2 = Ok (records ++ [mkRecord started newTitle]) w2
    /\ computeEntriesDuration (records ++ [mkRecord started newTitle]) w2
       = Ok (pairSegments records
             ++ [mkTicket (title l) (Sub started (timestamp l))]
             ++ (if String.eqb newTitle STOP_TOKEN then []
                 else [mkTicket newTitle
                         (Sub (reparse (clock w (S (tick w)))) started)]))
            w3.
Proof.
  intros Hh Hdb Hwf HL Hl Ht Hclock started.
  destruct (writeTicket_then_read w c records newTitle Hh Hdb Hwf HL Ht Hclock)
    as (Hwrite & _ & _ & Hread).
  eexists _, _. split; [|split].
  - unfold startTicket. rewrite (bind_Ok _ _ _ _ _ Hwrite). reflexivity.
  - apply (Hread ["STARTING " +:+ newTitle +:+ nl]).
  - rewrite computeEntriesDuration_spec. f_equal.
    unfold computeSegments. rewrite (pairSegments_snoc _ _ _ Hl).
    rewrite <- app_assoc. f_equal. f_equal.
    unfold trailingSegment. rewrite last_snoc. cbn [title timestamp].
    by destruct (String.eqb newTitle STOP_TOKEN).
Qed.

(** Ticket B started at noon while ticket A is open since 9:15. *)
Lemma start_closes_the_last_segment_witness :
  exists w2 w3,
    startTicket "B" workingWorld = Ok tt w2
    /\ getRecords w2 = Ok ([eventA] ++ [mkRecord (truncateToSecond noon) "B"]) w2
    /\ computeEntriesDuration ([eventA] ++ [mkRecord (truncateToSecond noon) "B"]) w2
       = Ok (pairSegments [eventA]
             ++ [mkTicket "A" (Sub (truncateToSecond noon) (timestamp eventA))]
             ++ [mkTicket "B" (Sub (reparse noon) (truncateToSecond noon))])
            w3.
Proof.
  apply (start_closes_the_last_segment workingWorld workingLedger [eventA] eventA "B").
  - reflexivity.
  - reflexivity.
  - split; [reflexivity|]. exists "timestamp", "title". reflexivity.
  - vm_compute. reflexivity.
  - reflexivity.
  - reflexivity.
  - vm_compute. split; [discriminate|reflexivity].
Defined.

(** X19. A stop and then a start without a title, on a ledger whose
    last event is a ticket: the two commands add a stop and then an event
    with the title of that ticket, each at the time of its call, and
    nothing else; the ticket is resumed. *)
Theorem stop_then_resume
    (w : World) (c : string) (records : list LogRecord) (l : LogRecord) :
  String.eqb (home w) "" = false -> db w = Some c -> wellFormed c ->
  readLedger c = inr records -> last records = Some l ->
  title l <> STOP_TOKEN -> plain (title l) = true ->
  firstInstant <= clock w (tick w) < endInstant ->
  firstInstant <= clock w (S (tick w)) < endInstant ->
  exists w1 w2,
    stopTicket w = Ok tt w1
    /\ restartLastTicket w1 = Ok tt w2
    /\ getRecords w2
       = Ok (records
             ++ [mkRecord (truncateToSecond (clock w (tick w))) STOP_TOKEN;
                 mkRecord (truncateToSecond (clock w (S (tick w)))) (title l)]) w2
    /\ stdout w2
       = stdout w ++ ["STOPPING " +:+ title l +:+ nl; "STARTING " +:+ title l +:+ nl].
Proof.
  intros Hh Hdb Hwf HL Hl Hne Hplain Hclock Hclock'.
  assert (HG : getRecords w = Ok records w).
  { rewrite (getRecords_wellFormed w c Hh Hdb Hwf). by rewrite HL. }
  destruct (stopTicket_working _ _ _ _ HG Hl Hne) as (c0 & Hc0 & _ & Hstop).
  assert (c0 = c) as -> by congruence.
  destruct (writeTicket_then_read w c records STOP_TOKEN Hh Hdb Hwf HL
              STOP_TOKEN_plain Hclock) as (_ & Hwf1 & HL1 & Hread1).
  set (stopped := mkRecord (truncateToSecond (clock w (tick w))) STOP_TOKEN) in *.
  set (c1 := c +:+ literalRecord (Format (clock w (tick w))) STOP_TOKEN) in *.
  set (w1 := mkWorld (home w) (Some c1) (clock w) (S (tick w))
                     (stdout w ++ ["STOPPING " +:+ title l +:+ nl])) in *.
  specialize (Hread1 ["STOPPING " +:+ title l +:+ nl]).
  change (printed _ _) with w1 in Hread1.
  destruct (last_split _ _ Hl) as [before Hbefore].
  assert (Hresume : restartLastTicket w1 = startTicket (title l) w1).
  { rewrite (restartLastTicket_unfold _ _ _ Hread1).
    assert (Hshape : records ++ [stopped] = before ++ [l; stopped])
      by (by rewrite Hbefore, <- app_assoc).
    destruct (last_two before l stopped) as [Hlast Hpen].
    rewrite <- Hshape in Hlast, Hpen. rewrite Hlast, Hpen.
    apply String.eqb_neq in Hne.
    change (String.eqb (title stopped) STOP_TOKEN) with true. rewrite Hne.
    rewrite Hshape. by destruct before as [|? [|? ?]]. }
  destruct (writeTicket_then_read w1 c1 (records ++ [stopped]) (title l) Hh eq_refl
              Hwf1 HL1 Hplain Hclock') as (Hwrite2 & _ & _ & Hread2).
  pose proof (Hread2 ["STARTING " +:+ title l +:+ nl]) as HR2.
  rewrite <- app_assoc in HR2.
  exists w1. eexists. split; [exact Hstop|]. split; [|split].
  - rewrite Hresume. unfold startTicket. rewrite (bind_Ok _ _ _ _ _ Hwrite2).
    reflexivity.
  - exact HR2.
  - unfold print, w1. cbn [home db clock tick stdout]. by rewrite <- app_assoc.
Qed.

(** Ticket A, stopped and resumed at noon. *)
Lemma stop_then_resume_witness :
  exists w1 w2,
    stopTicket workingWorld = Ok tt w1
    /\ restartLastTicket w1 = Ok tt w2
    /\ getRecords w2
       = Ok ([eventA] ++ [mkRecord (truncateToSecond noon) STOP_TOKEN;
                          mkRecord (truncateToSecond noon) "A"]) w2
    /\ stdout w2 = [] ++ ["STOPPING A" +:+ nl; "STARTING A" +:+ nl].
Proof.
  apply (stop_then_resume workingWorld workingLedger [eventA] eventA).
  - reflexivity.
  - reflexivity.
  - split; [reflexivity|]. exists "timestamp", "title". reflexivity.
  - vm_compute. reflexivity.
  - reflexivity.
  - discriminate.
  - reflexivity.
  - vm_compute. split; [discriminate|reflexivity].
  - vm_compute. split; [discriminate|reflexivity].
Defined.

Lemma writeTicket_fresh w title :
  String.eqb (home w) "" = false -> default "" (db w) = "" ->
  writeTicket title w = writeTicket title (setDb w CSV_HEADER).
Proof.
  intros Hh Hdb. unfold writeTicket. unfold bind at 1 4.
  rewrite !ensureCSVExists_unfold by done. cbv zeta. rewrite Hdb.
  reflexivity.
Qed.

Lemma main_start mapRange program command newTitle input w :
  command = "start" \/ command = "s" ->
  main mapRange [program; command; newTitle] input w = startTicket newTitle w.
Proof. by intros [-> | ->]. Qed.

(** X20. The first use: [mate start] with a title, under either name of
    the command, when the database file does not exist or is empty. The
    file is created with the header and the new event after it, the
    start is reported, and the ledger then reads as this one event, at
    the time of the call cut down to the second. *)
Theorem first_start
    (mapRange : gmap string Duration -> list (string * Duration))
    (program command newTitle input : string) (w : World) :
  command = "start" \/ command = "s" ->
  String.eqb (home w) "" = false -> db w = None \/ db w = Some "" ->
  plain newTitle = true ->
  firstInstant <= clock w (tick w) < endInstant ->
  exists w2,
    main mapRange [program; command; newTitle] input w = Ok tt w2
    /\ db w2 = Some (CSV_HEADER +:+ literalRecord (Format (clock w (tick w))) newTitle)
    /\ stdout w2 = stdout w ++ ["STARTING " +:+ newTitle +:+ nl]
    /\ getRecords w2 = Ok [mkRecord (truncateToSecond (clock w (tick w))) newTitle] w2.
Proof.
  intros Hc Hh Hdb Ht Hclock. rewrite (main_start _ _ _ _ _ _ Hc).
  assert (Hempty : default "" (db w) = "") by (by destruct Hdb as [-> | ->]).
  destruct (writeTicket_then_read (setDb w CSV_HEADER) CSV_HEADER [] newTitle Hh eq_refl
              (proj1 fresh_ledger_wellFormed) (proj2 fresh_ledger_wellFormed) Ht Hclock)
    as (Hwrite & _ & _ & Hread).
  rewrite <- (writeTicket_fresh w newTitle Hh Hempty) in Hwrite.
  eexists. split; [|split; [|split]].
  - unfold startTicket. rewrite (bind_Ok _ _ _ _ _ Hwrite). reflexivity.
  - reflexivity.
  - reflexivity.
  - apply (Hread ["STARTING " +:+ newTitle +:+ nl]).
Qed.

(** [mate s A] on a new installation, at noon. *)
Lemma first_start_witness :
  exists w2,
    main map_to_list ["mate"; "s"; "A"] "" freshWorld = Ok tt w2
    /\ db w2 = Some (CSV_HEADER +:+ literalRecord "2024/03/05 12:00:00" "A")
    /\ stdout w2 = [] ++ ["STARTING A" +:+ nl]
    /\ getRecords w2 = Ok [mkRecord (truncateToSecond noon) "A"] w2.
Proof.
  apply (first_start map_to_list "mate" "s" "A" "" freshWorld).
  - by right.
  - reflexivity.
  - by left.
  - reflexivity.
  - vm_compute. split; [discriminate|reflexivity].
Defined.

(** X21. The stop token is not refused as a title. On a ledger whose
    last event is a ticket, [mate start] with the stop token for a title
    leaves the same file as [mate stop]: the session is stopped, though
    the one reports a start and the other a stop. *)
Theorem start_of_the_stop_token
    (w : World) (c : string) (records : list LogRecord) (l : LogRecord) :
  String.eqb (home w) "" = false -> db w = Some c -> wellFormed c ->
  readLedger c = inr records -> last records = Some l -> title l <> STOP_TOKEN ->
  firstInstant <= clock w (tick w) < endInstant ->
  exists w1 w2,
    startTicket STOP_TOKEN w = Ok tt w1
    /\ stopTicket w = Ok tt w2
    /\ db w1 = db w2
    /\ stdout w1 = stdout w ++ ["STARTING " +:+ STOP_TOKEN +:+ nl]
    /\ stdout w2 = stdout w ++ ["STOPPING " +:+ title l +:+ nl]
    /\ getLastTicketTitle w1 = Ok STOP_TOKEN w1
    /\ exists records', getRecords w1 = Ok records' w1 /\ isWorking records' = false.
Proof.
  intros Hh Hdb Hwf HL Hl Hne Hclock.
  assert (HG : getRecords w = Ok records w).
  { rewrite (getRecords_wellFormed w c Hh Hdb Hwf). by rewrite HL. }
  destruct (stopTicket_working _ _ _ _ HG Hl Hne) as (c0 & Hc0 & _ & Hstop).
  assert (c0 = c) as -> by congruence.
  destruct (writeTicket_then_read w c records STOP_TOKEN Hh Hdb Hwf HL
              STOP_TOKEN_plain Hclock) as (Hwrite & _ & _ & Hread).
  specialize (Hread ["STARTING " +:+ STOP_TOKEN +:+ nl]).
  set (w1 := printed _ _) in Hread.
  exists w1. eexists. split; [|split; [exact Hstop|]].
  - unfold startTicket. rewrite (bind_Ok _ _ _ _ _ Hwrite). reflexivity.
  - split; [reflexivity|]. split; [reflexivity|]. split; [reflexivity|]. split.
    + rewrite (getLastTicketTitle_unfold _ _ _ Hread). by rewrite last_snoc.
    + eexists. split; [exact Hread|]. unfold isWorking. by rewrite last_snoc.
Qed.

(** Ticket A is open. *)
Lemma start_of_the_stop_token_witness :
  exists w1 w2,
    startTicket STOP_TOKEN workingWorld = Ok tt w1
    /\ stopTicket workingWorld = Ok tt w2
    /\ db w1 = db w2
    /\ stdout w1 = [] ++ ["STARTING " +:+ STOP_TOKEN +:+ nl]
    /\ stdout w2 = [] ++ ["STOPPING A" +:+ nl]
    /\ getLastTicketTitle w1 = Ok STOP_TOKEN w1
    /\ exists records', getRecords w1 = Ok records' w1 /\ isWorking records' = false.
Proof.
  apply (start_of_the_stop_token workingWorld workingLedger [eventA] eventA).
  - reflexivity.
  - reflexivity.
  - split; [reflexivity|]. exists "timestamp", "title". reflexivity.
  - vm_compute. reflexivity.
  - reflexivity.
  - discriminate.
  - vm_compute. split; [discriminate|reflexivity].
Defined.

(* ===================================================================== *)
(** * How a run ends *)
(* ===================================================================== *)

Section Outcomes.

Context (bad : Fault + Z -> Prop).

Lemma never_ret {A} (a : A) : never bad (ret a).
Proof. by intros w. Qed.

Lemma never_bind {A B} (m : M A) (k : A -> M B) :
  never bad m -> (forall a, never bad (k a)) -> never bad (bind m k).
Proof.
  intros Hm Hk w. unfold bind. specialize (Hm w).
  destruct (m w) as [a w1|code w1|f w1]; [apply Hk|done|done].
Qed.

Lemma never_print s : never bad (print s).
Proof. by intros w. Qed.

Lemma never_println s : never bad (println s).
Proof. by intros w. Qed.

Lemma never_time_Now : never bad time_Now.
Proof. by intros w. Qed.

Lemma never_computeEntriesDuration records : never bad (computeEntriesDuration records).
Proof. intros w. by rewrite computeEntriesDuration_spec. Qed.

Lemma never_listLoop tickets : never bad (listLoop tickets).
Proof. intros w. by rewrite listLoop_run. Qed.

Lemma never_reportLoop entries : never bad (reportLoop entries).
Proof. intros w. by rewrite reportLoop_run. Qed.

Lemma never_showErrorHelp : never bad showErrorHelp.
Proof. intros w. by rewrite showErrorHelp_run. Qed.

Lemma never_promptLoop remaining userEntry input :
  never bad (promptLoop remaining userEntry input).
Proof.
  intros w. by destruct (promptLoop_Ok remaining userEntry input w) as (entry & w1 & ->).
Qed.

(** The faults of the environment and of the file are not among [bad]. *)
Hypothesis bad_fault : forall f, f <> IndexPanic -> ~ bad (inl f).

Lemma never_getDbPath : never bad getDbPath.
Proof.
  intros w. unfold getDbPath. destruct (String.eqb _ _); [|done]. by apply bad_fault.
Qed.

Lemma never_openFile create : never bad (openFile create).
Proof.
  intros w. unfold openFile. destruct (db w); [done|].
  destruct create; [done|]. by apply bad_fault.
Qed.

Lemma never_writeAtEnd s : never bad (writeAtEnd s).
Proof. intros w. unfold writeAtEnd. destruct (db w); [done|]. by apply bad_fault. Qed.

Lemma never_os_Truncate size : never bad (os_Truncate size).
Proof. intros w. unfold os_Truncate. destruct (db w); [done|]. by apply bad_fault. Qed.

Lemma never_ensureCSVExists : never bad ensureCSVExists.
Proof.
  unfold ensureCSVExists. apply never_bind; [apply never_getDbPath|]. intros _.
  apply never_bind; [apply never_openFile|]. intros content.
  destruct (Csv.Read content); [apply never_ret|apply never_writeAtEnd|].
  intros w. by apply bad_fault.
Qed.

Lemma never_writeTicket newTitle : never bad (writeTicket newTitle).
Proof.
  unfold writeTicket. apply never_bind; [apply never_ensureCSVExists|]. intros _.
  apply never_bind; [apply never_time_Now|]. intros t. cbv zeta.
  apply never_bind; [apply never_getDbPath|]. intros _. apply never_writeAtEnd.
Qed.

Lemma never_startTicket newTitle : never bad (startTicket newTitle).
Proof.
  unfold startTicket. apply never_bind; [apply never_writeTicket|]. intros _.
  apply never_print.
Qed.

Lemma never_clearEntries input : never bad (clearEntries input).
Proof.
  unfold clearEntries. apply never_bind; [apply never_promptLoop|]. intros entry.
  destruct (_ || _); [|apply never_println].
  apply never_bind; [apply never_getDbPath|]. intros _.
  apply never_bind; [apply never_os_Truncate|]. intros _. apply never_println.
Qed.

(** Nor is a panic. *)
Hypothesis bad_panic : ~ bad (inl IndexPanic).

Lemma never_fatal {A} f : never bad (@fatal A f).
Proof.
  intros w. unfold fatal. destruct f; try (by apply bad_fault). done.
Qed.


Lemma never_getRecords : never bad getRecords.
Proof.
  intros w. destruct (String.eqb (home w) "") eqn:Hh.
  - rewrite getRecords_NoHome by done. by apply bad_fault.
  - rewrite getRecords_unfold by done. cbv zeta.
    destruct (Csv.Read _); [| |by apply bad_fault];
      unfold lift; destruct (readLedger _) as [f|records]; try done;
      apply (@never_fatal unit f w).
Qed.






(** Nor is [os.Exit(1)]. *)
Hypothesis bad_exit : ~ bad (inr 1).

Lemma never_restartLastTicket : never bad restartLastTicket.
Proof.
  intros w. pose proof (never_getRecords w) as HG.
  destruct (getRecords w) as [records w1|code w1|f w1] eqn:H.
  - rewrite (restartLastTicket_unfold _ _ _ H).
    assert (Hfails : forall e, match fails e w1 with
                               | Ok _ _ => True
                               | Exit code _ => ~ bad (inr code)
                               | Fatal f _ => ~ bad (inl f)
                               end).
    { intros e. by destruct (fails_Exit e w1) as [out ->]. }
    destruct records as [|r0 [|r1 rest]]; [apply Hfails| |].
    + destruct (String.eqb _ _); apply Hfails.
    + destruct (last _) as [l|]; [|done].
      destruct (_ !! _) as [p|]; [|done].
      destruct (String.eqb (title l) STOP_TOKEN); [|apply Hfails].
      destruct (String.eqb (title p) STOP_TOKEN); [apply Hfails|].
      apply never_startTicket.
  - by apply getRecords_not_Exit in H.
  - pose proof (restartLastTicket_stops w) as HS. rewrite H in HS. by rewrite HS.
Qed.

End Outcomes.

(** The ways [main] goes, by the shape of the command line. *)
Lemma main_cases mapRange args input w :
  (exists lines, main mapRange args input w = Exit 1 (printed w lines))
  \/ (args = [] /\ main mapRange args input w = Fatal IndexPanic w)
  \/ (exists newTitle, main mapRange args input w = startTicket newTitle w)
  \/ main mapRange args input w = restartLastTicket w
  \/ main mapRange args input w = stopTicket w
  \/ main mapRange args input w = showReport mapRange w
  \/ main mapRange args input w = listEntries w
  \/ main mapRange args input w = showInfo w
  \/ main mapRange args input w = clearEntries input w
  \/ main mapRange args input w = showErrorHelp w.
Proof.
  destruct args as [|program [|command [|parameter [|d rest]]]].
  - right. left. by split.
  - left. eexists. apply main_no_command.
  - do 2 right.
    assert (Hmain : main mapRange [program; command] input w
      = (if String.eqb command "start" || String.eqb command "s" then restartLastTicket
         else if String.eqb command "stop" || String.eqb command "x" then stopTicket
         else if String.eqb command "log" || String.eqb command "l" then showReport mapRange
         else if String.eqb command "list" || String.eqb command "ll" then listEntries
         else if String.eqb command "info" || String.eqb command "i" then showInfo
         else if String.eqb command "clear" then clearEntries input
         else showErrorHelp) w) by reflexivity.
    rewrite Hmain.
    destruct (_ || _); [by auto 10|]. destruct (_ || _); [by auto 10|].
    destruct (_ || _); [by auto 10|]. destruct (_ || _); [by auto 10|].
    destruct (_ || _); [by auto 10|]. destruct (String.eqb _ _); by auto 10.
  - assert (Hmain : main mapRange [program; command; parameter] input w
      = (if String.eqb command "start" || String.eqb command "s" then startTicket parameter
         else
           let refuse name :=
             println ("The " +:+ name +:+ " command does not take any parameter") ;;;
             os_Exit 1 in
           if String.eqb command "stop" || String.eqb command "x" then refuse "stop"
           else if String.eqb command "log" || String.eqb command "l" then refuse "log"
           else if String.eqb command "list" || String.eqb command "ll" then refuse "list"
           else if String.eqb command "info" || String.eqb command "i" then refuse "info"
           else if String.eqb command "clear" then refuse "clear"
           else showErrorHelp) w) by reflexivity.
    rewrite Hmain. cbv zeta.
    destruct (_ || _); [right; right; left; by eexists|].
    destruct (_ || _); [left; by eexists|]. destruct (_ || _); [left; by eexists|].
    destruct (_ || _); [left; by eexists|]. destruct (_ || _); [left; by eexists|].
    destruct (String.eqb _ _); [left; by eexists|]. by auto 10.
  - left. eexists. apply main_too_many.
Qed.







(** ** No index out of range *)

Lemma uniform_emit recs fs : uniform recs -> uniform (Csv.recsOf (Csv.emit recs fs)).
Proof.
  unfold Csv.emit. destruct recs as [|first rest]; [by constructor|].
  intros Hu. destruct (Nat.eqb_spec (length fs) (length first)) as [He|_]; [|done].
  cbn [Csv.recsOf app uniform] in *. apply Forall_app. split; [done|].
  by constructor.
Qed.

Lemma uniform_feed p c :
  uniform (Csv.recsOf p) -> uniform (Csv.recsOf (Csv.feed p c)).
Proof.
  intros Hu. destruct p as [recs m|recs e]; [|done]. cbn [Csv.recsOf] in Hu.
  unfold Csv.feed.
  destruct m as [|fs|fs cur|fs cur|fs cur];
    repeat match goal with
           | |- context [if ?b then _ else _] => destruct b
           end;
    first [exact Hu | by apply uniform_emit].
Qed.

Lemma uniform_step s c :
  uniform (Csv.recsOf (fst s)) -> uniform (Csv.recsOf (fst (Csv.step s c))).
Proof.
  intros Hu. destruct s as [p held]. unfold Csv.step. cbn [fst] in Hu.
  destruct held;
    repeat match goal with
           | |- context [if ?b then _ else _] => destruct b
           end;
    cbn [fst]; repeat apply uniform_feed; exact Hu.
Qed.

Lemma uniform_run input : forall s,
  uniform (Csv.recsOf (fst s)) -> uniform (Csv.recsOf (fst (Csv.run s input))).
Proof.
  induction input as [|c rest IH]; intros s Hu; [done|].
  cbn [Csv.run]. by apply IH, uniform_step.
Qed.

Lemma uniform_parse input : uniform (Csv.recsOf (Csv.parse input)).
Proof.
  unfold Csv.parse, Csv.finish.
  pose proof (uniform_run input Csv.start I) as Hu.
  destruct (fst (Csv.run Csv.start input)) as [recs m|recs e]; [|done].
  cbn [Csv.recsOf] in Hu. destruct m; first [exact Hu | by apply uniform_emit].
Qed.

Lemma decodeRows_two rows : forall acc,
  Forall (fun r : list string => length r = 2%nat) rows ->
  decodeRows rows acc <> inl IndexPanic.
Proof.
  induction rows as [|row rows IH]; intros acc Hrows; [done|].
  apply Forall_cons in Hrows as [Hrow Hrows]. cbn [decodeRows]. unfold decodeRow.
  destruct row as [|f0 [|f1 [|? ?]]]; try done. cbn [lookup list_lookup].
  destruct (Parse f0); [by apply IH|done].
Qed.

Lemma Read_headed rest :
  Csv.Read (CSV_HEADER +:+ rest) = Csv.ReadRecord ["timestamp"; "title"].
Proof. by apply (CsvFacts.Read_stable CSV_HEADER rest _ []). Qed.

(** Under a header of two columns every row has two fields. *)
Lemma readLedger_headed rest : readLedger (CSV_HEADER +:+ rest) <> inl IndexPanic.
Proof.
  unfold readLedger, Csv.ReadAll.
  pose proof (uniform_parse (CSV_HEADER +:+ rest)) as Hu.
  pose proof (Read_headed rest) as HR.
  destruct (Csv.parse (CSV_HEADER +:+ rest)) as [rows m|rows e] eqn:Hp; [|done].
  rewrite (CsvFacts.Read_of_parse _ _ _ Hp) in HR. cbn [Csv.recsOf] in Hu.
  destruct rows as [|first rows]; [done|]. injection HR as ->.
  cbn [tail]. by apply decodeRows_two.
Qed.

Lemma getRecords_headed w w' : headed w -> getRecords w <> Fatal IndexPanic w'.
Proof.
  intros Hw. destruct (String.eqb (home w) "") eqn:Hh.
  { by rewrite getRecords_NoHome. }
  rewrite getRecords_unfold by done. cbv zeta.
  destruct Hw as [Hdb|[rest Hdb]]; rewrite Hdb; unfold default; cbn [from_option id].
  - done.
  - rewrite Read_headed. unfold lift.
    pose proof (readLedger_headed rest) as HL.
    destruct (readLedger _) as [f|records]; [|done]. congruence.
Qed.

Lemma indexPanic_fault f : f <> IndexPanic -> ~ indexPanic (inl f).
Proof. unfold indexPanic. congruence. Qed.

Lemma indexPanic_exit code : ~ indexPanic (inr code).
Proof. done. Qed.

Lemma no_panic {A} (m : M A) w w' : never indexPanic m -> m w <> Fatal IndexPanic w'.
Proof. intros Hm H. specialize (Hm w). rewrite H in Hm. by apply Hm. Qed.

(** A command that reads the ledger first does not panic if the read
    does not and what follows does not. *)
Lemma no_panic_after_read {A} (k : list LogRecord -> M A) w w' :
  headed w ->
  (forall records w1 w2, getRecords w = Ok records w1 ->
     k records w1 <> Fatal IndexPanic w2) ->
  bind getRecords k w <> Fatal IndexPanic w'.
Proof.
  intros Hw Hk. unfold bind.
  pose proof (getRecords_headed w w' Hw) as HG.
  destruct (getRecords w) as [records w1|code w1|f w1] eqn:H; [by apply Hk|done|].
  congruence.
Qed.

Lemma restartLastTicket_no_panic w w' : headed w -> restartLastTicket w <> Fatal IndexPanic w'.
Proof.
  intros Hw HE. pose proof (restartLastTicket_stops w) as HS.
  destruct (getRecords w) as [records w1|? ?|f w1] eqn:H; [|done|].
  - rewrite (restartLastTicket_unfold _ _ _ H) in HE.
    assert (Hfail : forall e, fails e w1 <> Fatal IndexPanic w').
    { intros e. by destruct (fails_Exit e w1) as [out ->]. }
    destruct records as [|r0 [|r1 rest]]; [by apply Hfail in HE| |].
    + destruct (String.eqb (title r0) STOP_TOKEN); by apply Hfail in HE.
    + destruct (last_cons_Some r0 (r1 :: rest)) as [l Hl]. rewrite Hl in HE.
      destruct (lookup_lt_is_Some_2 (r0 :: r1 :: rest) (length (r0 :: r1 :: rest) - 2))
        as [p Hp]; [cbn; lia|].
      rewrite Hp in HE.
      destruct (String.eqb (title l) STOP_TOKEN); [|by apply Hfail in HE].
      destruct (String.eqb (title p) STOP_TOKEN); [by apply Hfail in HE|].
      by apply (no_panic _ _ _ (never_startTicket indexPanic indexPanic_fault (title p))) in HE.
  - rewrite HS in HE. injection HE as -> ->. by apply getRecords_headed in H.
Qed.

(** X23. [mate] does not panic on an index out of range when it is run
    with its name first on the command line (as the system does) on a
    database that does not exist or starts with the header: the
    arguments, the fields of a row and the last events are read within
    bounds. Without any argument [os.Args[1]] is out of range; and under
    a header of a single column the first row makes [getRecords] panic. *)
Theorem main_never_panics
    (mapRange : gmap string Duration -> list (string * Duration))
    (args : list string) (input : string) (w : World) :
  (args <> [] -> headed w ->
     forall w', main mapRange args input w <> Fatal IndexPanic w')
  /\ main mapRange [] input w = Fatal IndexPanic w
  /\ listEntries oneColumnWorld = Fatal IndexPanic oneColumnWorld.
Proof.
  split; [|split; [reflexivity|vm_compute; reflexivity]].
  intros Hargs Hw w'.
  destruct (main_cases mapRange args input w)
    as [[lines H]|[[H _]|[[t H]|[H|[H|[H|[H|[H|[H|H]]]]]]]]]; try rewrite H.
  - done.
  - done.
  - apply no_panic, never_startTicket, indexPanic_fault.
  - by apply restartLastTicket_no_panic.
  - apply no_panic_after_read; [done|]. intros records w1 w2 _.
    destruct (match last records with Some l => _ | None => _ end) as [working l].
    destruct working; [|done].
    apply no_panic, never_bind; [apply never_writeTicket, indexPanic_fault|].
    intros _. apply never_print.
  - apply no_panic_after_read; [done|]. intros records w1 w2 _.
    apply no_panic, never_bind; [apply never_computeEntriesDuration|].
    intros segments. cbv zeta.
    destruct (Nat.eqb _ 0); [apply never_println|apply never_reportLoop].
  - apply no_panic_after_read; [done|]. intros records w1 w2 _.
    apply no_panic, never_bind; [apply never_computeEntriesDuration|].
    intros tickets.
    destruct (Nat.eqb _ 0); [apply never_println|apply never_listLoop].
  - apply no_panic_after_read; [done|]. intros records w1 w2 HG.
    destruct (computeEntriesDuration_world records w1) as (w3 & HC & Hh & Hdb & _).
    rewrite (bind_Ok _ _ _ _ _ HC). cbv zeta.
    pose proof (getRecords_again w records w1 w3 HG Hh Hdb) as HG3.
    rewrite (bind_Ok _ _ _ _ _ (getLastTicketTitle_unfold _ _ _ HG3)).
    unfold bind, print. by destruct (String.eqb _ _), (0 <? _).
  - apply no_panic, never_clearEntries, indexPanic_fault.
  - by rewrite showErrorHelp_run.
Qed.

(** ** A ledger that does not read *)

Lemma after_read_Fatal {A} (k : list LogRecord -> M A) w f w1 :
  getRecords w = Fatal f w1 -> bind getRecords k w = Fatal f w1.
Proof. intros H. unfold bind. by rewrite H. Qed.

(** X24. When [getRecords] ends with [log.Fatal] or a panic (no [HOME],
    a file that is no CSV, a timestamp that does not parse, a row that
    is too short), so do [stop], [start] without a title, [list], [log]
    and [info], in the same way and without writing. [start] with a
    title does not read the ledger: as long as [HOME] is set and the
    first record of the file reads, it goes on adding events to a ledger
    that no command can read. Without [HOME] it fails as well. *)
Theorem commands_fail_with_the_ledger
    (mapRange : gmap string Duration -> list (string * Duration))
    (w : World) (f : Fault) (w1 : World) :
  getRecords w = Fatal f w1 ->
  (stopTicket w = Fatal f w1
   /\ restartLastTicket w = Fatal f w1
   /\ listEntries w = Fatal f w1
   /\ showReport mapRange w = Fatal f w1
   /\ showInfo w = Fatal f w1
   /\ getLastTicketTitle w = Fatal f w1)
  /\ db w1 = db (worldOf (ensureCSVExists w))
  /\ (forall newTitle c first,
        String.eqb (home w) "" = false -> db w = Some c ->
        Csv.Read c = Csv.ReadRecord first ->
        startTicket newTitle w
        = Ok tt (printed
                   (mkWorld (home w)
                      (Some (c +:+ literalRecord (Format (clock w (tick w))) newTitle))
                      (clock w) (S (tick w)) (stdout w))
                   ["STARTING " +:+ newTitle +:+ nl]))
  /\ (forall newTitle,
        String.eqb (home w) "" = true ->
        f = NoHome /\ w1 = w /\ startTicket newTitle w = Fatal NoHome w).
Proof.
  intros H. split; [|split; [|split]].
  - repeat split; by apply after_read_Fatal.
  - by rewrite <- getRecords_db, H.
  - intros newTitle c first Hh Hdb HR.
    by rewrite (startTicket_initialised w c first).
  - intros newTitle Hh. rewrite getRecords_NoHome in H by done.
    injection H as <- <-. split; [done|]. split; [done|].
    unfold startTicket, writeTicket, bind, ensureCSVExists, bind, getDbPath.
    by rewrite Hh.
Qed.

(** A title with a double quote has been written. *)
Lemma commands_fail_with_the_ledger_witness :
  getRecords brokenWorld = Fatal (CsvFault Csv.ErrQuote) brokenWorld
  /\ stopTicket brokenWorld = Fatal (CsvFault Csv.ErrQuote) brokenWorld
  /\ showInfo brokenWorld = Fatal (CsvFault Csv.ErrQuote) brokenWorld
  /\ exists w2, startTicket "B" brokenWorld = Ok tt w2.
Proof.
  assert (H : getRecords brokenWorld = Fatal (CsvFault Csv.ErrQuote) brokenWorld)
    by (vm_compute; reflexivity).
  destruct (commands_fail_with_the_ledger map_to_list _ _ _ H)
    as ((Hstop & _ & _ & _ & Hinfo & _) & _ & Hstart & _).
  split; [exact H|]. split; [exact Hstop|]. split; [exact Hinfo|].
  eexists. exact (Hstart "B" _ ["timestamp"; "title"] eq_refl eq_refl eq_refl).
Defined.

(* ===================================================================== *)
(** * resume, case by case *)
(* ===================================================================== *)

Lemma truncateToSecond_explicit t : truncateToSecond t = t - t mod 1000000000.
Proof.
  unfold truncateToSecond, Second.
  pose proof (Z.div_mod t 1000000000 ltac:(lia)). lia.
Qed.

(** C2. What [restartLastTicket] does on a ledger whose events are
    [records], case by case. Each failure prints its message and ends the
    program with [os.Exit(1)], the database file and the clock left as
    they were read. No event: [NoHistoryError]. Exactly one event:
    [NoPreviousTicketError] when its title is the stop token, and
    [AlreadyWorkingError] with that title otherwise. Two events or more:
    [AlreadyWorkingError] with the last title when it is not the stop
    token; [NoPreviousTicketError] when the last title and the one before
    it are both the stop token; and when the last title is the stop token
    and the one before it is not, the call is [startTicket] of that
    title: it appends the record line of that title at the time of the
    call and reports the start. The title is then the new last event of
    the ledger when the file is well formed, the title has no double
    quote and no carriage return in it and the clock shows a year from
    0000 to 9999. *)
Theorem restartLastTicket_cases (w : World) (records : list LogRecord) (w1 : World) :
  getRecords w = Ok records w1 ->
  let exits (lines : list string) : Res unit :=
    Exit 1 (mkWorld (home w1) (db w1) (clock w1) (tick w1) (stdout w1 ++ lines)) in
  let noHistory :=
    exits ["No entry saved for now. Run:" +:+ nl +:+ "$ mate start "
           +:+ quote +:+ "Ticket title" +:+ quote +:+ nl] in
  let noPreviousTicket :=
    exits ["Can not find a previous ticket to restart. Run:" +:+ nl;
           "$ mate start " +:+ quote +:+ "Ticket title" +:+ quote +:+ nl] in
  let alreadyWorking (currentTicketTitle : string) :=
    exits ["You are currently working on: " +:+ currentTicketTitle +:+ nl] in
  (fails NoHistoryError w1 = noHistory
   /\ fails NoPreviousTicketError w1 = noPreviousTicket
   /\ forall t, fails (AlreadyWorkingError t) w1 = alreadyWorking t)
  /\ (records = [] -> restartLastTicket w = noHistory)
  /\ (forall r, records = [r] ->
        (title r = STOP_TOKEN -> restartLastTicket w = noPreviousTicket)
        /\ (title r <> STOP_TOKEN -> restartLastTicket w = alreadyWorking (title r)))
  /\ (forall before penultimate l, records = before ++ [penultimate; l] ->
        (title l <> STOP_TOKEN -> restartLastTicket w = alreadyWorking (title l))
        /\ (title l = STOP_TOKEN -> title penultimate = STOP_TOKEN ->
              restartLastTicket w = noPreviousTicket)
        /\ (title l = STOP_TOKEN -> title penultimate <> STOP_TOKEN ->
              exists c,
                let started := clock w (tick w) - clock w (tick w) mod 1000000000 in
                let w2 :=
                  mkWorld (home w)
                    (Some (c +:+ quote +:+ Format (clock w (tick w)) +:+ quote +:+ ","
                             +:+ quote +:+ title penultimate +:+ quote +:+ nl))
                    (clock w) (S (tick w))
                    (stdout w ++ ["STARTING " +:+ title penultimate +:+ nl]) in
                db w = Some c
                /\ restartLastTicket w = startTicket (title penultimate) w1
                /\ restartLastTicket w = Ok tt w2
                /\ (wellFormed c -> plain (title penultimate) = true ->
                    firstInstant <= clock w (tick w) < endInstant ->
                    getRecords w2
                    = Ok (records ++ [mkRecord started (title penultimate)]) w2))).
Proof.
  intros H exits noHistory noPreviousTicket alreadyWorking.
  pose proof (restartLastTicket_unfold _ _ _ H) as HU.
  assert (Hno : fails NoHistoryError w1 = noHistory) by reflexivity.
  assert (Hprev : fails NoPreviousTicketError w1 = noPreviousTicket).
  { subst noPreviousTicket exits. cbn [fails].
    unfold yellForNoPreviousTicket, bind, println, print, os_Exit.
    cbn [home db clock tick stdout]. by rewrite <- app_assoc. }
  assert (Hwork : forall t, fails (AlreadyWorkingError t) w1 = alreadyWorking t)
    by reflexivity.
  split; [by repeat split|]. split; [|split].
  - intros ->. by rewrite HU.
  - intros r ->. split.
    + intros Ht. apply String.eqb_eq in Ht. by rewrite HU, Ht.
    + intros Ht. apply String.eqb_neq in Ht. by rewrite HU, Ht.
  - intros before p l Hrec.
    destruct (last_two before p l) as [Hl Hp]. rewrite <- Hrec in Hl, Hp.
    rewrite Hl, Hp in HU.
    assert (HU' : restartLastTicket w
      = if String.eqb (title l) STOP_TOKEN then
          if String.eqb (title p) STOP_TOKEN
          then fails NoPreviousTicketError w1
          else startTicket (title p) w1
        else fails (AlreadyWorkingError (title l)) w1).
    { rewrite HU, Hrec. by destruct before as [|? [|? ?]]. }
    clear HU. split; [|split].
    + intros Ht. apply String.eqb_neq in Ht. by rewrite HU', Ht.
    + intros Ht Ht'. apply String.eqb_eq in Ht, Ht'. by rewrite HU', Ht, Ht'.
    + intros Ht Ht'. apply String.eqb_eq in Ht. apply String.eqb_neq in Ht'.
      rewrite Ht, Ht' in HU'.
      apply getRecords_Ok in H as (Hh & c1 & first & -> & HR & HL & [Hdb|Hnil]);
        [|rewrite Hnil in Hrec; by destruct before].
      exists c1. cbv zeta. rewrite (world_eta w c1 Hdb) in *.
      split; [done|]. split; [done|].
      pose proof (startTicket_initialised w c1 first (title p) Hh Hdb HR) as Hstart.
      split; [by rewrite HU', Hstart|].
      intros Hwf Hplain Hclock.
      destruct (writeTicket_then_read w c1 records (title p) Hh Hdb Hwf HL Hplain Hclock)
        as (_ & _ & _ & Hread).
      rewrite <- truncateToSecond_explicit.
      apply (Hread ["STARTING " +:+ title p +:+ nl]).
Qed.

(** Resuming ticket A at noon, after a stop at 10:15. *)
Lemma restartLastTicket_cases_witness :
  getRecords stoppedWorld = Ok [eventA; eventStop] stoppedWorld
  /\ exists w2,
       restartLastTicket stoppedWorld = Ok tt w2
       /\ db w2 = Some (stoppedLedger +:+ literalRecord "2024/03/05 12:00:00" "A")
       /\ stdout w2 = ["STARTING A" +:+ nl]
       /\ getRecords w2 = Ok [eventA; eventStop; mkRecord noon "A"] w2.
Proof.
  assert (H : getRecords stoppedWorld = Ok [eventA; eventStop] stoppedWorld)
    by (vm_compute; reflexivity).
  split; [exact H|].
  destruct (restartLastTicket_cases _ _ _ H) as (_ & _ & _ & Hmany).
  destruct (Hmany [] eventA eventStop eq_refl) as (_ & _ & Hresume).
  destruct (Hresume eq_refl ltac:(discriminate)) as (c & Hc & _ & Hrun & Hread).
  injection Hc as <-. eexists. split; [exact Hrun|].
  split; [reflexivity|]. split; [reflexivity|].
  apply Hread.
  - split; [reflexivity|]. exists "timestamp", "title". reflexivity.
  - reflexivity.
  - vm_compute. split; [discriminate|reflexivity].
Defined.

(** C2 fails in its last case on a ledger that the program has written
    itself. [mate start] with a title typed with a doubled double quote
    writes a line that reads back as the title with one double quote;
    after [mate stop], [mate start] without a title resumes that title
    and writes it as it is: the ledger does not read any more, and the
    title is not its new last event. *)
Lemma resume_of_a_quoted_title :
  exists w1 w2 w3,
    main map_to_list ["mate"; "start"; doubledTitle] "" freshWorld = Ok tt w1
    /\ main map_to_list ["mate"; "stop"] "" w1 = Ok tt w2
    /\ getRecords w2 = Ok [mkRecord noon quotedTitle; mkRecord noon STOP_TOKEN] w2
    /\ main map_to_list ["mate"; "start"] "" w2 = Ok tt w3
    /\ restartLastTicket w2 = Ok tt w3
    /\ db w3
       = Some (CSV_HEADER +:+ literalRecord "2024/03/05 12:00:00" doubledTitle
                          +:+ literalRecord "2024/03/05 12:00:00" STOP_TOKEN
                          +:+ literalRecord "2024/03/05 12:00:00" quotedTitle)
    /\ stdout w3
       = ["STARTING " +:+ doubledTitle +:+ nl; "STOPPING " +:+ quotedTitle +:+ nl;
          "STARTING " +:+ quotedTitle +:+ nl]
    /\ getRecords w3 = Fatal (CsvFault Csv.ErrQuote) w3.
Proof.
  eexists _, _, _.
  split; [vm_compute; reflexivity|]. split; [vm_compute; reflexivity|].
  split; [vm_compute; reflexivity|]. split; [vm_compute; reflexivity|].
  split; [vm_compute; reflexivity|]. split; [vm_compute; reflexivity|].
  split; vm_compute; reflexivity.
Qed.
